(** * Row-store key search (src/btree/row_srch.c)

    A shallow embedding of [__wt_row_search], [__wt_ins_search],
    [__wt_key_build] and [__wt_key_build_serial_func], with the properties
    of the search path proved over it.

    Memory is explicit: the page cache is a list of pages addressed by
    index, key buffers live in a list of allocations, and the session
    carries the [srch_*] return fields and its hazard references.  C
    functions that return an [int] and jump to [err:] are written in a
    small state-and-error monad. *)

From Stdlib Require Import ZArith Lia Bool.
From Stdlib.Strings Require Import Byte.
From stdpp Require Import base option list.

Local Open Scope Z_scope.

(* ================================================================== *)
(** ** Data model *)
(* ================================================================== *)

Abbreviation bytes := (list byte).

(** [uint32_t] arithmetic wraps modulo 2^32. *)
Definition u32 (x : Z) : Z := x mod 2 ^ 32.
Definition UINT32_MAX : Z := 2 ^ 32 - 1.

(** A [void *] held in a key slot: NULL, a reference into the page's disk
    image (offset from [page->dsk]), or a heap buffer. *)
Inductive ptr :=
| PNull
| POnPage (off : Z)
| POffPage (buf : nat).

Definition ptr_eqb (p q : ptr) : bool :=
  match p, q with
  | PNull, PNull => true
  | POnPage a, POnPage b => a =? b
  | POffPage a, POffPage b => Nat.eqb a b
  | _, _ => false
  end.

(** [WT_ROW]: the leading [void *key] / [uint32_t size] pair. *)
Record WT_ROW := mkROW { row_key : ptr; row_size : Z }.

(** [WT_ROW_REF]: the same leading pair followed by the child reference;
    [rref_ref] is the address of the child page ([WT_ROW_REF_PAGE]). *)
Record WT_ROW_REF := mkRREF { rref_key : WT_ROW; rref_ref : nat }.

(** Modelled from the spec: [WT_UPDATE] is declared outside this file; an
    update holds the current value or a tombstone marker, and
    [WT_UPDATE_DELETED_ISSET] tests for the tombstone. *)
Inductive WT_UPDATE :=
| UpdValue (data : bytes)
| UpdDeleted.

Definition WT_UPDATE_DELETED_ISSET (u : WT_UPDATE) : bool :=
  match u with UpdDeleted => true | UpdValue _ => false end.

(** [WT_INSERT]: key bytes ([WT_INSERT_KEY]/[WT_INSERT_KEY_SIZE]) and the
    [upd] pointer; the [next] link is the tail of the list holding it. *)
Record WT_INSERT := mkINS { ins_key : bytes; ins_upd : option WT_UPDATE }.

(** [page->u]: the row-store internal and leaf variants.  [upd] and [ins]
    are NULL ([None]) until allocated. *)
Inductive WT_PAGE_U :=
| row_int (t : list WT_ROW_REF)
| row_leaf (d : list WT_ROW)
           (upd : option (list (option WT_UPDATE)))
           (ins : option (list (list WT_INSERT))).

Record WT_PAGE := mkPAGE { dsk : bytes; write_gen : Z; page_u : WT_PAGE_U }.

(** The key/size pairs of a page, whichever variant it is: the view
    [__wt_key_build] has of its [void *key_arg]. *)
Definition page_rows (p : WT_PAGE) : list WT_ROW :=
  match page_u p with
  | row_int t => rref_key <$> t
  | row_leaf d _ _ => d
  end.

Definition indx_count (p : WT_PAGE) : Z := Z.of_nat (length (page_rows p)).

(** [WT_UPDATE **]: [&page->u.row_leaf.upd[slot]] or [&ins->upd] of the
    node at position [pos] of the chain hanging off insert slot [slot]. *)
Inductive upd_ref :=
| UpdSlot (slot : Z)
| UpdIns (slot : Z) (pos : nat).

(** [WT_INSERT **]: [&page->u.row_leaf.ins[slot]] or [&ins->next] of the
    node at position [pos] of that slot's chain. *)
Inductive ins_ref :=
| InsSlot (slot : Z)
| InsNext (slot : Z) (pos : nat).

(** Calls made to the external collaborators, recorded in program order
    (instrumentation only: no modelled code reads it). *)
Inductive event :=
| EvCompare (page : nat) (indx : Z)
| EvCompareIns (slot : Z) (pos : nat)
| EvCellProcess (page : nat) (off : Z).

(** [SESSION]: the search return fields and the hazard references. *)
Record SESSION := mkSESSION {
  srch_page : option nat;
  srch_write_gen : Z;
  srch_match : Z;
  srch_ip : option (nat * Z);
  srch_vupdate : option WT_UPDATE;
  srch_ins : option ins_ref;
  srch_upd : option upd_ref;
  srch_slot : Z;
  srch_exp : option Z;
  hazard : list nat
}.

Record STATE := mkSTATE {
  session : SESSION;
  root_page : nat;
  pages : list WT_PAGE;
  bufs : list bytes;
  freed : list nat;
  calls : list event
}.

(** The collaborators the search is linked against.  [btree_compare] is
    the tree's comparator; [cell_process dsk off] decodes the cell at
    offset [off] of a page image and returns its return code and bytes;
    [page_in child] is the return code of pinning a child page. *)
Record ENV := mkENV {
  btree_compare : bytes -> bytes -> Z;
  cell_process : bytes -> Z -> Z * bytes;
  page_in : nat -> Z;
  WT_NOTFOUND : Z
}.

(* ------------------------------------------------------------------ *)
(** *** Field updates *)

Definition with_session (f : SESSION -> SESSION) (st : STATE) : STATE :=
  mkSTATE (f (session st)) (root_page st) (pages st) (bufs st) (freed st)
          (calls st).

Definition with_pages (ps : list WT_PAGE) (st : STATE) : STATE :=
  mkSTATE (session st) (root_page st) ps (bufs st) (freed st) (calls st).

Definition log (e : event) (st : STATE) : STATE :=
  mkSTATE (session st) (root_page st) (pages st) (bufs st) (freed st)
          (calls st ++ [e]).

Definition set_srch_page v (s : SESSION) :=
  mkSESSION v (srch_write_gen s) (srch_match s) (srch_ip s) (srch_vupdate s)
            (srch_ins s) (srch_upd s) (srch_slot s) (srch_exp s) (hazard s).
Definition set_srch_write_gen v (s : SESSION) :=
  mkSESSION (srch_page s) v (srch_match s) (srch_ip s) (srch_vupdate s)
            (srch_ins s) (srch_upd s) (srch_slot s) (srch_exp s) (hazard s).
Definition set_srch_match v (s : SESSION) :=
  mkSESSION (srch_page s) (srch_write_gen s) v (srch_ip s) (srch_vupdate s)
            (srch_ins s) (srch_upd s) (srch_slot s) (srch_exp s) (hazard s).
Definition set_srch_ip v (s : SESSION) :=
  mkSESSION (srch_page s) (srch_write_gen s) (srch_match s) v (srch_vupdate s)
            (srch_ins s) (srch_upd s) (srch_slot s) (srch_exp s) (hazard s).
Definition set_srch_vupdate v (s : SESSION) :=
  mkSESSION (srch_page s) (srch_write_gen s) (srch_match s) (srch_ip s) v
            (srch_ins s) (srch_upd s) (srch_slot s) (srch_exp s) (hazard s).
Definition set_srch_ins v (s : SESSION) :=
  mkSESSION (srch_page s) (srch_write_gen s) (srch_match s) (srch_ip s)
            (srch_vupdate s) v (srch_upd s) (srch_slot s) (srch_exp s)
            (hazard s).
Definition set_srch_upd v (s : SESSION) :=
  mkSESSION (srch_page s) (srch_write_gen s) (srch_match s) (srch_ip s)
            (srch_vupdate s) (srch_ins s) v (srch_slot s) (srch_exp s)
            (hazard s).
Definition set_srch_slot v (s : SESSION) :=
  mkSESSION (srch_page s) (srch_write_gen s) (srch_match s) (srch_ip s)
            (srch_vupdate s) (srch_ins s) (srch_upd s) v (srch_exp s)
            (hazard s).
Definition set_hazard v (s : SESSION) :=
  mkSESSION (srch_page s) (srch_write_gen s) (srch_match s) (srch_ip s)
            (srch_vupdate s) (srch_ins s) (srch_upd s) (srch_slot s)
            (srch_exp s) v.

(** Lines 29-37: the return values as the search first sets them. *)
Definition srch_clear (s : SESSION) : SESSION :=
  mkSESSION None 0 0 None None None None UINT32_MAX None (hazard s).

(* ------------------------------------------------------------------ *)
(** *** Results of a C function: return 0, return non-zero, or no defined
    behaviour (a read through NULL or outside an array); [OutOfFuel] is
    the model's own bound on loops. *)

Inductive result (A : Type) :=
| Ret (a : A) (st : STATE)
| Err (ret : Z) (st : STATE)
| Undef
| OutOfFuel.
Arguments Ret {A} a st.
Arguments Err {A} ret st.
Arguments Undef {A}.
Arguments OutOfFuel {A}.

Definition M (A : Type) := STATE -> result A.

Definition bind {A B} (m : M A) (k : A -> M B) : M B :=
  fun st =>
    match m st with
    | Ret a st' => k a st'
    | Err r st' => Err r st'
    | Undef => Undef
    | OutOfFuel => OutOfFuel
    end.

Notation "'do' x <- m ; k" := (bind m (fun x => k))
  (at level 10, x name, m at level 100, k at level 200).

(* ================================================================== *)
(** ** Memory access *)
(* ================================================================== *)

Definition load_row (st : STATE) (pg : nat) (indx : Z) : option WT_ROW :=
  p ← pages st !! pg; page_rows p !! Z.to_nat indx.

Definition load_ref (st : STATE) (pg : nat) (indx : Z) : option nat :=
  p ← pages st !! pg;
  match page_u p with
  | row_int t => rref_ref <$> t !! Z.to_nat indx
  | row_leaf _ _ _ => None
  end.

Definition page_store_row (indx : Z) (f : WT_ROW -> WT_ROW) (p : WT_PAGE)
  : WT_PAGE :=
  mkPAGE (dsk p) (write_gen p)
    match page_u p with
    | row_int t =>
        row_int (alter (fun e => mkRREF (f (rref_key e)) (rref_ref e))
                       (Z.to_nat indx) t)
    | row_leaf d upd ins => row_leaf (alter f (Z.to_nat indx) d) upd ins
    end.

Definition store_row (pg : nat) (indx : Z) (f : WT_ROW -> WT_ROW)
    (st : STATE) : STATE :=
  with_pages (alter (page_store_row indx f) pg (pages st)) st.

(** The bytes a [WT_ITEM] view of a key slot denotes: [size] bytes at
    [key].  Reading outside the page image, outside a buffer, or from a
    freed buffer is not defined. *)
Definition item_bytes (st : STATE) (p : WT_PAGE) (r : WT_ROW)
  : option bytes :=
  if row_size r =? 0 then Some []
  else match row_key r with
       | PNull => None
       | POnPage off =>
           if (0 <=? off) && (off + row_size r <=? Z.of_nat (length (dsk p)))
           then Some (take (Z.to_nat (row_size r))
                           (drop (Z.to_nat off) (dsk p)))
           else None
       | POffPage a =>
           if bool_decide (a ∈ freed st) then None
           else b ← bufs st !! a;
                if row_size r <=? Z.of_nat (length b)
                then Some (take (Z.to_nat (row_size r)) b) else None
       end.

(** [*session->srch_upd] on leaf [pg]. *)
Definition load_upd (st : STATE) (pg : nat) (r : upd_ref)
  : option (option WT_UPDATE) :=
  p ← pages st !! pg;
  match page_u p with
  | row_leaf _ upd ins =>
      match r with
      | UpdSlot slot => us ← upd; us !! Z.to_nat slot
      | UpdIns slot pos =>
          a ← ins; c ← a !! Z.to_nat slot; ins_upd <$> c !! pos
      end
  | row_int _ => None
  end.

(* ================================================================== *)
(** ** Key materializer: [__wt_key_build] and its serialized publish *)
(* ================================================================== *)

(** Modelled from the spec: [__wt_key_process] is declared in btree.i; a
    key needs processing while its size is zero (lines 309 and 363 say the
    same). *)
Definition __wt_key_process (k : WT_ROW) : bool := row_size k =? 0.

(** Modelled from the spec: [__wt_ref_off_page] is declared in btree.i; a
    pointer is off-page when it does not point into the page's image.
    [POnPage off] stands for a pointer into the image of the page that
    holds the slot, so the test is on the constructor; that [off] is
    inside the image is a separate condition ([cell_in_image]), assumed
    where a statement depends on it. *)
Definition __wt_ref_off_page (p : WT_PAGE) (c : ptr) : bool :=
  match c with POnPage _ => false | _ => true end.

(** [WT_BUF tmp]: the allocation [mem] and the item [data]/[size]. *)
Record WT_BUF := mkBUF { buf_mem : nat; item_data : ptr; item_size : Z }.

(** The stores of [__wt_key_build_serial_func], lines 359-370, in program
    order. *)
Inductive mem_op :=
| OpStoreKey (p : ptr)
| OpFlush
| OpStoreSize (n : Z).

Definition apply_op (k : WT_ROW) (o : mem_op) : WT_ROW :=
  match o with
  | OpStoreKey p => mkROW p (row_size k)
  | OpFlush => k
  | OpStoreSize n => mkROW (row_key k) n
  end.

Definition key_build_serial_ops (k : WT_ROW) (tmp : WT_BUF) : list mem_op :=
  if __wt_key_process k
  then [OpStoreKey (item_data tmp); OpFlush; OpStoreSize (item_size tmp)]
  else [].

(** The slot after all the stores have been applied. *)
Definition publish_row (tmp : WT_BUF) (k : WT_ROW) : WT_ROW :=
  fold_left apply_op (key_build_serial_ops k tmp) k.

(** [__wt_key_build_serial_func] on the slot [indx] of page [pg]. *)
Definition __wt_key_build_serial_func (pg : nat) (indx : Z) (tmp : WT_BUF)
  : M unit :=
  fun st =>
    match load_row st pg indx with
    | None => Undef
    | Some k =>
        Ret tt (store_row pg indx (publish_row tmp) st)
    end.

(** Every memory state the publish goes through, the first before any
    store and the last after all of them. *)
Definition key_build_serial_states (k : WT_ROW) (tmp : WT_BUF)
  : list WT_ROW :=
  (fun n => fold_left apply_op (take n (key_build_serial_ops k tmp)) k)
    <$> seq 0 (S (length (key_build_serial_ops k tmp))).

Definition alloc (b : bytes) (st : STATE) : STATE :=
  mkSTATE (session st) (root_page st) (pages st) (bufs st ++ [b]) (freed st)
          (calls st).

Definition __wt_free (a : nat) (st : STATE) : STATE :=
  mkSTATE (session st) (root_page st) (pages st) (bufs st) (a :: freed st)
          (calls st).

(** Lines 297-325: read the cell, return early when it is off-page,
    otherwise decode it into a fresh buffer.  [None] is the early
    [return (0)]. *)
Definition key_build_instantiate (E : ENV) (pg : nat) (indx : Z)
  : M (option WT_BUF) :=
  fun st =>
    match pages st !! pg, load_row st pg indx with
    | Some page, Some k =>
        let cell := row_key k in
        if __wt_ref_off_page page cell then Ret None st
        else
          match cell with
          | POnPage off =>
              let '(ret, b) := cell_process E (dsk page) off in
              let st1 := log (EvCellProcess pg off) st in
              if negb (ret =? 0) then Err ret st1
              else
                let a := length (bufs st1) in
                Ret (Some (mkBUF a (POffPage a) (Z.of_nat (length b))))
                    (alloc b st1)
          | _ => Undef
          end
    | _, _ => Undef
    end.

(** Lines 327-334: swap the key into place, then free the buffer if the
    slot does not point at it. *)
Definition key_build_publish (pg : nat) (indx : Z) (tmp : WT_BUF)
  : M unit :=
  do u <- __wt_key_build_serial_func pg indx tmp;
  fun st =>
    match load_row st pg indx with
    | None => Undef
    | Some k =>
        if negb (ptr_eqb (row_key k) (item_data tmp))
        then Ret tt (__wt_free (buf_mem tmp) st)
        else Ret tt st
    end.

(** [__wt_key_build].  The [ret] it returns after the swap is the 0 the
    serialized function hands to [__wt_session_serialize_wrapup]. *)
Definition __wt_key_build (E : ENV) (pg : nat) (indx : Z) : M unit :=
  do tmp <- key_build_instantiate E pg indx;
  match tmp with
  | None => fun st => Ret tt st
  | Some tmp => key_build_publish pg indx tmp
  end.

(** The call site, lines 58-60 and 141-142:
    [if (__wt_key_process(rip)) WT_ERR(__wt_key_build(session, page, rip))]. *)
Definition key_materialize (E : ENV) (pg : nat) (indx : Z) : M unit :=
  fun st =>
    match load_row st pg indx with
    | None => Undef
    | Some k =>
        if __wt_key_process k then __wt_key_build E pg indx st
        else Ret tt st
    end.

(** [btree->btree_compare(btree, key, (WT_ITEM * )rip)]. *)
Definition call_compare (E : ENV) (key : bytes) (pg : nat) (indx : Z)
  : M Z :=
  fun st =>
    match pages st !! pg, load_row st pg indx with
    | Some page, Some r =>
        match item_bytes st page r with
        | Some b => Ret (btree_compare E key b) (log (EvCompare pg indx) st)
        | None => Undef
        end
    | _, _ => Undef
    end.

(* ================================================================== *)
(** ** Hazard references *)
(* ================================================================== *)

Fixpoint remove_first (x : nat) (l : list nat) : list nat :=
  match l with
  | [] => []
  | y :: l' => if Nat.eqb x y then l' else y :: remove_first x l'
  end.

Definition __wt_hazard_clear (pg : nat) (st : STATE) : STATE :=
  with_session (fun s => set_hazard (remove_first pg (hazard s)) s) st.

(** Modelled from the spec: [__wt_page_in] is the page provider's pin; on
    success the child gains a hazard reference, on failure nothing is
    pinned and the provider's return code comes back. *)
Definition __wt_page_in (E : ENV) (child : nat) : M unit :=
  fun st =>
    if negb (page_in E child =? 0) then Err (page_in E child) st
    else Ret tt (with_session (fun s => set_hazard (child :: hazard s) s) st).

(** Modelled from the spec: [WT_PAGE_OUT] is declared outside this file;
    it releases the page's hazard reference, except for the root page,
    whose pin belongs to the caller (lines 99-100 do the same). *)
Definition WT_PAGE_OUT (pg : nat) (st : STATE) : STATE :=
  if negb (Nat.eqb pg (root_page st)) then __wt_hazard_clear pg st else st.

(** [goto err] with [ret] set, lines 247-248. *)
Definition goto_err {A} (pg : nat) (ret : Z) (st : STATE) : result A :=
  Err ret (WT_PAGE_OUT pg st).

(** [WT_ERR(call)] inside [__wt_row_search] while [page] is [pg]. *)
Definition WT_ERR {A} (pg : nat) (m : M A) : M A :=
  fun st =>
    match m st with
    | Err ret st' => goto_err pg ret st'
    | r => r
    end.

(* ================================================================== *)
(** ** The binary searches *)
(* ================================================================== *)

(** Loop state at the exit of a binary search: [base], the slot pointer
    ([rref] or [rip], a page and an index, NULL until first assigned) and
    [cmp]. *)
Definition slot_ptr := option (nat * Z).

(** Lines 49-84.  [fuel] bounds the iterations; [limit] at least halves on
    each one. *)
Fixpoint int_search (E : ENV) (fuel : nat) (key : bytes) (pg : nat)
    (base limit : Z) (rref : slot_ptr) (cmp : Z) (st : STATE)
  : result (Z * slot_ptr * Z) :=
  if limit =? 0 then Ret (base, rref, cmp) st
  else
    match fuel with
    | O => OutOfFuel
    | S fuel =>
        let indx := u32 (base + Z.shiftr limit 1) in
        let rref := Some (pg, indx) in
        match WT_ERR pg (key_materialize E pg indx) st with
        | Ret _ st1 =>
            if negb (indx =? 0) then
              match call_compare E key pg indx st1 with
              | Ret cmp st2 =>
                  if cmp =? 0 then Ret (base, rref, cmp) st2
                  else if cmp <? 0 then
                    int_search E fuel key pg base (Z.shiftr limit 1)
                               rref cmp st2
                  else
                    int_search E fuel key pg (u32 (indx + 1))
                               (Z.shiftr (u32 (limit - 1)) 1) rref cmp st2
              | Err ret st2 => Err ret st2
              | Undef => Undef
              | OutOfFuel => OutOfFuel
              end
            else
              int_search E fuel key pg (u32 (indx + 1))
                         (Z.shiftr (u32 (limit - 1)) 1) rref cmp st1
        | Err ret st1 => Err ret st1
        | Undef => Undef
        | OutOfFuel => OutOfFuel
        end
    end.

(** Lines 133-152. *)
Fixpoint leaf_search (E : ENV) (fuel : nat) (key : bytes) (pg : nat)
    (base limit : Z) (rip : slot_ptr) (cmp : Z) (st : STATE)
  : result (Z * slot_ptr * Z) :=
  if limit =? 0 then Ret (base, rip, cmp) st
  else
    match fuel with
    | O => OutOfFuel
    | S fuel =>
        let indx := u32 (base + Z.shiftr limit 1) in
        let rip := Some (pg, indx) in
        match WT_ERR pg (key_materialize E pg indx) st with
        | Ret _ st1 =>
            match call_compare E key pg indx st1 with
            | Ret cmp st2 =>
                if cmp =? 0 then Ret (base, rip, cmp) st2
                else if cmp <? 0 then
                  leaf_search E fuel key pg base (Z.shiftr limit 1)
                              rip cmp st2
                else
                  leaf_search E fuel key pg (u32 (indx + 1))
                              (Z.shiftr (u32 (limit - 1)) 1) rip cmp st2
            | Err ret st2 => Err ret st2
            | Undef => Undef
            | OutOfFuel => OutOfFuel
            end
        | Err ret st1 => Err ret st1
        | Undef => Undef
        | OutOfFuel => OutOfFuel
        end
    end.

(** The iterations a binary search over [n] entries can take. *)
Definition search_fuel (n : Z) : nat := Z.to_nat n.

(** Lines 49-95: the binary search of one internal page followed by the
    choice of the slot for the step down. *)
Definition int_select (E : ENV) (key : bytes) (pg : nat) (n : Z)
    (rref : slot_ptr) (cmp : Z) : M (slot_ptr * Z) :=
  fun st =>
    match int_search E (search_fuel n) key pg 0 n rref cmp st with
    | Ret (base, rref, cmp) st1 =>
        Ret (if negb (cmp =? 0) then Some (pg, u32 (base - 1)) else rref,
             cmp) st1
    | Err ret st1 => Err ret st1
    | Undef => Undef
    | OutOfFuel => OutOfFuel
    end.

(** Lines 47-102: the descent.  [depth] bounds the number of levels.  The
    result is the leaf reached and the value [cmp] has on arrival. *)
Fixpoint tree_descend (E : ENV) (depth : nat) (key : bytes) (pg : nat)
    (rref : slot_ptr) (cmp : Z) (st : STATE) : result (nat * Z) :=
  match pages st !! pg with
  | None => Undef
  | Some page =>
      match page_u page with
      | row_leaf _ _ _ => Ret (pg, cmp) st
      | row_int _ =>
          match depth with
          | O => OutOfFuel
          | S depth =>
              match int_select E key pg (indx_count page) rref cmp st with
              | Ret (Some (rp, ri), cmp) st1 =>
                  match load_ref st1 rp ri with
                  | None => Undef
                  | Some child =>
                      match WT_ERR pg (__wt_page_in E child) st1 with
                      | Ret _ st2 =>
                          let st3 :=
                            if negb (Nat.eqb pg (root_page st2))
                            then __wt_hazard_clear pg st2 else st2 in
                          tree_descend E depth key child (Some (rp, ri))
                                       cmp st3
                      | Err ret st2 => Err ret st2
                      | Undef => Undef
                      | OutOfFuel => OutOfFuel
                      end
                  end
              | Ret (None, _) _ => Undef
              | Err ret st1 => Err ret st1
              | Undef => Undef
              | OutOfFuel => OutOfFuel
              end
          end
      end
  end.

(* ================================================================== *)
(** ** Insert chain search: [__wt_ins_search], lines 255-283 *)
(* ================================================================== *)

(** [ins] is the chain from the node at position [pos] of insert slot
    [slot] onwards.  Returns the function's [int]. *)
Fixpoint __wt_ins_search (E : ENV) (key : bytes) (slot : Z) (pos : nat)
    (ins : list WT_INSERT) (st : STATE) : Z * STATE :=
  match ins with
  | [] => (1, st)
  | node :: next =>
      let cmp := btree_compare E key (ins_key node) in
      let st := log (EvCompareIns slot pos) st in
      if cmp =? 0 then
        (0, with_session
              (fun s => set_srch_upd (Some (UpdIns slot pos))
                          (set_srch_vupdate (ins_upd node)
                             (set_srch_ins None s))) st)
      else if cmp <? 0 then (1, st)
      else
        __wt_ins_search E key slot (S pos) next
          (with_session (set_srch_ins (Some (InsNext slot pos))) st)
  end.

(* ================================================================== *)
(** ** The search: [__wt_row_search] *)
(* ================================================================== *)

(** [WT_ROW_INDX_SLOT(page, rip)]: the index of [rip] in the page's slot
    array; not defined for NULL or for a pointer into another page. *)
Definition WT_ROW_INDX_SLOT (pg : nat) (rip : slot_ptr) : option Z :=
  match rip with
  | Some (rp, ri) => if Nat.eqb rp pg then Some ri else None
  | None => None
  end.

(** Modelled from the spec: [WT_ROW_INSERT_SMALLEST] and [WT_ROW_INSERT]
    are declared outside this file; they read the insert array at the
    extra slot one past the last on-disk slot, respectively at the slot
    of [rip], and give NULL when the array is not allocated. *)
Definition WT_ROW_INSERT_SLOT (ins : option (list (list WT_INSERT)))
    (slot : Z) : option (list WT_INSERT) :=
  match ins with
  | None => Some []
  | Some a => a !! Z.to_nat slot
  end.

(** Lines 238-241: the assignments before [return (0)]. *)
Definition row_return (pg : nat) (write_gen : Z) (rip : slot_ptr) (cmp : Z)
    (st : STATE) : STATE :=
  with_session
    (fun s =>
       set_srch_ip rip
         (set_srch_match (if cmp =? 0 then 1 else 0)
            (set_srch_write_gen write_gen (set_srch_page (Some pg) s)))) st.

(** Lines 228-249, from [done:] on. *)
Definition row_done (E : ENV) (write : bool) (pg : nat) (write_gen : Z)
    (rip : slot_ptr) (cmp : Z) : M unit :=
  fun st =>
    let deleted :=
      if negb write then
        match srch_upd (session st) with
        | None => Some false
        | Some r =>
            match load_upd st pg r with
            | None => None
            | Some None => Some false
            | Some (Some u) => Some (WT_UPDATE_DELETED_ISSET u)
            end
        end
      else Some false in
    match deleted with
    | None => Undef
    | Some true => goto_err pg (WT_NOTFOUND E) st
    | Some false => Ret tt (row_return pg write_gen rip cmp st)
    end.

(** Lines 154-226, followed by [done:]. *)
Definition row_finish (E : ENV) (key : bytes) (write : bool) (pg : nat)
    (write_gen : Z) (base : Z) (rip : slot_ptr) (cmp : Z) : M unit :=
  fun st =>
    match pages st !! pg with
    | None => Undef
    | Some page =>
        match page_u page with
        | row_int _ => Undef
        | row_leaf d upd ins =>
            if cmp =? 0 then
              match WT_ROW_INDX_SLOT pg rip with
              | None => Undef
              | Some slot =>
                  let st := with_session (set_srch_slot slot) st in
                  match upd with
                  | Some us =>
                      match us !! Z.to_nat slot with
                      | None => Undef
                      | Some u =>
                          row_done E write pg write_gen rip cmp
                            (with_session
                               (fun s => set_srch_vupdate u
                                  (set_srch_upd (Some (UpdSlot slot)) s)) st)
                      end
                  | None => row_done E write pg write_gen rip cmp st
                  end
              end
            else
              let rip := Some (pg, 0) in
              let rip :=
                if negb (base =? 0) then Some (pg, u32 (base - 1))
                else rip in
              let slot :=
                if base =? 0 then Some (indx_count page)
                else WT_ROW_INDX_SLOT pg rip in
              match slot with
              | None => Undef
              | Some slot =>
                  match WT_ROW_INSERT_SLOT ins slot with
                  | None => Undef
                  | Some chain =>
                      let st := with_session (set_srch_slot slot) st in
                      let st :=
                        match ins with
                        | Some _ =>
                            with_session
                              (set_srch_ins (Some (InsSlot slot))) st
                        | None => st
                        end in
                      match chain with
                      | [] =>
                          if negb write
                          then goto_err pg (WT_NOTFOUND E) st
                          else row_done E write pg write_gen rip cmp st
                      | _ :: _ =>
                          let '(cmp, st) :=
                            __wt_ins_search E key slot 0 chain st in
                          if negb (cmp =? 0) && negb write
                          then goto_err pg (WT_NOTFOUND E) st
                          else row_done E write pg write_gen rip cmp st
                      end
                  end
              end
        end
    end.

(** Lines 29-152: everything up to the end of the leaf's binary search.
    The result is the leaf, the write generation copied on arrival, and
    the loop's [base], [rip] and [cmp]. *)
Definition row_position (E : ENV) (depth : nat) (key : bytes)
  : M (nat * Z * Z * slot_ptr * Z) :=
  fun st =>
    let st := with_session srch_clear st in
    match tree_descend E depth key (root_page st) None 0 st with
    | Ret (pg, cmp) st1 =>
        match pages st1 !! pg with
        | None => Undef
        | Some page =>
            let wg := write_gen page in
            match leaf_search E (search_fuel (indx_count page)) key pg 0
                              (indx_count page) None cmp st1 with
            | Ret (base, rip, cmp) st2 => Ret (pg, wg, base, rip, cmp) st2
            | Err ret st2 => Err ret st2
            | Undef => Undef
            | OutOfFuel => OutOfFuel
            end
        end
    | Err ret st1 => Err ret st1
    | Undef => Undef
    | OutOfFuel => OutOfFuel
    end.

(** [__wt_row_search(session, key, flags)].  [write] is
    [LF_ISSET(WT_WRITE)]: the only flag the function reads; [WT_DB_FCHK]
    rejects any flag outside the search mask before the tree is touched. *)
Definition __wt_row_search (E : ENV) (depth : nat) (key : bytes)
    (write : bool) : M unit :=
  bind (row_position E depth key)
       (fun '(pg, wg, base, rip, cmp) =>
          row_finish E key write pg wg base rip cmp).

(* ================================================================== *)
(** ** Reference definitions the properties are stated against *)
(* ================================================================== *)

(** The bytes the comparator sees in a slot once the slot has been through
    [key_materialize]: the decoded cell for a pending on-page key, the
    item's bytes otherwise.  [None] when the cell does not decode or the
    item cannot be read. *)
Definition slot_key (E : ENV) (st : STATE) (p : WT_PAGE) (r : WT_ROW)
  : option bytes :=
  if __wt_key_process r then
    match row_key r with
    | POnPage off =>
        if fst (cell_process E (dsk p) off) =? 0
        then Some (snd (cell_process E (dsk p) off)) else None
    | _ => Some []
    end
  else item_bytes st p r.

Definition page_keys (E : ENV) (st : STATE) (pg : nat)
  : option (list bytes) :=
  p ← pages st !! pg; mapM (slot_key E st p) (page_rows p).

(** Only allocated buffers have been freed. *)
Definition heap_wf (st : STATE) : bool :=
  forallb (fun a => Nat.ltb a (length (bufs st))) (freed st).

(** Keys strictly increasing under the comparator. *)
Fixpoint sortedb (E : ENV) (ks : list bytes) : bool :=
  match ks with
  | [] => true
  | k :: ks' =>
      forallb (fun k' => btree_compare E k k' <? 0) ks' && sortedb E ks'
  end.

(** The comparator is a total order up to the keys it calls equal. *)
Record total_order (cmp : bytes -> bytes -> Z) : Prop := {
  cmp_antisym : forall a b, Z.sgn (cmp a b) = - Z.sgn (cmp b a);
  cmp_trans : forall a b c, cmp a b <= 0 -> cmp b c <= 0 -> cmp a c <= 0
}.

(** Linear scan of a leaf's keys from slot [i] on: [(true, j)] at the
    first slot [j] whose key equals the target, [(false, j)] at the first
    slot whose key is greater, [(false, end)] when there is none. *)
Fixpoint linear_scan (E : ENV) (key : bytes) (ks : list bytes) (i : Z)
  : bool * Z :=
  match ks with
  | [] => (false, i)
  | k :: ks' =>
      let c := btree_compare E key k in
      if c =? 0 then (true, i)
      else if c <? 0 then (false, i)
      else linear_scan E key ks' (i + 1)
  end.

(** What the leaf's binary search reports, read off its exit state: an
    exact match at the slot [rip] points to, or a miss at [base]. *)
Definition leaf_outcome (pg : nat) (r : Z * slot_ptr * Z)
  : option (bool * Z) :=
  let '(base, rip, cmp) := r in
  if cmp =? 0 then slot ← WT_ROW_INDX_SLOT pg rip; Some (true, slot)
  else Some (false, base).

(** The smallest index from [i] on whose key is greater than the target,
    or the index one past the end. *)
Fixpoint first_greater (E : ENV) (key : bytes) (ks : list bytes) (i : Z)
  : Z :=
  match ks with
  | [] => i
  | k :: ks' =>
      if btree_compare E key k <? 0 then i
      else first_greater E key ks' (i + 1)
  end.

(** The descent slot of an internal page: one before the smallest index
    whose key is greater than the target, index 0 counting as smaller than
    every target. *)
Definition descent_slot (E : ENV) (key : bytes) (ks : list bytes) : Z :=
  first_greater E key (tail ks) 1 - 1.

(** The link [k] nodes into the chain of insert slot [slot]: the slot
    itself, or the [next] field of the node before. *)
Definition chain_link (slot : Z) (k : nat) : ins_ref :=
  match k with
  | O => InsSlot slot
  | S k' => InsNext slot k'
  end.


(** The root is no page's child. *)
Definition root_not_child (st : STATE) : bool :=
  forallb
    (fun p =>
       match page_u p with
       | row_int t =>
           forallb (fun r => negb (Nat.eqb (rref_ref r) (root_page st))) t
       | row_leaf _ _ _ => true
       end) (pages st).

(** The leaf's update and insert arrays, when allocated, have one entry
    per slot, the insert array one more. *)
Definition leaf_wf (p : WT_PAGE) : bool :=
  match page_u p with
  | row_int _ => false
  | row_leaf d upd ins =>
      match upd with
      | Some us => Nat.eqb (length us) (length d)
      | None => true
      end &&
      match ins with
      | Some a => Nat.eqb (length a) (S (length d))
      | None => true
      end
  end.

(** A slot's key is pending (size zero) or resident (size positive and
    the item readable). *)
Definition slot_ok (st : STATE) (p : WT_PAGE) (k : WT_ROW) : Prop :=
  row_size k = 0 \/ (0 < row_size k /\ is_Some (item_bytes st p k)).

(** What a page keeps across key materialization: its image, its write
    generation, its child references and its update and insert arrays. *)
Definition page_frame (p p' : WT_PAGE) : Prop :=
  dsk p' = dsk p /\ write_gen p' = write_gen p /\
  match page_u p, page_u p' with
  | row_int t, row_int t' => rref_ref <$> t' = rref_ref <$> t
  | row_leaf d u i, row_leaf d' u' i' =>
      length d' = length d /\ u' = u /\ i' = i
  | _, _ => False
  end.

(** What the binary searches leave unchanged between two states, with the
    calls made in between satisfying [P]. *)
Record frame (E : ENV) (P : event -> Prop) (st st' : STATE) : Prop := {
  fr_session : session st' = session st;
  fr_root : root_page st' = root_page st;
  fr_freed : freed st' = freed st;
  fr_bufs : exists l, bufs st' = bufs st ++ l;
  fr_calls : exists evs, calls st' = calls st ++ evs /\ Forall P evs;
  fr_pages : Forall2 page_frame (pages st) (pages st');
  fr_keys :
    heap_wf st ->
    forall pg p i r k,
      pages st !! pg = Some p -> page_rows p !! i = Some r ->
      slot_key E st p r = Some k ->
      exists p' r',
        pages st' !! pg = Some p' /\ page_rows p' !! i = Some r' /\
        slot_key E st' p' r' = Some k
}.

(** The keys of page [pg], slot by slot, are [ks]. *)
Definition keys_of (E : ENV) (st : STATE) (pg : nat) (ks : list bytes)
  : Prop :=
  exists p,
    pages st !! pg = Some p /\
    Forall2 (fun r k => slot_key E st p r = Some k) (page_rows p) ks.

(** The comparator calls a binary search of an internal page may make:
    none on index 0. *)
Definition not_index0 (e : event) : Prop :=
  match e with
  | EvCompare _ indx => indx <> 0
  | _ => True
  end.

(** Every key below slot [b] is smaller than the target and every key from
    slot [e] on is greater. *)
Definition bracket (E : ENV) (key : bytes) (ks : list bytes) (b e : Z)
  : Prop :=
  (forall i k, 0 <= i < b -> ks !! Z.to_nat i = Some k ->
               0 < btree_compare E key k) /\
  (forall i k, e <= i -> ks !! Z.to_nat i = Some k ->
               btree_compare E key k < 0).

(* ================================================================== *)
(** ** A sample tree *)
(* ================================================================== *)

(** Byte-wise lexicographic comparison, a shorter key sorting first. *)
Fixpoint lex_compare (a b : bytes) : Z :=
  match a, b with
  | [], [] => 0
  | [], _ :: _ => -1
  | _ :: _, [] => 1
  | x :: a', y :: b' =>
      match N.compare (Byte.to_N x) (Byte.to_N y) with
      | Lt => -1
      | Gt => 1
      | Eq => lex_compare a' b'
      end
  end.

(** A one-byte length followed by the key bytes; a cell outside the image
    fails with 22. *)
Definition sample_cell (d : bytes) (off : Z) : Z * bytes :=
  match drop (Z.to_nat off) d with
  | n :: rest => (0, take (N.to_nat (Byte.to_N n)) rest)
  | [] => (22, [])
  end.

Definition sample_env : ENV :=
  mkENV lex_compare sample_cell (fun _ => 0) (-31803).

(** The same, with the pin of page 3 failing with 5. *)
Definition failing_env : ENV :=
  mkENV lex_compare sample_cell
        (fun child => if Nat.eqb child 3 then 5 else 0) (-31803).

(** Root: children split at "d" and "h"; the key at index 0 is "m". *)
Definition sample_root : WT_PAGE :=
  mkPAGE ["m"; "d"; "h"]%byte 1
    (row_int [mkRREF (mkROW (POnPage 0) 1) 1;
              mkRREF (mkROW (POnPage 1) 1) 2;
              mkRREF (mkROW (POnPage 2) 1) 3]).

Definition sample_leaf1 : WT_PAGE :=
  mkPAGE ["b"; "c"]%byte 4
    (row_leaf [mkROW (POnPage 0) 1; mkROW (POnPage 1) 1] None None).

(** Keys "d", "f" (still a cell at offset 3) and "g"; "d" is deleted on
    the page, and its chain holds "da" and a deleted "db". *)
Definition sample_leaf2 : WT_PAGE :=
  mkPAGE ["d"; "f"; "g"; "001"; "f"]%byte 7
    (row_leaf [mkROW (POnPage 0) 1; mkROW (POnPage 3) 0; mkROW (POnPage 2) 1]
       (Some [Some UpdDeleted; None; Some (UpdValue ["001"%byte])])
       (Some [[mkINS ["d"; "a"]%byte (Some (UpdValue ["002"%byte]));
               mkINS ["d"; "b"]%byte (Some UpdDeleted)];
              []; []; []])).

Definition sample_leaf3 : WT_PAGE :=
  mkPAGE ["h"; "k"]%byte 2
    (row_leaf [mkROW (POnPage 0) 1; mkROW (POnPage 1) 1] None None).

Definition sample_session : SESSION :=
  mkSESSION None 0 0 None None None None 0 None [].

Definition sample_state : STATE :=
  mkSTATE sample_session 0%nat
          [sample_root; sample_leaf1; sample_leaf2; sample_leaf3] [] [] [].

(** A tree whose root is a leaf with no slots. *)
Definition empty_state : STATE :=
  mkSTATE sample_session 0%nat [mkPAGE [] 0 (row_leaf [] None None)] [] [] [].

(** [ret] is a non-zero return code of the page provider or of the cell
    codec. *)
Definition collab_error (E : ENV) (ret : Z) : Prop :=
  ret <> 0 /\
  ((exists child, page_in E child = ret) \/
   (exists d off, fst (cell_process E d off) = ret)).

(** The hazard references of a search that has reached page [pg]: the
    caller's [h0], and [pg] unless it is the root. *)
Definition pins (root pg : nat) (h0 : list nat) : list nat :=
  if Nat.eqb pg root then h0 else pg :: h0.

(** The state at [err:] when the failing call was made from page [pg]:
    some state in the frame of [st], then [WT_PAGE_OUT]. *)
Definition err_exit (E : ENV) (pg : nat) (st st' : STATE) : Prop :=
  exists st1, frame E (fun _ => True) st st1 /\ st' = WT_PAGE_OUT pg st1.

(** Page [pg] of the cache is a row-store leaf. *)
Definition is_leaf (st : STATE) (pg : nat) : Prop :=
  exists page d upd ins,
    pages st !! pg = Some page /\ page_u page = row_leaf d upd ins.

(** What the code from line 154 to the label [done:] leaves alone:
    everything but [srch_slot], [srch_ins], [srch_upd], [srch_vupdate]
    and the record of calls. *)
Definition finish_frame (st st1 : STATE) : Prop :=
  root_page st1 = root_page st /\ pages st1 = pages st /\
  bufs st1 = bufs st /\ freed st1 = freed st /\
  hazard (session st1) = hazard (session st) /\
  srch_page (session st1) = srch_page (session st) /\
  srch_write_gen (session st1) = srch_write_gen (session st) /\
  srch_match (session st1) = srch_match (session st) /\
  srch_ip (session st1) = srch_ip (session st) /\
  srch_exp (session st1) = srch_exp (session st).

(** The insert slot a leaf miss at [base] selects on a page of [n] slots:
    the extra slot [n] for a miss before every key, the slot before
    [base] otherwise. *)
Definition miss_slot (n base : Z) : Z :=
  if base =? 0 then n else base - 1.

(** The chain a read of insert slot [slot] gives; NULL is the empty
    chain. *)
Definition chain_at (ins : option (list (list WT_INSERT))) (slot : Z)
  : list WT_INSERT :=
  match ins with
  | Some a => default [] (a !! Z.to_nat slot)
  | None => []
  end.

(** The position in a chain at which the scan stops with a key-equal
    node: every node before it is smaller than the target. *)
Definition chain_match (E : ENV) (key : bytes) (chain : list WT_INSERT)
    (k : nat) (node : WT_INSERT) : Prop :=
  chain !! k = Some node /\ btree_compare E key (ins_key node) = 0 /\
  forall j n', (j < k)%nat -> chain !! j = Some n' ->
               0 < btree_compare E key (ins_key n').

(** The position in a chain at which the scan stops without a match:
    every node before it is smaller than the target, and the node at it,
    if any, is greater. *)
Definition chain_miss (E : ENV) (key : bytes) (chain : list WT_INSERT)
    (k : nat) : Prop :=
  (forall j n', (j < k)%nat -> chain !! j = Some n' ->
                0 < btree_compare E key (ins_key n')) /\
  match chain !! k with
  | Some n' => btree_compare E key (ins_key n') < 0
  | None => k = length chain
  end.

(** The search position has found the key with resident update [u],
    referenced by [r]: on the page, at the slot [rip] points to, or in
    the insert chain the leaf miss selects. *)
Definition found_update (E : ENV) (key : bytes) (pg : nat) (page : WT_PAGE)
    (base : Z) (rip : slot_ptr) (cmp : Z) (r : upd_ref) (u : WT_UPDATE)
  : Prop :=
  match page_u page with
  | row_int _ => False
  | row_leaf d upd ins =>
      (cmp = 0 /\
       exists slot us,
         rip = Some (pg, slot) /\ upd = Some us /\
         us !! Z.to_nat slot = Some (Some u) /\ r = UpdSlot slot) \/
      (cmp <> 0 /\
       exists k node,
         chain_match E key
           (chain_at ins (miss_slot (indx_count page) base)) k node /\
         ins_upd node = Some u /\
         r = UpdIns (miss_slot (indx_count page) base) k)
  end.

(** Materializing the same slot [n] times in a row, stopping at the first
    failure. *)
Fixpoint materialize_n (E : ENV) (pg : nat) (indx : Z) (n : nat) : M unit :=
  fun st =>
    match n with
    | O => Ret tt st
    | S n' =>
        match key_materialize E pg indx st with
        | Ret _ st' => materialize_n E pg indx n' st'
        | r => r
        end
    end.

(** A page holding the cell of "f" at offset 3, with one slot, and states
    around the publish of that slot's key: before any thread has decoded
    it, and after one thread has published buffer 0 while another still
    holds buffer 1. *)
Definition publish_page (k : WT_ROW) : WT_PAGE :=
  mkPAGE ["d"; "f"; "g"; "001"; "f"]%byte 7 (row_leaf [k] None None).

Definition pending_state : STATE :=
  mkSTATE sample_session 0%nat [publish_page (mkROW (POnPage 3) 0)] [] [] [].

Definition raced_state : STATE :=
  mkSTATE sample_session 0%nat [publish_page (mkROW (POffPage 0) 1)]
          [["f"%byte]; ["f"%byte]] [] [].

(* ================================================================== *)
(** ** Whole-search invariants *)
(* ================================================================== *)

(** The state a call returns in, whatever its return code. *)
Definition final_state {A} (r : result A) : option STATE :=
  match r with
  | Ret _ st | Err _ st => Some st
  | Undef | OutOfFuel => None
  end.

(** What a whole search leaves unchanged in the store: [frame] without the
    session and the record of calls. *)
Record store_frame (E : ENV) (st st' : STATE) : Prop := {
  sf_root : root_page st' = root_page st;
  sf_freed : freed st' = freed st;
  sf_bufs : exists l, bufs st' = bufs st ++ l;
  sf_pages : Forall2 page_frame (pages st) (pages st');
  sf_keys :
    heap_wf st ->
    forall pg p i r k,
      pages st !! pg = Some p -> page_rows p !! i = Some r ->
      slot_key E st p r = Some k ->
      exists p' r',
        pages st' !! pg = Some p' /\ page_rows p' !! i = Some r' /\
        slot_key E st' p' r' = Some k
}.

(** The session up to its hazard references. *)
Definition same_srch (s s' : SESSION) : Prop := s' = set_hazard (hazard s') s.

(** A call a binary search of page [pg] over the slots from [lo] up to,
    not including, [hi] may make: a decode of one of the page's cells, or a
    comparison with one of those slots. *)
Definition probe_in (pg : nat) (lo hi : Z) (e : event) : Prop :=
  match e with
  | EvCompare p i => p = pg /\ lo <= i < hi
  | EvCellProcess p _ => p = pg
  | EvCompareIns _ _ => False
  end.

(** The number of comparator calls on page slots among [evs]. *)
Fixpoint compare_count (evs : list event) : nat :=
  match evs with
  | [] => 0
  | EvCompare _ _ :: evs' => S (compare_count evs')
  | _ :: evs' => compare_count evs'
  end.

(** What the search reports on return 0, as its caller reads it: the
    update [*srch_upd] when [srch_upd] is set. *)
Definition reported_update (st : STATE) : option (option WT_UPDATE) :=
  match srch_page (session st), srch_upd (session st) with
  | Some pg, Some r => load_upd st pg r
  | _, _ => None
  end.

(** Two states that differ in the session's hazard references at most. *)
Definition hazard_step (st st' : STATE) : Prop :=
  root_page st' = root_page st /\ pages st' = pages st /\
  bufs st' = bufs st /\ freed st' = freed st /\ calls st' = calls st /\
  same_srch (session st) (session st').

(** The update of slot [i] is a tombstone. *)
Definition slot_deleted (upd : option (list (option WT_UPDATE))) (i : Z)
  : bool :=
  match upd with
  | Some us =>
      match us !! Z.to_nat i with
      | Some (Some u) => WT_UPDATE_DELETED_ISSET u
      | _ => false
      end
  | None => false
  end.

(** Between [st] and [st'] the calls made were probes of the slots of
    page [pg] from [lo] up to [hi], at most [k] of them comparisons. *)
Definition probes (pg : nat) (lo hi : Z) (k : nat) (st st' : STATE)
  : Prop :=
  exists evs,
    calls st' = calls st ++ evs /\ Forall (probe_in pg lo hi) evs /\
    (compare_count evs <= k)%nat.

(** The descent as a reference: from page [pg], step to the child at the
    descent slot of each internal page until a leaf is reached; [depth]
    bounds the number of levels. *)
Fixpoint descent_path (E : ENV) (st : STATE) (depth : nat) (key : bytes)
    (pg : nat) : option nat :=
  page ← pages st !! pg;
  match page_u page with
  | row_leaf _ _ _ => Some pg
  | row_int _ =>
      match depth with
      | O => None
      | S depth =>
          ks ← page_keys E st pg;
          child ← load_ref st pg (descent_slot E key ks);
          descent_path E st depth key child
      end
  end.

(** Every internal page is non-empty, and its keys decode and are sorted
    from index 1 on. *)
Definition int_pages_sorted (E : ENV) (st : STATE) : Prop :=
  forall pg page t,
    pages st !! pg = Some page -> page_u page = row_int t ->
    0 < indx_count page < 2 ^ 32 /\
    exists ks, page_keys E st pg = Some ks /\ sortedb E (tail ks) = true.

(** The key the result of a search refers to: the key of the insert node
    [srch_upd] belongs to when it points into an insert chain, the key of
    the slot [srch_ip] points to otherwise. *)
Definition reported_key (st : STATE) : option bytes :=
  leaf ← srch_page (session st);
  page ← pages st !! leaf;
  match srch_upd (session st) with
  | Some (UpdIns slot pos) =>
      match page_u page with
      | row_leaf _ _ ins =>
          a ← ins; c ← a !! Z.to_nat slot; ins_key <$> c !! pos
      | row_int _ => None
      end
  | _ =>
      rip ← srch_ip (session st);
      if Nat.eqb (fst rip) leaf
      then r ← page_rows page !! Z.to_nat (snd rip); item_bytes st page r
      else None
  end.

(** Every key slot of every page is pending, or resident and readable. *)
Definition keys_ok (st : STATE) : Prop :=
  forall pg p i r,
    pages st !! pg = Some p -> page_rows p !! i = Some r -> slot_ok st p r.

(** Every page has at least one slot and fewer than 2^32; the children of
    an internal page are pages of the cache; a leaf's update and insert
    arrays, when allocated, have one entry per slot, the insert array one
    more. *)
Definition shape_ok (st : STATE) : Prop :=
  forall pg p,
    pages st !! pg = Some p ->
    0 < indx_count p < 2 ^ 32 /\
    match page_u p with
    | row_int t =>
        Forall (fun c => (c < length (pages st))%nat) (rref_ref <$> t)
    | row_leaf _ _ _ => leaf_wf p = true
    end.

(** A well-formed tree: the heap is well formed, the root is a page of
    the cache, and every page has readable keys and the right shape. *)
Definition tree_wf (st : STATE) : Prop :=
  heap_wf st = true /\ (root_page st < length (pages st))%nat /\
  keys_ok st /\ shape_ok st.

(** The sample publish in progress: a writer has decoded the key of
    [pending_state] into buffer 0 and has made the first [n] of the stores
    of [__wt_key_build_serial_func], in program order. *)
Definition publish_tmp : WT_BUF := mkBUF 0 (POffPage 0) 1.

Definition publish_in_progress (n : nat) : STATE :=
  store_row 0 0
    (fun k => fold_left apply_op (take n (key_build_serial_ops k publish_tmp)) k)
    (alloc ["f"%byte] (log (EvCellProcess 0 3) pending_state)).

(** A codec that checks the cell: a one-byte length followed by the key
    bytes; a cell whose length byte runs past the end of the image, or
    that starts outside it, fails with 22. *)
Definition strict_cell (d : bytes) (off : Z) : Z * bytes :=
  match drop (Z.to_nat off) d with
  | n :: rest =>
      if Nat.leb (N.to_nat (Byte.to_N n)) (length rest)
      then (0, take (N.to_nat (Byte.to_N n)) rest)
      else (22, [])
  | [] => (22, [])
  end.

Definition strict_env : ENV :=
  mkENV lex_compare strict_cell (fun _ => 0) (-31803).

(** A tree of one leaf whose only key is still a cell, at offset 2 of the
    image: its length byte announces more bytes than the image holds. *)
Definition truncated_state : STATE :=
  mkSTATE sample_session 0%nat [publish_page (mkROW (POnPage 2) 0)] [] [] [].

(** The cell pointer of slot [indx] of page [pg], when it is an on-page
    pointer, lies inside the page's image. *)
Definition cell_in_image (st : STATE) (pg : nat) (indx : Z) : Prop :=
  forall p k off,
    pages st !! pg = Some p -> load_row st pg indx = Some k ->
    row_key k = POnPage off -> 0 <= off < Z.of_nat (length (dsk p)).

(** The return fields of a search that reports nothing: each of them as
    lines 29-37 set it. *)
Definition no_result (s : SESSION) : Prop :=
  srch_page s = None /\ srch_write_gen s = 0 /\ srch_match s = 0 /\
  srch_ip s = None /\ srch_vupdate s = None /\ srch_ins s = None /\
  srch_upd s = None /\ srch_slot s = 2 ^ 32 - 1 /\ srch_exp s = None.

(** The descent as a reference, with its pins: the leaf reached, or the
    return code of the first pin that fails. *)
Fixpoint descent_result (E : ENV) (st : STATE) (depth : nat) (key : bytes)
    (pg : nat) : option (Z + nat) :=
  page ← pages st !! pg;
  match page_u page with
  | row_leaf _ _ _ => Some (inr pg)
  | row_int _ =>
      match depth with
      | O => None
      | S depth =>
          ks ← page_keys E st pg;
          child ← load_ref st pg (descent_slot E key ks);
          if page_in E child =? 0
          then descent_result E st depth key child
          else Some (inl (page_in E child))
      end
  end.

(** The call [e], if it is a decode of a cell of a page of [st], is one
    the codec returns 0 for. *)
Definition decode_ok (E : ENV) (st : STATE) (e : event) : Prop :=
  match e with
  | EvCellProcess pg off =>
      forall p, pages st !! pg = Some p ->
                fst (cell_process E (dsk p) off) = 0
  | _ => True
  end.

(** A run from [st] to [st'] in which every decode succeeded. *)
Definition clean_run (E : ENV) (st st' : STATE) : Prop :=
  store_frame E st st' /\
  exists evs, calls st' = calls st ++ evs /\ Forall (decode_ok E st) evs.

(** A run from [st] to [st'] whose last call was a decode that failed
    with [ret], every decode before it having succeeded. *)
Definition failed_decode (E : ENV) (st st' : STATE) (ret : Z) : Prop :=
  exists s pg off p,
    clean_run E st s /\ pages s !! pg = Some p /\
    ret = fst (cell_process E (dsk p) off) /\ ret <> 0 /\
    calls st' = calls s ++ [EvCellProcess pg off].

(* ================================================================== *)
(** ** Arithmetic of the loop variables *)
(* ================================================================== *)

Lemma u32_id x : 0 <= x < 2 ^ 32 -> u32 x = x.
Proof. intros H. unfold u32. now apply Z.mod_small. Qed.

Lemma shiftr_half x : Z.shiftr x 1 = x / 2.
Proof. now rewrite Z.shiftr_div_pow2 by lia. Qed.

(* ================================================================== *)
(** ** Reading and writing key slots *)
(* ================================================================== *)

Lemma page_rows_store indx f p :
  page_rows (page_store_row indx f p) = alter f (Z.to_nat indx) (page_rows p).
Proof.
  unfold page_rows, page_store_row. simpl.
  destruct (page_u p) as [t|d upd ins]; [|reflexivity].
  apply list_fmap_alter, Forall_forall. reflexivity.
Qed.

Lemma load_store_row_eq st pg indx f k :
  load_row st pg indx = Some k ->
  load_row (store_row pg indx f st) pg indx = Some (f k).
Proof.
  unfold load_row, store_row. simpl.
  destruct (pages st !! pg) as [p|] eqn:Hp; [|discriminate]. simpl.
  intros Hk. rewrite list_lookup_alter_eq, Hp. simpl.
  rewrite page_rows_store, list_lookup_alter_eq, Hk. reflexivity.
Qed.

Lemma page_frame_refl p : page_frame p p.
Proof.
  unfold page_frame. destruct (page_u p); auto.
Qed.

Lemma page_frame_trans p q r : page_frame p q -> page_frame q r -> page_frame p r.
Proof.
  unfold page_frame. intros (Hd & Hw & Hu) (Hd' & Hw' & Hu').
  split; [congruence|]. split; [congruence|].
  destruct (page_u p), (page_u q), (page_u r); try tauto; try congruence.
  destruct Hu as (? & ? & ?), Hu' as (? & ? & ?). repeat split; congruence.
Qed.

Lemma page_frame_store indx f p : page_frame p (page_store_row indx f p).
Proof.
  unfold page_frame, page_store_row. simpl.
  destruct (page_u p) as [t|d upd ins].
  - repeat split.
    rewrite (list_fmap_alter rref_ref _ (fun x => x))
      by (apply Forall_forall; reflexivity).
    now rewrite list_alter_id.
  - repeat split. apply length_alter.
Qed.

Lemma page_frame_rows_length p p' :
  page_frame p p' -> length (page_rows p') = length (page_rows p).
Proof.
  unfold page_frame, page_rows. intros (_ & _ & H).
  destruct (page_u p), (page_u p'); try tauto.
  rewrite !length_fmap. apply (f_equal length) in H.
  now rewrite !length_fmap in H.
Qed.

(* ================================================================== *)
(** ** The frame of the binary searches *)
(* ================================================================== *)

Lemma heap_wf_spec st :
  heap_wf st <-> forall a, a ∈ freed st -> (a < length (bufs st))%nat.
Proof.
  unfold heap_wf. rewrite forallb_True, Forall_forall.
  split; intros H a Ha; specialize (H a Ha).
  - apply Is_true_true in H. now apply Nat.ltb_lt in H.
  - apply Is_true_true. now apply Nat.ltb_lt.
Qed.

Lemma item_bytes_ext st st' p p' r k l :
  freed st' = freed st -> bufs st' = bufs st ++ l -> dsk p' = dsk p ->
  item_bytes st p r = Some k -> item_bytes st' p' r = Some k.
Proof.
  intros Hf Hb Hd. unfold item_bytes. rewrite Hf, Hb, Hd.
  destruct (row_size r =? 0); [auto|].
  destruct (row_key r); auto.
  destruct (bool_decide (buf ∈ freed st)); [auto|].
  destruct (bufs st !! buf) as [b|] eqn:Hbuf; [|discriminate]. simpl.
  rewrite (lookup_app_l_Some _ _ _ _ Hbuf). auto.
Qed.

Lemma slot_key_ext E st st' p p' r k l :
  freed st' = freed st -> bufs st' = bufs st ++ l -> dsk p' = dsk p ->
  slot_key E st p r = Some k -> slot_key E st' p' r = Some k.
Proof.
  intros Hf Hb Hd. unfold slot_key. rewrite Hd.
  destruct (__wt_key_process r); [auto|]. eauto using item_bytes_ext.
Qed.

Lemma frame_refl E P st : frame E P st st.
Proof.
  constructor; try reflexivity.
  - exists []. now rewrite app_nil_r.
  - exists []. now rewrite app_nil_r.
  - apply Forall2_same_length_lookup. split; [reflexivity|].
    intros i x y Hx Hy. rewrite Hx in Hy. injection Hy as <-.
    apply page_frame_refl.
  - intros _ pg p i r k Hp Hr Hk. eauto.
Qed.

Lemma frame_heap_wf E P st st' : frame E P st st' -> heap_wf st -> heap_wf st'.
Proof.
  intros [_ _ Hf [l Hb] _ _ _]. rewrite !heap_wf_spec, Hf, Hb.
  intros H a Ha. specialize (H a Ha). rewrite length_app. lia.
Qed.

Lemma frame_trans E P st1 st2 st3 :
  frame E P st1 st2 -> frame E P st2 st3 -> frame E P st1 st3.
Proof.
  intros F1 F2. pose proof (frame_heap_wf _ _ _ _ F1) as Hwf.
  destruct F1 as [Hs1 Hr1 Hf1 [l1 Hb1] [e1 [Hc1 He1]] Hp1 Hk1].
  destruct F2 as [Hs2 Hr2 Hf2 [l2 Hb2] [e2 [Hc2 He2]] Hp2 Hk2].
  constructor; try congruence.
  - exists (l1 ++ l2). rewrite Hb2, Hb1. now rewrite app_assoc.
  - exists (e1 ++ e2). rewrite Hc2, Hc1, app_assoc. split; [reflexivity|].
    now apply Forall_app.
  - eapply Forall2_trans; [|exact Hp1|exact Hp2].
    intros ? ? ?. apply page_frame_trans.
  - intros H pg p i r k Hp Hr Hk.
    destruct (Hk1 H pg p i r k Hp Hr Hk) as (p' & r' & Hp' & Hr' & Hk').
    exact (Hk2 (Hwf H) pg p' i r' k Hp' Hr' Hk').
Qed.

Lemma frame_log E (P : event -> Prop) e st : P e -> frame E P st (log e st).
Proof.
  intros He. constructor; simpl; try reflexivity.
  - exists []. now rewrite app_nil_r.
  - exists [e]. split; [reflexivity|]. now constructor.
  - apply Forall2_same_length_lookup. split; [reflexivity|].
    intros i x y Hx Hy. rewrite Hx in Hy. injection Hy as <-.
    apply page_frame_refl.
  - intros _ pg p i r k Hp Hr Hk. exists p, r. repeat split; auto.
Qed.

Lemma frame_weaken E (P Q : event -> Prop) st st' :
  (forall e, P e -> Q e) -> frame E P st st' -> frame E Q st st'.
Proof.
  intros HPQ [Hs Hr Hf Hb [evs [Hc He]] Hp Hk].
  constructor; auto. exists evs. split; [assumption|].
  eapply Forall_impl; eauto.
Qed.

(* ================================================================== *)
(** ** What one key materialization does *)
(* ================================================================== *)

Lemma key_materialize_cases E pg indx st :
  match key_materialize E pg indx st with
  | Ret _ st' =>
      st' = st \/
      exists p off b,
        pages st !! pg = Some p /\
        load_row st pg indx = Some (mkROW (POnPage off) 0) /\
        cell_process E (dsk p) off = (0, b) /\
        st' = store_row pg indx
                (publish_row (mkBUF (length (bufs st))
                                    (POffPage (length (bufs st)))
                                    (Z.of_nat (length b))))
                (alloc b (log (EvCellProcess pg off) st))
  | Err ret st' =>
      ret <> 0 /\
      exists p off,
        pages st !! pg = Some p /\ ret = fst (cell_process E (dsk p) off) /\
        st' = log (EvCellProcess pg off) st
  | Undef => True
  | OutOfFuel => False
  end.
Proof.
  unfold key_materialize.
  destruct (load_row st pg indx) as [[key sz]|] eqn:Hrow; [|exact I].
  unfold __wt_key_process; simpl.
  destruct (sz =? 0) eqn:Hsz; [|now left].
  apply Z.eqb_eq in Hsz. subst sz.
  unfold __wt_key_build, bind, key_build_instantiate. rewrite Hrow.
  destruct (pages st !! pg) as [p|] eqn:Hp; [|exact I]. simpl.
  destruct key as [|off|a]; simpl; try now left.
  destruct (cell_process E (dsk p) off) as [ret b] eqn:Hcell.
  destruct (ret =? 0) eqn:Hret; simpl.
  - apply Z.eqb_eq in Hret. subst ret.
    unfold key_build_publish, bind, __wt_key_build_serial_func.
    assert (Hrow' : load_row (alloc b (log (EvCellProcess pg off) st)) pg indx
                    = Some (mkROW (POnPage off) 0)) by exact Hrow.
    rewrite Hrow'.
    erewrite load_store_row_eq by exact Hrow'.
    unfold publish_row, key_build_serial_ops, __wt_key_process. simpl.
    rewrite Nat.eqb_refl. simpl. right. exists p, off, b. auto.
  - apply Z.eqb_neq in Hret. split; [assumption|].
    exists p, off. rewrite Hcell. auto.
Qed.

Lemma frame_publish E (P : event -> Prop) pg indx st p off b :
  (forall pg off, P (EvCellProcess pg off)) ->
  pages st !! pg = Some p ->
  load_row st pg indx = Some (mkROW (POnPage off) 0) ->
  cell_process E (dsk p) off = (0, b) ->
  frame E P st
    (store_row pg indx
       (publish_row (mkBUF (length (bufs st)) (POffPage (length (bufs st)))
                           (Z.of_nat (length b))))
       (alloc b (log (EvCellProcess pg off) st))).
Proof.
  intros HP Hp Hrow Hcell.
  assert (Hrow0 : page_rows p !! Z.to_nat indx = Some (mkROW (POnPage off) 0)).
  { unfold load_row in Hrow. rewrite Hp in Hrow. exact Hrow. }
  constructor; simpl; try reflexivity.
  - eauto.
  - exists [EvCellProcess pg off]. split; [reflexivity|]. constructor; auto.
  - apply Forall2_alter_r.
    + apply Forall2_same_length_lookup. split; [reflexivity|].
      intros i x y Hx Hy. rewrite Hx in Hy. injection Hy as <-.
      apply page_frame_refl.
    + intros x y _ _ Hxy. eapply page_frame_trans; [exact Hxy|].
      apply page_frame_store.
  - intros Hwf pg0 p0 i r k Hp0 Hr Hk.
    destruct (decide (pg0 = pg)) as [->|Hne].
    + rewrite Hp in Hp0. injection Hp0 as <-.
      rewrite list_lookup_alter_eq, Hp. simpl.
      destruct (decide (i = Z.to_nat indx)) as [->|Hi].
      * eexists; eexists. split; [reflexivity|]. rewrite page_rows_store.
        rewrite list_lookup_alter_eq, Hrow0. simpl. split; [reflexivity|].
        rewrite Hrow0 in Hr. injection Hr as <-.
        unfold slot_key in Hk. simpl in Hk. rewrite Hcell in Hk. simpl in Hk.
        injection Hk as <-.
        unfold publish_row, key_build_serial_ops, __wt_key_process. simpl.
        unfold slot_key, __wt_key_process. simpl.
        destruct (Z.of_nat (length b) =? 0) eqn:Hlen.
        -- apply Z.eqb_eq in Hlen. destruct b; [reflexivity|discriminate].
        -- unfold item_bytes. simpl. rewrite Hlen.
           rewrite bool_decide_eq_false_2.
           2:{ intros Hin.
               pose proof (proj1 (heap_wf_spec st) Hwf _ Hin). lia. }
           rewrite (list_lookup_middle (bufs st) [] b _ eq_refl). simpl.
           rewrite Z.leb_refl. rewrite Nat2Z.id. now rewrite firstn_all.
      * exists (page_store_row indx
                  (publish_row (mkBUF (length (bufs st))
                                      (POffPage (length (bufs st)))
                                      (Z.of_nat (length b)))) p), r.
        split; [reflexivity|]. rewrite page_rows_store.
        rewrite list_lookup_alter_ne by congruence.
        split; [exact Hr|].
        now apply slot_key_ext with (st := st) (p := p) (l := [b]).
    + rewrite list_lookup_alter_ne by congruence.
      exists p0, r. repeat split; auto.
      now apply slot_key_ext with (st := st) (p := p0) (l := [b]).
Qed.

Lemma key_materialize_frame E (P : event -> Prop) pg indx st st' :
  (forall pg off, P (EvCellProcess pg off)) ->
  key_materialize E pg indx st = Ret tt st' -> frame E P st st'.
Proof.
  intros HP H. pose proof (key_materialize_cases E pg indx st) as C.
  rewrite H in C. destruct C as [->|(p & off & b & Hp & Hrow & Hcell & ->)].
  - apply frame_refl.
  - eapply frame_publish; eauto.
Qed.

Lemma key_materialize_decoded E pg indx st p off b :
  pages st !! pg = Some p ->
  load_row st pg indx = Some (mkROW (POnPage off) 0) ->
  cell_process E (dsk p) off = (0, b) ->
  key_materialize E pg indx st =
  Ret tt (store_row pg indx
            (publish_row (mkBUF (length (bufs st))
                                (POffPage (length (bufs st)))
                                (Z.of_nat (length b))))
            (alloc b (log (EvCellProcess pg off) st))).
Proof.
  intros Hp Hrow Hcell.
  unfold key_materialize. rewrite Hrow. simpl.
  unfold __wt_key_build, bind, key_build_instantiate. rewrite Hrow, Hp.
  simpl. rewrite Hcell. simpl.
  unfold key_build_publish, bind, __wt_key_build_serial_func.
  assert (Hrow' : load_row (alloc b (log (EvCellProcess pg off) st)) pg indx
                  = Some (mkROW (POnPage off) 0)) by exact Hrow.
  rewrite Hrow'. erewrite load_store_row_eq by exact Hrow'.
  unfold publish_row, key_build_serial_ops, __wt_key_process. simpl.
  now rewrite Nat.eqb_refl.
Qed.

(** A slot whose key can be materialized is materialized, and the
    comparator then reads that key from it. *)
Lemma key_materialize_ok E (P : event -> Prop) pg indx st p r k :
  (forall pg off, P (EvCellProcess pg off)) ->
  heap_wf st ->
  pages st !! pg = Some p ->
  page_rows p !! Z.to_nat indx = Some r ->
  slot_key E st p r = Some k ->
  exists st' p' r',
    key_materialize E pg indx st = Ret tt st' /\ frame E P st st' /\
    pages st' !! pg = Some p' /\
    page_rows p' !! Z.to_nat indx = Some r' /\
    item_bytes st' p' r' = Some k.
Proof.
  intros HP Hwf Hp Hr Hk.
  assert (Hrow : load_row st pg indx = Some r).
  { unfold load_row. rewrite Hp. exact Hr. }
  destruct (__wt_key_process r) eqn:Hproc.
  - destruct r as [key sz]. unfold __wt_key_process in Hproc. simpl in Hproc.
    apply Z.eqb_eq in Hproc. subst sz.
    destruct key as [|off|a].
    + exists st, p, (mkROW PNull 0). split.
      { unfold key_materialize. rewrite Hrow. simpl.
        unfold __wt_key_build, bind, key_build_instantiate.
        now rewrite Hrow, Hp. }
      split; [apply frame_refl|]. split; [exact Hp|]. split; [exact Hr|].
      exact Hk.
    + unfold slot_key in Hk. simpl in Hk.
      destruct (cell_process E (dsk p) off) as [ret b] eqn:Hcell.
      simpl in Hk. destruct (ret =? 0) eqn:Hret; [|discriminate].
      apply Z.eqb_eq in Hret. subst ret. injection Hk as <-.
      pose proof (frame_publish E P pg indx st p off b HP Hp Hrow Hcell) as F.
      destruct (fr_keys _ _ _ _ F Hwf pg p (Z.to_nat indx) _ b Hp Hr)
        as (p' & r' & Hp' & Hr' & Hk').
      { unfold slot_key. simpl. now rewrite Hcell. }
      eexists; exists p', r'.
      split; [eapply key_materialize_decoded; eauto|].
      split; [exact F|]. split; [exact Hp'|]. split; [exact Hr'|].
      revert Hp' Hr' Hk'. simpl. rewrite list_lookup_alter_eq, Hp. simpl.
      intros [= <-]. rewrite page_rows_store, list_lookup_alter_eq, Hr. simpl.
      intros [= <-].
      unfold publish_row, key_build_serial_ops, __wt_key_process. simpl.
      unfold slot_key, __wt_key_process, item_bytes. simpl.
      destruct (Z.of_nat (length b) =? 0); auto.
    + exists st, p, (mkROW (POffPage a) 0). split.
      { unfold key_materialize. rewrite Hrow. simpl.
        unfold __wt_key_build, bind, key_build_instantiate.
        now rewrite Hrow, Hp. }
      split; [apply frame_refl|]. split; [exact Hp|]. split; [exact Hr|].
      exact Hk.
  - exists st, p, r. split.
    { unfold key_materialize. now rewrite Hrow, Hproc. }
    split; [apply frame_refl|]. split; [exact Hp|]. split; [exact Hr|].
    unfold slot_key in Hk. now rewrite Hproc in Hk.
Qed.

(* ================================================================== *)
(** ** Order facts about the comparator *)
(* ================================================================== *)

Section Order.
Variable cmp : bytes -> bytes -> Z.
Hypothesis TO : total_order cmp.

Lemma cmp_flip_le a b : cmp a b <= 0 <-> 0 <= cmp b a.
Proof.
  pose proof (cmp_antisym _ TO a b).
  pose proof (Z.sgn_spec (cmp a b)). pose proof (Z.sgn_spec (cmp b a)).
  lia.
Qed.

Lemma cmp_flip_eq a b : cmp a b = 0 <-> cmp b a = 0.
Proof.
  pose proof (cmp_antisym _ TO a b).
  pose proof (Z.sgn_spec (cmp a b)). pose proof (Z.sgn_spec (cmp b a)).
  lia.
Qed.

(** A target at or below [a] is strictly below everything above [a]. *)
Lemma cmp_le_lt x a b : cmp x a <= 0 -> cmp a b < 0 -> cmp x b < 0.
Proof.
  intros Hxa Hab.
  assert (Hxb : cmp x b <= 0) by (eapply cmp_trans; eauto; lia).
  destruct (Z.eq_dec (cmp x b) 0) as [Hz|]; [|lia].
  apply cmp_flip_eq in Hz.
  assert (cmp b a <= 0) by (eapply (cmp_trans _ TO b x a); lia).
  apply cmp_flip_le in H. lia.
Qed.

(** A target at or above [b] is strictly above everything below [b]. *)
Lemma cmp_ge_gt x a b : 0 <= cmp x b -> cmp a b < 0 -> 0 < cmp x a.
Proof.
  intros Hxb Hab. apply cmp_flip_le in Hxb.
  assert (Hax : cmp a x <= 0) by (eapply (cmp_trans _ TO a b x); lia).
  apply cmp_flip_le in Hax.
  destruct (Z.eq_dec (cmp x a) 0) as [Hz|]; [|lia].
  assert (cmp b a <= 0) by (eapply (cmp_trans _ TO b x a); lia).
  apply cmp_flip_le in H. lia.
Qed.
End Order.

Lemma sortedb_lookup E ks i j a b :
  sortedb E ks = true -> (i < j)%nat ->
  ks !! i = Some a -> ks !! j = Some b -> btree_compare E a b < 0.
Proof.
  revert i j. induction ks as [|k ks IH]; intros i j Hs Hij Ha Hb.
  - discriminate.
  - simpl in Hs. apply andb_true_iff in Hs as [Hall Hs].
    destruct j as [|j]; [lia|]. simpl in Hb.
    destruct i as [|i].
    + injection Ha as <-.
      rewrite forallb_forall in Hall.
      apply Z.ltb_lt, Hall. apply list_elem_of_In.
      eapply list_elem_of_lookup_2; eauto.
    + simpl in Ha. eapply (IH i j); eauto. lia.
Qed.

Lemma keys_of_frame E P st st' pg ks :
  frame E P st st' -> heap_wf st -> keys_of E st pg ks -> keys_of E st' pg ks.
Proof.
  intros F Hwf (p & Hp & Hks).
  destruct (Forall2_lookup_l _ _ _ _ _ (fr_pages _ _ _ _ F) Hp)
    as (p' & Hp' & Hpp).
  exists p'. split; [exact Hp'|].
  apply Forall2_same_length_lookup. split.
  - rewrite (page_frame_rows_length _ _ Hpp). eapply Forall2_length; eauto.
  - intros i r' k Hr' Hk.
    destruct (Forall2_lookup_r _ _ _ _ _ Hks Hk) as (r & Hr & Hrk).
    destruct (fr_keys _ _ _ _ F Hwf pg p i r k Hp Hr Hrk)
      as (p2 & r2 & Hp2 & Hr2 & Hk2).
    rewrite Hp' in Hp2. injection Hp2 as <-.
    rewrite Hr' in Hr2. injection Hr2 as <-. exact Hk2.
Qed.

(* ================================================================== *)
(** ** One probe of a binary search *)
(* ================================================================== *)

Lemma materialize_probe E (P : event -> Prop) pg indx st ks k :
  (forall pg off, P (EvCellProcess pg off)) ->
  heap_wf st -> keys_of E st pg ks ->
  ks !! Z.to_nat indx = Some k ->
  exists st1 p1 r1,
    WT_ERR pg (key_materialize E pg indx) st = Ret tt st1 /\
    frame E P st st1 /\
    pages st1 !! pg = Some p1 /\
    page_rows p1 !! Z.to_nat indx = Some r1 /\
    item_bytes st1 p1 r1 = Some k.
Proof.
  intros HP Hwf (p & Hp & Hks) Hk.
  destruct (Forall2_lookup_r _ _ _ _ _ Hks Hk) as (r & Hr & Hrk).
  destruct (key_materialize_ok E P pg indx st p r k HP Hwf Hp Hr Hrk)
    as (st1 & p1 & r1 & Hm & F & Hp1 & Hr1 & Hb).
  exists st1, p1, r1. unfold WT_ERR. rewrite Hm. auto.
Qed.

Lemma compare_probe E (P : event -> Prop) key pg indx st ks k :
  (forall pg off, P (EvCellProcess pg off)) -> P (EvCompare pg indx) ->
  heap_wf st -> keys_of E st pg ks ->
  ks !! Z.to_nat indx = Some k ->
  exists st1 st2,
    WT_ERR pg (key_materialize E pg indx) st = Ret tt st1 /\
    call_compare E key pg indx st1 = Ret (btree_compare E key k) st2 /\
    frame E P st st2.
Proof.
  intros HP HPc Hwf Hks Hk.
  destruct (materialize_probe E P pg indx st ks k HP Hwf Hks Hk)
    as (st1 & p1 & r1 & Hm & F & Hp1 & Hr1 & Hb).
  exists st1, (log (EvCompare pg indx) st1). split; [exact Hm|]. split.
  - unfold call_compare, load_row. rewrite Hp1. simpl. now rewrite Hr1, Hb.
  - eapply frame_trans; [exact F|]. now apply frame_log.
Qed.

(** The loop's bookkeeping: one more than half of [limit - 1] past the
    probe is the old upper end, and [limit] strictly shrinks. *)
Lemma search_step_arith base limit n :
  0 <= base -> 0 < limit -> base + limit <= n -> n < 2 ^ 32 ->
  let indx := u32 (base + Z.shiftr limit 1) in
  indx = base + limit / 2 /\ base <= indx < base + limit /\
  u32 (indx + 1) = indx + 1 /\
  Z.shiftr limit 1 = limit / 2 /\ limit / 2 < limit /\
  Z.shiftr (u32 (limit - 1)) 1 = (limit - 1) / 2 /\
  0 <= (limit - 1) / 2 < limit /\
  indx + 1 + (limit - 1) / 2 = base + limit.
Proof.
  intros Hb Hl Hn H32. simpl.
  rewrite !shiftr_half.
  assert (H2 : 0 <= limit / 2 < limit).
  { split; [apply Z.div_pos; lia|apply Z.div_lt; lia]. }
  rewrite (u32_id (base + limit / 2)) by lia.
  rewrite (u32_id (base + limit / 2 + 1)) by lia.
  rewrite (u32_id (limit - 1)) by lia.
  assert (H3 : 0 <= (limit - 1) / 2) by (apply Z.div_pos; lia).
  assert (H4 : limit / 2 + 1 + (limit - 1) / 2 = limit).
  { pose proof (Z.div_mod limit 2 ltac:(lia)).
    pose proof (Z.div_mod (limit - 1) 2 ltac:(lia)).
    pose proof (Z.mod_pos_bound limit 2 ltac:(lia)).
    pose proof (Z.mod_pos_bound (limit - 1) 2 ltac:(lia)).
    lia. }
  repeat split; lia.
Qed.

(* ================================================================== *)
(** ** The leaf's binary search *)
(* ================================================================== *)

Lemma leaf_search_unfold E fuel key pg base limit rip cmp st :
  leaf_search E (S fuel) key pg base limit rip cmp st =
  if limit =? 0 then Ret (base, rip, cmp) st
  else
    let indx := u32 (base + Z.shiftr limit 1) in
    match WT_ERR pg (key_materialize E pg indx) st with
    | Ret _ st1 =>
        match call_compare E key pg indx st1 with
        | Ret c st2 =>
            if c =? 0 then Ret (base, Some (pg, indx), c) st2
            else if c <? 0 then
              leaf_search E fuel key pg base (Z.shiftr limit 1)
                          (Some (pg, indx)) c st2
            else
              leaf_search E fuel key pg (u32 (indx + 1))
                          (Z.shiftr (u32 (limit - 1)) 1) (Some (pg, indx)) c st2
        | Err ret st2 => Err ret st2
        | Undef => Undef
        | OutOfFuel => OutOfFuel
        end
    | Err ret st1 => Err ret st1
    | Undef => Undef
    | OutOfFuel => OutOfFuel
    end.
Proof. reflexivity. Qed.

Section LeafSearch.
Variable E : ENV.
Variable key : bytes.
Variable pg : nat.
Variable ks : list bytes.
Hypothesis TO : total_order (btree_compare E).
Hypothesis Hsorted : sortedb E ks = true.
Hypothesis Hlen : Z.of_nat (length ks) < 2 ^ 32.

Let c (k : bytes) : Z := btree_compare E key k.

Let bracket := bracket E key ks.

Lemma bracket_left b e indx k :
  bracket b e -> 0 <= indx -> ks !! Z.to_nat indx = Some k -> c k < 0 ->
  bracket b indx.
Proof.
  intros [Hlo Hhi] Hi Hk Hc. split; [exact Hlo|].
  intros i k' Hge Hk'.
  destruct (Z.eq_dec i indx) as [->|Hne].
  - rewrite Hk in Hk'. now injection Hk' as <-.
  - apply (cmp_le_lt _ TO key k k'); [unfold c in Hc; lia|].
    apply (sortedb_lookup E ks (Z.to_nat indx) (Z.to_nat i)); auto. lia.
Qed.

Lemma bracket_right b e indx k :
  bracket b e -> 0 <= indx -> ks !! Z.to_nat indx = Some k -> 0 < c k ->
  bracket (indx + 1) e.
Proof.
  intros [Hlo Hhi] Hi Hk Hc. split; [|exact Hhi].
  intros i k' Hlt Hk'.
  destruct (Z.eq_dec i indx) as [->|Hne].
  - rewrite Hk in Hk'. now injection Hk' as <-.
  - apply (cmp_ge_gt _ TO key k' k); [unfold c in Hc; lia|].
    apply (sortedb_lookup E ks (Z.to_nat i) (Z.to_nat indx)); auto. lia.
Qed.

Lemma leaf_search_correct fuel :
  forall base limit rip cmp st,
    heap_wf st -> keys_of E st pg ks ->
    0 <= base -> 0 <= limit -> base + limit <= Z.of_nat (length ks) ->
    limit <= Z.of_nat fuel ->
    bracket base (base + limit) ->
    exists base' rip' cmp' st',
      leaf_search E fuel key pg base limit rip cmp st
      = Ret (base', rip', cmp') st' /\
      frame E (fun _ => True) st st' /\
      ((cmp' = 0 /\
        exists i k, rip' = Some (pg, i) /\ 0 <= i /\
                    ks !! Z.to_nat i = Some k /\ c k = 0) \/
       ((cmp' <> 0 \/ (limit = 0 /\ cmp' = cmp /\ rip' = rip)) /\
        0 <= base' <= Z.of_nat (length ks) /\ bracket base' base')).
Proof.
  induction fuel as [|fuel IH]; intros base limit rip cmp st Hwf Hks Hb Hl Hn Hf Hbr.
  - assert (limit = 0) by lia. subst limit. simpl.
    exists base, rip, cmp, st. split; [reflexivity|].
    split; [apply frame_refl|]. right. split; [now right|].
    split; [lia|]. now rewrite Z.add_0_r in Hbr.
  - rewrite leaf_search_unfold.
    destruct (limit =? 0) eqn:Hz.
    { apply Z.eqb_eq in Hz. subst limit.
      exists base, rip, cmp, st. split; [reflexivity|].
      split; [apply frame_refl|]. right. split; [now right|].
      split; [lia|]. now rewrite Z.add_0_r in Hbr. }
    apply Z.eqb_neq in Hz.
    destruct (search_step_arith base limit _ Hb ltac:(lia) Hn Hlen)
      as (Hindx & Hrange & Hnext & Hhalf & Hhalf_lt & Hhalf' & Hhalf'_rng & Hend).
    simpl. set (indx := u32 (base + Z.shiftr limit 1)) in *.
    destruct (lookup_lt_is_Some_2 ks (Z.to_nat indx) ltac:(lia)) as [k Hk].
    destruct (compare_probe E (fun _ => True) key pg indx st ks k
                (fun _ _ => I) I Hwf Hks Hk) as (st1 & st2 & Hm & Hc & F).
    rewrite Hm, Hc. fold (c k).
    pose proof (frame_heap_wf _ _ _ _ F Hwf) as Hwf2.
    pose proof (keys_of_frame _ _ _ _ _ _ F Hwf Hks) as Hks2.
    destruct (c k =? 0) eqn:Hc0.
    { apply Z.eqb_eq in Hc0.
      exists base, (Some (pg, indx)), (c k), st2.
      split; [reflexivity|]. split; [exact F|]. left.
      split; [exact Hc0|]. exists indx, k. repeat split; auto; lia. }
    apply Z.eqb_neq in Hc0.
    destruct (c k <? 0) eqn:Hneg.
    + apply Z.ltb_lt in Hneg.
      destruct (IH base (Z.shiftr limit 1) (Some (pg, indx)) (c k) st2
                  Hwf2 Hks2 Hb ltac:(lia) ltac:(lia) ltac:(lia))
        as (b' & r' & c' & st' & Hrun & F' & Hpost).
      { rewrite Hhalf, <- Hindx.
        eapply bracket_left; eauto. lia. }
      exists b', r', c', st'. split; [exact Hrun|].
      split; [eapply frame_trans; eauto|].
      destruct Hpost as [Hm'|([Hne|(_ & -> & _)] & Hrest)]; auto.
    + apply Z.ltb_ge in Hneg.
      destruct (IH (u32 (indx + 1)) (Z.shiftr (u32 (limit - 1)) 1)
                  (Some (pg, indx)) (c k) st2
                  Hwf2 Hks2 ltac:(lia) ltac:(lia) ltac:(lia) ltac:(lia))
        as (b' & r' & c' & st' & Hrun & F' & Hpost).
      { rewrite Hnext, Hhalf', Hend.
        eapply bracket_right; eauto; lia. }
      exists b', r', c', st'. split; [exact Hrun|].
      split; [eapply frame_trans; eauto|].
      destruct Hpost as [Hm'|([Hne|(_ & -> & _)] & Hrest)]; auto.
Qed.
End LeafSearch.

(* ================================================================== *)
(** ** The binary search of an internal page *)
(* ================================================================== *)

Lemma int_search_unfold E fuel key pg base limit rref cmp st :
  int_search E (S fuel) key pg base limit rref cmp st =
  if limit =? 0 then Ret (base, rref, cmp) st
  else
    let indx := u32 (base + Z.shiftr limit 1) in
    match WT_ERR pg (key_materialize E pg indx) st with
    | Ret _ st1 =>
        if negb (indx =? 0) then
          match call_compare E key pg indx st1 with
          | Ret c st2 =>
              if c =? 0 then Ret (base, Some (pg, indx), c) st2
              else if c <? 0 then
                int_search E fuel key pg base (Z.shiftr limit 1)
                           (Some (pg, indx)) c st2
              else
                int_search E fuel key pg (u32 (indx + 1))
                           (Z.shiftr (u32 (limit - 1)) 1) (Some (pg, indx))
                           c st2
          | Err ret st2 => Err ret st2
          | Undef => Undef
          | OutOfFuel => OutOfFuel
          end
        else
          int_search E fuel key pg (u32 (indx + 1))
                     (Z.shiftr (u32 (limit - 1)) 1) (Some (pg, indx)) cmp st1
    | Err ret st1 => Err ret st1
    | Undef => Undef
    | OutOfFuel => OutOfFuel
    end.
Proof. reflexivity. Qed.

Lemma int_search_done E fuel key pg base rref cmp st :
  int_search E fuel key pg base 0 rref cmp st = Ret (base, rref, cmp) st.
Proof. destruct fuel; reflexivity. Qed.

Section IntSearch.
Variable E : ENV.
Variable key : bytes.
Variable pg : nat.
Variable ks : list bytes.
Hypothesis TO : total_order (btree_compare E).
Hypothesis Hsorted : sortedb E (tail ks) = true.
Hypothesis Hlen : Z.of_nat (length ks) < 2 ^ 32.

Let c (k : bytes) : Z := btree_compare E key k.
(** Index 0 is outside the bracket: the keys from index 1 on are the
    ones compared. *)
Let bracket1 (b e : Z) := bracket E key (tail ks) (b - 1) (e - 1).

Lemma tail_lookup_Z i :
  1 <= i -> tail ks !! Z.to_nat (i - 1) = ks !! Z.to_nat i.
Proof.
  intros Hi. rewrite lookup_tail. f_equal. lia.
Qed.

Lemma int_search_correct fuel :
  forall base limit rref cmp st,
    heap_wf st -> keys_of E st pg ks ->
    0 <= base -> 0 <= limit ->
    1 <= base + limit <= Z.of_nat (length ks) ->
    limit <= Z.of_nat fuel ->
    bracket1 base (base + limit) ->
    exists base' rref' cmp' st',
      int_search E fuel key pg base limit rref cmp st
      = Ret (base', rref', cmp') st' /\
      frame E not_index0 st st' /\
      ((cmp' = 0 /\
        exists i k, rref' = Some (pg, i) /\ 1 <= i /\
                    ks !! Z.to_nat i = Some k /\ c k = 0) \/
       ((cmp' <> 0 \/ rref' = Some (pg, base' - 1) \/
         (limit = 0 /\ cmp' = cmp /\ rref' = rref)) /\
        1 <= base' <= Z.of_nat (length ks) /\ bracket1 base' base')).
Proof.
  induction fuel as [|fuel IH];
    intros base limit rref cmp st Hwf Hks Hb Hl Hn Hf Hbr.
  - assert (limit = 0) by lia. subst limit. simpl.
    exists base, rref, cmp, st. split; [reflexivity|].
    split; [apply frame_refl|]. right. split; [auto|].
    split; [lia|]. now rewrite Z.add_0_r in Hbr.
  - rewrite int_search_unfold.
    destruct (limit =? 0) eqn:Hz.
    { apply Z.eqb_eq in Hz. subst limit.
      exists base, rref, cmp, st. split; [reflexivity|].
      split; [apply frame_refl|]. right. split; [auto|].
      split; [lia|]. now rewrite Z.add_0_r in Hbr. }
    apply Z.eqb_neq in Hz.
    destruct (search_step_arith base limit _ Hb ltac:(lia) (proj2 Hn) Hlen)
      as (Hindx & Hrange & Hnext & Hhalf & Hhalf_lt & Hhalf' & Hhalf'_rng & Hend).
    simpl. set (indx := u32 (base + Z.shiftr limit 1)) in *.
    destruct (lookup_lt_is_Some_2 ks (Z.to_nat indx) ltac:(lia)) as [k Hk].
    destruct (indx =? 0) eqn:Hi0; simpl.
    + (* index 0: materialized, never compared *)
      apply Z.eqb_eq in Hi0.
      destruct (materialize_probe E not_index0 pg indx st ks k
                  (fun _ _ => I) Hwf Hks Hk)
        as (st1 & p1 & r1 & Hm & F & _).
      rewrite Hm.
      assert (Hlim : Z.shiftr (u32 (limit - 1)) 1 = 0).
      { rewrite Hhalf'. apply Z.div_small.
        destruct (Z.lt_ge_cases limit 2) as [|Hge]; [lia|].
        assert (1 <= limit / 2) by (apply Z.div_le_lower_bound; lia).
        lia. }
      rewrite Hlim, int_search_done, Hnext.
      exists (indx + 1), (Some (pg, indx)), cmp, st1.
      split; [reflexivity|]. split; [exact F|]. right.
      split; [right; left; do 2 f_equal; lia|]. split; [lia|].
      destruct Hbr as [Hlo Hhi]. split.
      * intros i k' Hi. lia.
      * intros i k' Hi. apply Hhi. lia.
    + apply Z.eqb_neq in Hi0.
      destruct (compare_probe E not_index0 key pg indx st ks k
                  (fun _ _ => I) Hi0 Hwf Hks Hk) as (st1 & st2 & Hm & Hc & F).
      rewrite Hm, Hc. fold (c k).
      pose proof (frame_heap_wf _ _ _ _ F Hwf) as Hwf2.
      pose proof (keys_of_frame _ _ _ _ _ _ F Hwf Hks) as Hks2.
      assert (Hk1 : tail ks !! Z.to_nat (indx - 1) = Some k).
      { rewrite tail_lookup_Z by lia. exact Hk. }
      destruct (c k =? 0) eqn:Hc0.
      { apply Z.eqb_eq in Hc0.
        exists base, (Some (pg, indx)), (c k), st2.
        split; [reflexivity|]. split; [exact F|]. left.
        split; [exact Hc0|]. exists indx, k. repeat split; auto; lia. }
      apply Z.eqb_neq in Hc0.
      destruct (c k <? 0) eqn:Hneg.
      * apply Z.ltb_lt in Hneg.
        destruct (IH base (Z.shiftr limit 1) (Some (pg, indx)) (c k) st2
                    Hwf2 Hks2 Hb ltac:(lia) ltac:(lia) ltac:(lia))
          as (b' & r' & c' & st' & Hrun & F' & Hpost).
        { unfold bracket1. rewrite Hhalf, <- Hindx.
          apply (bracket_left E key (tail ks) TO Hsorted
                   (base - 1) (base + limit - 1) (indx - 1) k);
            [exact Hbr|lia|exact Hk1|exact Hneg]. }
        exists b', r', c', st'. split; [exact Hrun|].
        split; [eapply frame_trans; eauto|].
        destruct Hpost as [Hm'|([Hne|[Hr|(_ & -> & _)]] & Hrest)]; auto.
      * apply Z.ltb_ge in Hneg.
        destruct (IH (u32 (indx + 1)) (Z.shiftr (u32 (limit - 1)) 1)
                    (Some (pg, indx)) (c k) st2
                    Hwf2 Hks2 ltac:(lia) ltac:(lia) ltac:(lia) ltac:(lia))
          as (b' & r' & c' & st' & Hrun & F' & Hpost).
        { unfold bracket1. rewrite Hnext, Hhalf', Hend.
          replace (indx + 1 - 1) with (indx - 1 + 1) by lia.
          apply (bracket_right E key (tail ks) TO Hsorted
                   (base - 1) (base + limit - 1) (indx - 1) k);
            [exact Hbr|lia|exact Hk1|unfold c in *; lia]. }
        exists b', r', c', st'. split; [exact Hrun|].
        split; [eapply frame_trans; eauto|].
        destruct Hpost as [Hm'|([Hne|[Hr|(_ & -> & _)]] & Hrest)]; auto.
Qed.
End IntSearch.

(* ================================================================== *)
(** ** The linear-scan references *)
(* ================================================================== *)

Lemma page_keys_of E st pg ks : page_keys E st pg = Some ks -> keys_of E st pg ks.
Proof.
  unfold page_keys, keys_of.
  destruct (pages st !! pg) as [p|]; [|discriminate]. simpl.
  intros H. exists p. split; [reflexivity|]. now apply mapM_Some_1.
Qed.

Lemma keys_of_length E st pg ks p :
  keys_of E st pg ks -> pages st !! pg = Some p ->
  indx_count p = Z.of_nat (length ks).
Proof.
  intros (p' & Hp' & H) Hp. rewrite Hp in Hp'. injection Hp' as <-.
  unfold indx_count. f_equal. eapply Forall2_length; eauto.
Qed.

Lemma linear_scan_spec E key ks :
  forall off j,
    (forall i k, (i < j)%nat -> ks !! i = Some k -> 0 < btree_compare E key k) ->
    match ks !! j with
    | Some k => btree_compare E key k <= 0
    | None => j = length ks
    end ->
    linear_scan E key ks off =
    match ks !! j with
    | Some k => (btree_compare E key k =? 0, off + Z.of_nat j)
    | None => (false, off + Z.of_nat j)
    end.
Proof.
  induction ks as [|k0 ks IH]; intros off j Hlo Hj.
  - simpl in Hj. subst j. simpl. f_equal. lia.
  - destruct j as [|j].
    + simpl in *. rewrite Z.add_0_r.
      destruct (btree_compare E key k0 =? 0) eqn:H0; [reflexivity|].
      apply Z.eqb_neq in H0.
      destruct (btree_compare E key k0 <? 0) eqn:H1; [reflexivity|].
      apply Z.ltb_ge in H1. lia.
    + pose proof (Hlo 0%nat k0 ltac:(lia) eq_refl) as Hk0.
      simpl.
      destruct (btree_compare E key k0 =? 0) eqn:H0;
        [apply Z.eqb_eq in H0; lia|].
      destruct (btree_compare E key k0 <? 0) eqn:H1;
        [apply Z.ltb_lt in H1; lia|].
      rewrite (IH (off + 1) j).
      * destruct (ks !! j); f_equal; lia.
      * intros i k Hi Hk. apply (Hlo (S i) k); [lia|exact Hk].
      * simpl in Hj. destruct (ks !! j); [exact Hj|lia].
Qed.

Lemma first_greater_spec E key ks :
  forall off j,
    (forall i k, (i < j)%nat -> ks !! i = Some k -> 0 <= btree_compare E key k) ->
    match ks !! j with
    | Some k => btree_compare E key k < 0
    | None => j = length ks
    end ->
    first_greater E key ks off = off + Z.of_nat j.
Proof.
  induction ks as [|k0 ks IH]; intros off j Hlo Hj.
  - simpl in Hj. subst j. simpl. lia.
  - destruct j as [|j].
    + simpl in *. apply Z.ltb_lt in Hj. rewrite Hj. lia.
    + pose proof (Hlo 0%nat k0 ltac:(lia) eq_refl) as Hk0.
      simpl. destruct (btree_compare E key k0 <? 0) eqn:H1;
        [apply Z.ltb_lt in H1; lia|].
      rewrite (IH (off + 1) j); [lia| |].
      * intros i k Hi Hk. apply (Hlo (S i) k); [lia|exact Hk].
      * simpl in Hj. destruct (ks !! j); [exact Hj|lia].
Qed.

(** On a non-empty sorted leaf (or when [cmp] comes in non-zero) the
    binary search reports what the linear scan reports. *)
Lemma leaf_search_linear_scan E key pg page ks rip cmp st :
  total_order (btree_compare E) ->
  heap_wf st = true ->
  pages st !! pg = Some page ->
  page_keys E st pg = Some ks ->
  sortedb E ks = true ->
  indx_count page < 2 ^ 32 ->
  0 < indx_count page \/ cmp <> 0 ->
  exists base rip' cmp' st',
    leaf_search E (search_fuel (indx_count page)) key pg 0 (indx_count page)
                rip cmp st = Ret (base, rip', cmp') st' /\
    leaf_outcome pg (base, rip', cmp') = Some (linear_scan E key ks 0) /\
    (cmp' <> 0 -> 0 <= base <= indx_count page) /\
    frame E (fun _ => True) st st'.
Proof.
  intros TO Hwf Hp Hpk Hs H32 Hne.
  apply Is_true_true in Hwf. apply page_keys_of in Hpk.
  pose proof (keys_of_length _ _ _ _ _ Hpk Hp) as Hn. rewrite Hn in *.
  destruct (leaf_search_correct E key pg ks TO Hs H32
              (search_fuel (Z.of_nat (length ks))) 0 (Z.of_nat (length ks))
              rip cmp st Hwf Hpk ltac:(lia) ltac:(lia) ltac:(lia)
              ltac:(unfold search_fuel; lia))
    as (b' & r' & c' & st' & Hrun & F & Hpost).
  { split; [intros; lia|]. intros i k Hi Hk.
    apply lookup_lt_Some in Hk. lia. }
  exists b', r', c', st'. split; [exact Hrun|].
  destruct Hpost as [(-> & i & k & -> & Hi & Hk & Hc)
                    |(Hcmp & Hb & Hlo & Hhi)].
  - pose proof (lookup_lt_Some _ _ _ Hk) as Hlt.
    unfold leaf_outcome, WT_ROW_INDX_SLOT. simpl. rewrite Nat.eqb_refl. simpl.
    rewrite (linear_scan_spec E key ks 0 (Z.to_nat i)).
    + rewrite Hk, Hc. simpl. split; [do 2 f_equal; lia|].
      split; [intros; lia|exact F].
    + intros i' k' Hi' Hk'.
      apply (cmp_ge_gt _ TO key k' k); [lia|].
      eapply sortedb_lookup; eauto.
    + rewrite Hk. lia.
  - assert (Hc' : c' <> 0) by (destruct Hcmp as [|(? & -> & _)]; [auto|lia]).
    unfold leaf_outcome. apply Z.eqb_neq in Hc'. rewrite Hc'.
    rewrite (linear_scan_spec E key ks 0 (Z.to_nat b')).
    + split; [|split; [intros; lia|exact F]].
      destruct (ks !! Z.to_nat b') as [k|] eqn:Hk.
      * specialize (Hhi b' k ltac:(lia) Hk).
        replace (btree_compare E key k =? 0) with false
          by (symmetry; apply Z.eqb_neq; lia).
        do 2 f_equal. lia.
      * do 2 f_equal. lia.
    + intros i k Hi Hk. apply (Hlo (Z.of_nat i) k); [lia|].
      now rewrite Nat2Z.id.
    + destruct (ks !! Z.to_nat b') as [k|] eqn:Hk.
      * specialize (Hhi b' k ltac:(lia) Hk). lia.
      * apply lookup_ge_None in Hk. lia.
Qed.

(* ================================================================== *)
(** ** The descent slot of an internal page *)
(* ================================================================== *)

Lemma tail_length {A} (l : list A) : length (tail l) = Nat.pred (length l).
Proof. now destruct l. Qed.

Section DescentSlot.
Variable E : ENV.
Variable key : bytes.
Variable ks : list bytes.
Hypothesis TO : total_order (btree_compare E).
Hypothesis Hsorted : sortedb E (tail ks) = true.

Lemma descent_slot_match i k :
  1 <= i -> ks !! Z.to_nat i = Some k -> btree_compare E key k = 0 ->
  descent_slot E key ks = i.
Proof.
  intros Hi Hk Hc. unfold descent_slot.
  assert (Hk1 : tail ks !! Z.to_nat (i - 1) = Some k).
  { rewrite lookup_tail. rewrite <- Hk. f_equal. lia. }
  rewrite (first_greater_spec E key (tail ks) 1 (S (Z.to_nat (i - 1)))).
  - lia.
  - intros i' k' Hi' Hk'.
    destruct (decide (i' = Z.to_nat (i - 1))) as [->|Hne].
    + rewrite Hk1 in Hk'. injection Hk' as <-. lia.
    + apply Z.lt_le_incl, (cmp_ge_gt _ TO key k' k); [lia|].
      apply (sortedb_lookup E (tail ks) i' (Z.to_nat (i - 1))); auto. lia.
  - destruct (tail ks !! S (Z.to_nat (i - 1))) as [k'|] eqn:Hk'.
    + apply (cmp_le_lt _ TO key k k'); [lia|].
      apply (sortedb_lookup E (tail ks) (Z.to_nat (i - 1))
               (S (Z.to_nat (i - 1)))); auto.
    + apply lookup_ge_None in Hk'. apply lookup_lt_Some in Hk1. lia.
Qed.

Lemma descent_slot_bracket b :
  1 <= b <= Z.of_nat (length ks) ->
  bracket E key (tail ks) (b - 1) (b - 1) ->
  descent_slot E key ks = b - 1.
Proof.
  intros Hb [Hlo Hhi]. unfold descent_slot.
  rewrite (first_greater_spec E key (tail ks) 1 (Z.to_nat (b - 1))).
  - lia.
  - intros i k Hi Hk. apply Z.lt_le_incl, (Hlo (Z.of_nat i) k); [lia|].
    now rewrite Nat2Z.id.
  - destruct (tail ks !! Z.to_nat (b - 1)) as [k|] eqn:Hk.
    + apply (Hhi (b - 1) k); [lia|exact Hk].
    + apply lookup_ge_None in Hk. rewrite tail_length in *. lia.
Qed.

Lemma descent_slot_smallest :
  (forall k, k ∈ tail ks -> btree_compare E key k < 0) ->
  descent_slot E key ks = 0.
Proof.
  intros Hall. unfold descent_slot.
  rewrite (first_greater_spec E key (tail ks) 1 0); [lia| |].
  - intros i k Hi. lia.
  - destruct (tail ks !! 0%nat) as [k|] eqn:Hk.
    + apply Hall. eapply list_elem_of_lookup_2; eauto.
    + apply lookup_ge_None in Hk. lia.
Qed.
End DescentSlot.

(** C2.  On a non-empty internal page whose keys from index 1 on are
    sorted, the binary search followed by the slot choice picks the slot
    one before the smallest index whose key is greater than the target
    (index 0 counting as smaller than every target), without ever calling
    the comparator on index 0.  An exact match at index [i] picks [i], and
    a target smaller than every key from index 1 on picks slot 0. *)
Theorem int_page_descent_slot E key pg page ks rref cmp st :
  total_order (btree_compare E) ->
  heap_wf st = true ->
  pages st !! pg = Some page ->
  page_keys E st pg = Some ks ->
  0 < indx_count page < 2 ^ 32 ->
  sortedb E (tail ks) = true ->
  exists cmp' st' evs,
    int_select E key pg (indx_count page) rref cmp st
    = Ret (Some (pg, descent_slot E key ks), cmp') st' /\
    calls st' = calls st ++ evs /\
    (forall p, EvCompare p 0 ∉ evs) /\
    0 <= descent_slot E key ks < indx_count page /\
    (forall i k, 1 <= i -> ks !! Z.to_nat i = Some k ->
                 btree_compare E key k = 0 -> descent_slot E key ks = i) /\
    ((forall k, k ∈ tail ks -> btree_compare E key k < 0) ->
     descent_slot E key ks = 0).
Proof.
  intros TO Hwf Hp Hpk Hn Hs.
  apply Is_true_true in Hwf. apply page_keys_of in Hpk.
  pose proof (keys_of_length _ _ _ _ _ Hpk Hp) as Hlen. rewrite Hlen in *.
  destruct (int_search_correct E key pg ks TO Hs ltac:(lia)
              (search_fuel (Z.of_nat (length ks))) 0 (Z.of_nat (length ks))
              rref cmp st Hwf Hpk ltac:(lia) ltac:(lia) ltac:(lia)
              ltac:(unfold search_fuel; lia))
    as (b' & r' & c' & st' & Hrun & F & Hpost).
  { split; [intros; lia|]. intros i k Hi Hk.
    apply lookup_lt_Some in Hk. rewrite tail_length in Hk. lia. }
  destruct (fr_calls _ _ _ _ F) as (evs & Hcalls & Hevs).
  assert (Hsel : exists slot,
             0 <= slot < Z.of_nat (length ks) /\
             descent_slot E key ks = slot /\
             int_select E key pg (Z.of_nat (length ks)) rref cmp st
             = Ret (Some (pg, slot), c') st').
  { unfold int_select. rewrite Hrun.
    destruct Hpost as [(-> & i & k & -> & Hi & Hk & Hc)
                      |(Hcmp & Hb & Hbr)].
    - exists i. pose proof (lookup_lt_Some _ _ _ Hk).
      split; [lia|]. split; [|reflexivity].
      eapply descent_slot_match; eauto.
    - exists (b' - 1). split; [lia|].
      split; [now apply descent_slot_bracket|].
      destruct (c' =? 0) eqn:Hc0; simpl.
      + apply Z.eqb_eq in Hc0.
        destruct Hcmp as [?|[->|(? & _)]]; [lia|reflexivity|lia].
      + rewrite u32_id by lia. reflexivity. }
  destruct Hsel as (slot & Hrange & Hslot & Hret).
  exists c', st', evs. rewrite Hslot at 1 2 3.
  split; [exact Hret|]. split; [exact Hcalls|].
  split.
  { intros p Hin. rewrite Forall_forall in Hevs.
    specialize (Hevs _ Hin). simpl in Hevs. lia. }
  split; [exact Hrange|]. split.
  - intros i k. now apply descent_slot_match.
  - now apply descent_slot_smallest.
Qed.

(* ================================================================== *)
(** ** The sample comparator is a total order *)
(* ================================================================== *)

Lemma lex_compare_antisym a :
  forall b, Z.sgn (lex_compare a b) = - Z.sgn (lex_compare b a).
Proof.
  induction a as [|x a IH]; intros [|y b]; simpl; try reflexivity.
  rewrite (N.compare_antisym (Byte.to_N x) (Byte.to_N y)).
  destruct (Byte.to_N x ?= Byte.to_N y)%N; simpl; auto.
Qed.

Lemma lex_compare_trans a :
  forall b c,
    lex_compare a b <= 0 -> lex_compare b c <= 0 -> lex_compare a c <= 0.
Proof.
  induction a as [|x a IH]; intros [|y b] [|z c]; simpl; try lia.
  destruct (N.compare_spec (Byte.to_N x) (Byte.to_N y)) as [Hxy|Hxy|Hxy];
    destruct (N.compare_spec (Byte.to_N y) (Byte.to_N z)) as [Hyz|Hyz|Hyz];
    destruct (N.compare_spec (Byte.to_N x) (Byte.to_N z)) as [Hxz|Hxz|Hxz];
    try lia; auto.
  apply IH.
Qed.

Lemma lex_compare_total_order : total_order lex_compare.
Proof.
  constructor; [apply lex_compare_antisym|apply lex_compare_trans].
Qed.

Lemma int_page_descent_slot_witness :
  exists cmp' st' evs,
    int_select sample_env ["e"%byte] 0 3 None 0 sample_state
    = Ret (Some (0%nat, 1), cmp') st' /\
    calls st' = calls sample_state ++ evs /\
    (forall p, EvCompare p 0 ∉ evs).
Proof.
  destruct (int_page_descent_slot sample_env ["e"%byte] 0 sample_root
              [["m"]; ["d"]; ["h"]]%byte None 0 sample_state
              lex_compare_total_order eq_refl eq_refl eq_refl
              ltac:(vm_compute; split; reflexivity) eq_refl)
    as (cmp' & st' & evs & Hsel & Hcalls & Hno0 & _).
  exists cmp', st', evs. auto.
Defined.

(* ================================================================== *)
(** ** Every exit of the binary searches *)
(* ================================================================== *)

Lemma materialize_exits E pg indx st :
  match WT_ERR pg (key_materialize E pg indx) st with
  | Ret _ st' => frame E not_index0 st st'
  | Err ret st' => collab_error E ret /\ err_exit E pg st st'
  | Undef => True
  | OutOfFuel => False
  end.
Proof.
  unfold WT_ERR.
  pose proof (key_materialize_cases E pg indx st) as C.
  pose proof (key_materialize_frame E not_index0 pg indx st) as F.
  destruct (key_materialize E pg indx st) as [[] st'|ret st'| |]; auto.
  - apply F; [intros; exact I|reflexivity].
  - destruct C as (Hret & p & off & Hp & -> & ->). split.
    + split; [exact Hret|]. right. eauto.
    + exists (log (EvCellProcess pg off) st). split; [|reflexivity].
      now apply frame_log.
Qed.

Lemma compare_exits E key pg indx st :
  match call_compare E key pg indx st with
  | Ret _ st' => st' = log (EvCompare pg indx) st
  | Err _ _ => False
  | Undef => True
  | OutOfFuel => False
  end.
Proof.
  unfold call_compare.
  destruct (pages st !! pg); [|exact I].
  destruct (load_row st pg indx); [|exact I].
  destruct (item_bytes st w w0); [reflexivity|exact I].
Qed.

Lemma err_exit_frame E (P : event -> Prop) pg st st1 st' :
  frame E P st st1 -> err_exit E pg st1 st' -> err_exit E pg st st'.
Proof.
  intros F (st2 & F2 & ->). exists st2. split; [|reflexivity].
  eapply frame_trans; [|exact F2].
  eapply frame_weaken; [|exact F]. auto.
Qed.

Lemma leaf_search_exits E key pg fuel :
  forall base limit rip cmp st,
    match leaf_search E fuel key pg base limit rip cmp st with
    | Ret (base', _, _) st' =>
        frame E (fun _ => True) st st' /\
        (forall n, 0 <= base -> 0 <= limit -> base + limit <= n ->
                   n < 2 ^ 32 -> 0 <= base' <= n)
    | Err ret st' => collab_error E ret /\ err_exit E pg st st'
    | Undef | OutOfFuel => True
    end.
Proof.
  induction fuel as [|fuel IH]; intros base limit rip cmp st.
  - simpl. destruct (limit =? 0); [|exact I].
    split; [apply frame_refl|]. intros; lia.
  - rewrite leaf_search_unfold.
    destruct (limit =? 0) eqn:Hz.
    { split; [apply frame_refl|]. intros; lia. }
    apply Z.eqb_neq in Hz. simpl.
    set (indx := u32 (base + Z.shiftr limit 1)).
    pose proof (materialize_exits E pg indx st) as HM.
    destruct (WT_ERR pg (key_materialize E pg indx) st)
      as [[] st1|ret st1| |]; auto.
    apply (frame_weaken _ _ (fun _ => True)) in HM; [|auto].
    pose proof (compare_exits E key pg indx st1) as HC.
    destruct (call_compare E key pg indx st1) as [c st2|ret st2| |];
      auto; [|contradiction].
    subst st2.
    assert (F2 : frame E (fun _ => True) st (log (EvCompare pg indx) st1)).
    { eapply frame_trans; [exact HM|]. now apply frame_log. }
    assert (Harith : forall n, 0 <= base -> 0 <= limit -> base + limit <= n ->
                        n < 2 ^ 32 ->
                        base <= indx < base + limit /\
                        0 <= Z.shiftr limit 1 /\
                        base + Z.shiftr limit 1 <= n /\
                        u32 (indx + 1) = indx + 1 /\
                        0 <= Z.shiftr (u32 (limit - 1)) 1 /\
                        indx + 1 + Z.shiftr (u32 (limit - 1)) 1 <= n).
    { intros n Hb Hl Hn H32.
      destruct (search_step_arith base limit n Hb ltac:(lia) Hn H32)
        as (Hi & Hr & Hnx & Hh & Hhl & Hh' & Hhr & He).
      fold indx in Hi, Hr, Hnx, He. rewrite Hh, Hh'. lia. }
    destruct (c =? 0).
    { split; [exact F2|]. intros; lia. }
    destruct (c <? 0).
    + specialize (IH base (Z.shiftr limit 1) (Some (pg, indx)) c
                     (log (EvCompare pg indx) st1)).
      destruct (leaf_search E fuel key pg base (Z.shiftr limit 1)
                  (Some (pg, indx)) c (log (EvCompare pg indx) st1))
        as [[[b' r'] c'] st'|ret st'| |]; auto.
      * destruct IH as [F' Hrange]. split; [eapply frame_trans; eauto|].
        intros n Hb Hl Hn H32.
        destruct (Harith n Hb Hl Hn H32) as (? & ? & ? & ? & ? & ?).
        apply Hrange; lia.
      * destruct IH as [Hce Hex]. split; [exact Hce|].
        eapply err_exit_frame; eauto.
    + specialize (IH (u32 (indx + 1)) (Z.shiftr (u32 (limit - 1)) 1)
                     (Some (pg, indx)) c (log (EvCompare pg indx) st1)).
      destruct (leaf_search E fuel key pg (u32 (indx + 1))
                  (Z.shiftr (u32 (limit - 1)) 1)
                  (Some (pg, indx)) c (log (EvCompare pg indx) st1))
        as [[[b' r'] c'] st'|ret st'| |]; auto.
      * destruct IH as [F' Hrange]. split; [eapply frame_trans; eauto|].
        intros n Hb Hl Hn H32.
        destruct (Harith n Hb Hl Hn H32) as (? & ? & ? & Hnx & ? & ?).
        apply Hrange; rewrite ?Hnx; lia.
      * destruct IH as [Hce Hex]. split; [exact Hce|].
        eapply err_exit_frame; eauto.
Qed.

Lemma int_search_exits E key pg fuel :
  forall base limit rref cmp st,
    match int_search E fuel key pg base limit rref cmp st with
    | Ret _ st' => frame E (fun _ => True) st st'
    | Err ret st' => collab_error E ret /\ err_exit E pg st st'
    | Undef | OutOfFuel => True
    end.
Proof.
  induction fuel as [|fuel IH]; intros base limit rref cmp st.
  - simpl. destruct (limit =? 0); [apply frame_refl|exact I].
  - rewrite int_search_unfold.
    destruct (limit =? 0); [apply frame_refl|]. simpl.
    set (indx := u32 (base + Z.shiftr limit 1)).
    pose proof (materialize_exits E pg indx st) as HM.
    destruct (WT_ERR pg (key_materialize E pg indx) st)
      as [[] st1|ret st1| |]; auto.
    apply (frame_weaken _ _ (fun _ => True)) in HM; [|auto].
    assert (Hrec : forall b l c st2,
               frame E (fun _ => True) st st2 ->
               match int_search E fuel key pg b l (Some (pg, indx)) c st2 with
               | Ret _ st' => frame E (fun _ => True) st st'
               | Err ret st' => collab_error E ret /\ err_exit E pg st st'
               | Undef | OutOfFuel => True
               end).
    { intros b l c st2 F2. specialize (IH b l (Some (pg, indx)) c st2).
      destruct (int_search E fuel key pg b l (Some (pg, indx)) c st2)
        as [r st'|ret st'| |]; auto.
      - eapply frame_trans; eauto.
      - destruct IH as [Hce Hex]. split; [exact Hce|].
        eapply err_exit_frame; eauto. }
    destruct (negb (indx =? 0)); [|now apply Hrec].
    pose proof (compare_exits E key pg indx st1) as HC.
    destruct (call_compare E key pg indx st1) as [c st2|ret st2| |];
      auto; [|contradiction].
    subst st2.
    assert (F2 : frame E (fun _ => True) st (log (EvCompare pg indx) st1)).
    { eapply frame_trans; [exact HM|]. now apply frame_log. }
    destruct (c =? 0); [exact F2|].
    destruct (c <? 0); now apply Hrec.
Qed.

Lemma int_select_exits E key pg n rref cmp st :
  match int_select E key pg n rref cmp st with
  | Ret _ st' => frame E (fun _ => True) st st'
  | Err ret st' => collab_error E ret /\ err_exit E pg st st'
  | Undef | OutOfFuel => True
  end.
Proof.
  unfold int_select.
  pose proof (int_search_exits E key pg (search_fuel n) 0 n rref cmp st) as H.
  destruct (int_search E (search_fuel n) key pg 0 n rref cmp st)
    as [[[b r] c] st'|ret st'| |]; auto.
Qed.

(** [limit] at least halves on every iteration, so [search_fuel] is
    never used up. *)
Lemma search_limit_shrinks limit fuel :
  0 <= limit <= Z.of_nat (S fuel) -> limit <> 0 ->
  0 <= Z.shiftr limit 1 <= Z.of_nat fuel /\
  0 <= Z.shiftr (u32 (limit - 1)) 1 <= Z.of_nat fuel.
Proof.
  intros Hl Hz. rewrite !shiftr_half.
  assert (0 <= limit / 2 < limit)
    by (split; [apply Z.div_pos; lia|apply Z.div_lt; lia]).
  assert (0 <= u32 (limit - 1) <= limit - 1).
  { unfold u32. split; [apply Z.mod_pos_bound; lia|].
    apply Z.mod_le; lia. }
  assert (0 <= u32 (limit - 1) / 2 <= u32 (limit - 1)).
  { split; [apply Z.div_pos; lia|].
    apply Z.div_le_upper_bound; lia. }
  lia.
Qed.

Lemma leaf_search_fuel E key pg fuel :
  forall base limit rip cmp st,
    0 <= limit <= Z.of_nat fuel ->
    leaf_search E fuel key pg base limit rip cmp st <> OutOfFuel.
Proof.
  induction fuel as [|fuel IH]; intros base limit rip cmp st Hl.
  - assert (limit = 0) by lia. subst. discriminate.
  - rewrite leaf_search_unfold.
    destruct (limit =? 0) eqn:Hz; [discriminate|].
    apply Z.eqb_neq in Hz.
    destruct (search_limit_shrinks limit fuel Hl Hz) as [H1 H2]. simpl.
    set (indx := u32 (base + Z.shiftr limit 1)).
    pose proof (materialize_exits E pg indx st) as HM.
    destruct (WT_ERR pg (key_materialize E pg indx) st)
      as [[] st1|ret st1| |]; try discriminate; [|contradiction].
    pose proof (compare_exits E key pg indx st1) as HC.
    destruct (call_compare E key pg indx st1) as [c st2|ret st2| |];
      try discriminate; [|contradiction].
    destruct (c =? 0); [discriminate|].
    destruct (c <? 0); now apply IH.
Qed.

Lemma int_search_fuel E key pg fuel :
  forall base limit rref cmp st,
    0 <= limit <= Z.of_nat fuel ->
    int_search E fuel key pg base limit rref cmp st <> OutOfFuel.
Proof.
  induction fuel as [|fuel IH]; intros base limit rref cmp st Hl.
  - assert (limit = 0) by lia. subst. discriminate.
  - rewrite int_search_unfold.
    destruct (limit =? 0) eqn:Hz; [discriminate|].
    apply Z.eqb_neq in Hz.
    destruct (search_limit_shrinks limit fuel Hl Hz) as [H1 H2]. simpl.
    set (indx := u32 (base + Z.shiftr limit 1)).
    pose proof (materialize_exits E pg indx st) as HM.
    destruct (WT_ERR pg (key_materialize E pg indx) st)
      as [[] st1|ret st1| |]; try discriminate; [|contradiction].
    destruct (negb (indx =? 0)); [|now apply IH].
    pose proof (compare_exits E key pg indx st1) as HC.
    destruct (call_compare E key pg indx st1) as [c st2|ret st2| |];
      try discriminate; [|contradiction].
    destruct (c =? 0); [discriminate|].
    destruct (c <? 0); now apply IH.
Qed.

(* ================================================================== *)
(** ** Hazard references along the descent *)
(* ================================================================== *)

Lemma page_frame_refs p p' :
  page_frame p p' ->
  match page_u p', page_u p with
  | row_int t', row_int t => rref_ref <$> t' = rref_ref <$> t
  | row_leaf d' u' i', row_leaf d u i => u' = u /\ i' = i
  | _, _ => False
  end.
Proof.
  intros (_ & _ & H). destruct (page_u p), (page_u p'); tauto.
Qed.

Lemma root_not_child_spec st :
  root_not_child st = true <->
  forall pg ri child, load_ref st pg ri = Some child -> child <> root_page st.
Proof.
  unfold root_not_child, load_ref. split.
  - intros H pg ri child Hl.
    destruct (pages st !! pg) as [p|] eqn:Hp; [|discriminate]. simpl in Hl.
    rewrite forallb_forall in H.
    specialize (H p ltac:(apply list_elem_of_In;
                          eapply list_elem_of_lookup_2; eauto)).
    destruct (page_u p) as [t|]; [|discriminate].
    destruct (t !! Z.to_nat ri) as [r|] eqn:Hr; [|discriminate].
    injection Hl as <-. rewrite forallb_forall in H.
    specialize (H r ltac:(apply list_elem_of_In;
                          eapply list_elem_of_lookup_2; eauto)).
    apply negb_true_iff, Nat.eqb_neq in H. exact H.
  - intros H. apply forallb_forall. intros p Hin.
    apply list_elem_of_In, list_elem_of_lookup_1 in Hin as [pg Hp].
    destruct (page_u p) as [t|] eqn:Hu; [|reflexivity].
    apply forallb_forall. intros r Hr.
    apply list_elem_of_In, list_elem_of_lookup_1 in Hr as [i Hi].
    apply negb_true_iff, Nat.eqb_neq.
    apply (H pg (Z.of_nat i)). rewrite Hp. simpl. rewrite Hu.
    now rewrite Nat2Z.id, Hi.
Qed.

Lemma load_ref_frame E P st st' pg ri :
  frame E P st st' -> load_ref st' pg ri = load_ref st pg ri.
Proof.
  intros F. unfold load_ref.
  destruct (pages st !! pg) as [p|] eqn:Hp.
  - destruct (Forall2_lookup_l _ _ _ _ _ (fr_pages _ _ _ _ F) Hp)
      as (p' & -> & Hpp). simpl.
    apply page_frame_refs in Hpp.
    destruct (page_u p'), (page_u p); try tauto.
    rewrite <- !list_lookup_fmap. now rewrite Hpp.
  - apply lookup_ge_None in Hp.
    rewrite (Forall2_length _ _ _ (fr_pages _ _ _ _ F)) in Hp.
    apply lookup_ge_None in Hp. now rewrite Hp.
Qed.

Lemma root_not_child_frame E P st st' :
  frame E P st st' -> root_not_child st = true -> root_not_child st' = true.
Proof.
  intros F. rewrite !root_not_child_spec. intros H pg ri child Hl.
  rewrite (load_ref_frame _ _ _ _ _ _ F) in Hl.
  rewrite (fr_root _ _ _ _ F). eauto.
Qed.

Lemma remove_first_head x l : remove_first x (x :: l) = l.
Proof. simpl. now rewrite Nat.eqb_refl. Qed.

Lemma page_out_pins pg h0 st :
  hazard (session st) = pins (root_page st) pg h0 ->
  session (WT_PAGE_OUT pg st) = set_hazard h0 (session st) /\
  root_page (WT_PAGE_OUT pg st) = root_page st.
Proof.
  unfold WT_PAGE_OUT, pins. intros H.
  destruct (Nat.eqb pg (root_page st)); simpl.
  - split; [|reflexivity]. rewrite <- H. now destruct (session st).
  - split; [|reflexivity]. rewrite H, remove_first_head. reflexivity.
Qed.

Lemma set_hazard_same s : set_hazard (hazard s) s = s.
Proof. now destruct s. Qed.

Lemma tree_descend_exits E key depth :
  forall pg rref cmp st h0,
    root_not_child st = true ->
    hazard (session st) = pins (root_page st) pg h0 ->
    match tree_descend E depth key pg rref cmp st with
    | Ret (leaf, _) st' =>
        session st' = set_hazard (pins (root_page st) leaf h0) (session st) /\
        root_page st' = root_page st /\
        root_not_child st' = true /\
        is_leaf st' leaf
    | Err ret st' =>
        collab_error E ret /\
        session st' = set_hazard h0 (session st) /\
        root_page st' = root_page st
    | Undef | OutOfFuel => True
    end.
Proof.
  induction depth as [|depth IH]; intros pg rref cmp st h0 Hrnc Hhz.
  - simpl. destruct (pages st !! pg) as [p|] eqn:Hp; [|exact I].
    destruct (page_u p) eqn:Hu; [exact I|].
    rewrite <- Hhz, set_hazard_same. repeat split; auto.
    exists p. eauto.
  - simpl. destruct (pages st !! pg) as [p|] eqn:Hp; [|exact I].
    destruct (page_u p) as [t|d upd ins] eqn:Hu.
    2:{ rewrite <- Hhz, set_hazard_same. repeat split; auto.
        exists p. eauto. }
    pose proof (int_select_exits E key pg (indx_count p) rref cmp st) as HS.
    destruct (int_select E key pg (indx_count p) rref cmp st)
      as [[[[rp ri]|] cmp'] st1|ret st1| |]; auto.
    + pose proof (fr_session _ _ _ _ HS) as Hs1.
      pose proof (fr_root _ _ _ _ HS) as Hr1.
      pose proof (root_not_child_frame _ _ _ _ HS Hrnc) as Hrnc1.
      destruct (load_ref st1 rp ri) as [child|] eqn:Hchild; [|exact I].
      unfold WT_ERR, __wt_page_in.
      destruct (page_in E child =? 0) eqn:Hpin; simpl.
      * assert (Hne : child <> root_page st1).
        { eapply root_not_child_spec; eauto. }
        match goal with
        | |- match tree_descend _ _ _ _ _ _ ?s with _ => _ end =>
            set (st3 := s)
        end.
        assert (H3 : root_not_child st3 = true /\
                     root_page st3 = root_page st /\
                     session st3
                     = set_hazard (pins (root_page st) child h0) (session st)).
        { subst st3. rewrite <- Hr1, <- Hs1.
          unfold pins in *. rewrite Hs1, Hr1 in *.
          apply Nat.eqb_neq in Hne. rewrite Hne.
          destruct (Nat.eqb pg (root_page st)) eqn:Hroot; simpl.
          - split; [exact Hrnc1|]. split; [exact Hr1|].
            rewrite Hs1, Hhz. reflexivity.
          - split; [exact Hrnc1|]. split; [exact Hr1|].
            rewrite Hs1, Hhz. simpl.
            destruct (Nat.eqb pg child) eqn:Hpc; [|now rewrite Nat.eqb_refl].
            apply Nat.eqb_eq in Hpc. now subst child. }
        destruct H3 as (Hrnc3 & Hr3 & Hs3).
        specialize (IH child (Some (rp, ri)) cmp' st3 h0 Hrnc3).
        rewrite Hr3, Hs3 in IH. specialize (IH eq_refl).
        destruct (tree_descend E depth key child (Some (rp, ri)) cmp' st3)
          as [[leaf c'] st'|ret st'| |]; auto.
      * apply Z.eqb_neq in Hpin.
        destruct (page_out_pins pg h0 st1) as [Hs' Hr'].
        { now rewrite Hs1, Hr1. }
        unfold goto_err. rewrite Hs', Hr', Hs1, Hr1.
        split; [|auto]. split; [exact Hpin|]. left. eauto.
    + destruct HS as (Hce & st2 & F & ->).
      destruct (page_out_pins pg h0 st2) as [Hs' Hr'].
      { now rewrite (fr_session _ _ _ _ F), (fr_root _ _ _ _ F). }
      rewrite Hs', Hr', (fr_session _ _ _ _ F), (fr_root _ _ _ _ F). auto.
Qed.


Lemma is_leaf_frame E P st st' pg :
  frame E P st st' -> is_leaf st pg -> is_leaf st' pg.
Proof.
  intros F (p & d & upd & ins & Hp & Hu).
  destruct (Forall2_lookup_l _ _ _ _ _ (fr_pages _ _ _ _ F) Hp)
    as (p' & Hp' & Hpp).
  apply page_frame_refs in Hpp. rewrite Hu in Hpp.
  destruct (page_u p') as [|d' upd' ins'] eqn:Hu'; [tauto|].
  exists p', d', upd', ins'. auto.
Qed.

Lemma indx_count_frame E P st st' pg p p' :
  frame E P st st' -> pages st !! pg = Some p -> pages st' !! pg = Some p' ->
  indx_count p' = indx_count p /\ write_gen p' = write_gen p.
Proof.
  intros F Hp Hp'.
  destruct (Forall2_lookup_l _ _ _ _ _ (fr_pages _ _ _ _ F) Hp)
    as (p2 & Hp2 & Hpp).
  rewrite Hp' in Hp2. injection Hp2 as <-. unfold indx_count.
  rewrite (page_frame_rows_length _ _ Hpp). split; [reflexivity|].
  apply Hpp.
Qed.

(** Every exit of the search up to the end of the leaf's binary search:
    on success only the hazard list of the session has changed since the
    return values were cleared, and on failure not even that. *)
Lemma row_position_exits E depth key st :
  root_not_child st = true ->
  match row_position E depth key st with
  | Ret (pg, wg, base, _, _) st' =>
      session st'
      = set_hazard (pins (root_page st) pg (hazard (session st)))
                   (srch_clear (session st)) /\
      root_page st' = root_page st /\
      is_leaf st' pg /\
      (forall page, pages st' !! pg = Some page ->
                    wg = write_gen page /\
                    (indx_count page < 2 ^ 32 -> 0 <= base <= indx_count page))
  | Err ret st' =>
      collab_error E ret /\
      session st' = srch_clear (session st) /\
      root_page st' = root_page st
  | Undef | OutOfFuel => True
  end.
Proof.
  intros Hrnc. unfold row_position.
  set (st0 := with_session srch_clear st).
  pose proof (tree_descend_exits E key depth (root_page st0) None 0 st0
                (hazard (session st)) Hrnc) as HD.
  unfold pins at 1 in HD. rewrite Nat.eqb_refl in HD. specialize (HD eq_refl).
  destruct (tree_descend E depth key (root_page st0) None 0 st0)
    as [[pg cmp] st1|ret st1| |]; auto.
  destruct HD as (Hs1 & Hr1 & Hrnc1 & Hleaf).
  destruct (pages st1 !! pg) as [page|] eqn:Hp; [|exact I].
  pose proof (leaf_search_exits E key pg (search_fuel (indx_count page)) 0
                (indx_count page) None cmp st1) as HL.
  destruct (leaf_search E (search_fuel (indx_count page)) key pg 0
              (indx_count page) None cmp st1)
    as [[[base rip] cmp'] st2|ret st2| |]; auto.
  - destruct HL as [F Hrange].
    rewrite (fr_session _ _ _ _ F), (fr_root _ _ _ _ F), Hs1, Hr1.
    split; [reflexivity|]. split; [reflexivity|].
    split; [eapply is_leaf_frame; eauto|].
    intros page2 Hp2.
    destruct (indx_count_frame _ _ _ _ _ _ _ F Hp Hp2) as [Hic Hwg].
    split; [congruence|]. rewrite Hic. intros H32.
    apply Hrange; try lia. unfold indx_count. lia.
  - destruct HL as (Hce & st2' & F & ->).
    destruct (page_out_pins pg (hazard (session st)) st2') as [Hs' Hr'].
    { now rewrite (fr_session _ _ _ _ F), (fr_root _ _ _ _ F), Hs1, Hr1. }
    rewrite Hs', Hr', (fr_session _ _ _ _ F), (fr_root _ _ _ _ F), Hs1, Hr1.
    auto.
Qed.

(* ================================================================== *)
(** ** The insert chain scan *)
(* ================================================================== *)

Lemma finish_frame_refl st : finish_frame st st.
Proof. unfold finish_frame. tauto. Qed.

Lemma finish_frame_trans st1 st2 st3 :
  finish_frame st1 st2 -> finish_frame st2 st3 -> finish_frame st1 st3.
Proof.
  unfold finish_frame. intros H1 H2. decompose [and] H1. decompose [and] H2.
  repeat split; congruence.
Qed.

(** [__wt_ins_search] from position [pos] of a chain: either it returns 0
    at the first key-equal node [k] nodes further on, with that node's
    update recorded and [srch_ins] reset, or it returns 1 with [srch_ins]
    moved to the [next] link of the last node passed, if any.  The nodes
    up to the one it stops at are compared in order. *)
Lemma ins_search_spec E key slot chain :
  forall pos st,
    let r := __wt_ins_search E key slot pos chain st in
    finish_frame st (snd r) /\
    srch_slot (session (snd r)) = srch_slot (session st) /\
    ((fst r = 0 /\
      exists k node,
        chain_match E key chain k node /\
        calls (snd r)
        = calls st ++ (EvCompareIns slot <$> seq pos (S k)) /\
        srch_upd (session (snd r)) = Some (UpdIns slot (pos + k)) /\
        srch_vupdate (session (snd r)) = ins_upd node /\
        srch_ins (session (snd r)) = None) \/
     (fst r = 1 /\
      exists k,
        chain_miss E key chain k /\
        calls (snd r)
        = calls st ++
          (EvCompareIns slot <$> seq pos (Nat.min (S k) (length chain))) /\
        srch_ins (session (snd r))
        = match k with
          | O => srch_ins (session st)
          | S k' => Some (InsNext slot (pos + k'))
          end /\
        srch_upd (session (snd r)) = srch_upd (session st) /\
        srch_vupdate (session (snd r)) = srch_vupdate (session st))).
Proof.
  induction chain as [|node chain IH]; intros pos st; simpl.
  - split; [apply finish_frame_refl|]. split; [reflexivity|].
    right. split; [reflexivity|]. exists 0%nat.
    split; [split; [intros; lia|reflexivity]|].
    simpl. rewrite app_nil_r. auto.
  - destruct (btree_compare E key (ins_key node) =? 0) eqn:H0.
    + apply Z.eqb_eq in H0. simpl.
      split; [unfold finish_frame; simpl; tauto|]. split; [reflexivity|].
      left. split; [reflexivity|]. exists 0%nat, node.
      split; [|rewrite Nat.add_0_r; auto].
      split; [reflexivity|]. split; [exact H0|]. intros; lia.
    + apply Z.eqb_neq in H0.
      destruct (btree_compare E key (ins_key node) <? 0) eqn:H1.
      * apply Z.ltb_lt in H1. simpl.
        split; [unfold finish_frame; simpl; tauto|]. split; [reflexivity|].
        right. split; [reflexivity|]. exists 0%nat.
        split; [|auto]. split; [intros; lia|exact H1].
      * apply Z.ltb_ge in H1.
        match goal with
        | |- context [__wt_ins_search E key slot (S pos) chain ?s] =>
            specialize (IH (S pos) s); set (st1 := s) in *
        end.
        simpl in IH. destruct IH as (F & Hslot & Hcases).
        split.
        { eapply finish_frame_trans; [|exact F].
          unfold finish_frame; simpl; tauto. }
        split; [exact Hslot|].
        destruct Hcases
          as [(Hr & k & nd & (Hk & Hc & Hlo) & Hcl & Hu & Hv & Hi)
             |(Hr & k & (Hlo & Hk) & Hcl & Hi & Hu & Hv)].
        -- left. split; [exact Hr|]. exists (S k), nd.
           split.
           { split; [exact Hk|]. split; [exact Hc|].
             intros [|j] n' Hj Hn'.
             - injection Hn' as <-. lia.
             - apply (Hlo j n'); [lia|exact Hn']. }
           split.
           { rewrite Hcl. subst st1. simpl. now rewrite <- app_assoc. }
           replace (pos + S k)%nat with (S pos + k)%nat by lia. auto.
        -- right. split; [exact Hr|]. exists (S k).
           split.
           { split; [|simpl; destruct (chain !! k); [exact Hk|lia]].
             intros [|j] n' Hj Hn'.
             - injection Hn' as <-. lia.
             - apply (Hlo j n'); [lia|exact Hn']. }
           split.
           { rewrite Hcl. subst st1. simpl. now rewrite <- app_assoc. }
           split; [|auto].
           rewrite Hi. destruct k as [|k'].
           ++ simpl. now rewrite Nat.add_0_r.
           ++ do 2 f_equal. lia.
Qed.

(* ================================================================== *)
(** ** Splicing at the insertion point *)
(* ================================================================== *)




(* ================================================================== *)
(** ** From the end of the leaf's binary search to the return *)
(* ================================================================== *)

Lemma row_done_write E pg wg rip cmp st :
  row_done E true pg wg rip cmp st = Ret tt (row_return pg wg rip cmp st).
Proof. reflexivity. Qed.

Lemma row_done_read_none E pg wg rip cmp st :
  srch_upd (session st) = None ->
  row_done E false pg wg rip cmp st = Ret tt (row_return pg wg rip cmp st).
Proof. intros H. unfold row_done. simpl. now rewrite H. Qed.

Lemma row_done_read_some E pg wg rip cmp st r ou :
  srch_upd (session st) = Some r -> load_upd st pg r = Some ou ->
  row_done E false pg wg rip cmp st =
  if match ou with Some u => WT_UPDATE_DELETED_ISSET u | None => false end
  then goto_err pg (WT_NOTFOUND E) st
  else Ret tt (row_return pg wg rip cmp st).
Proof.
  intros H Hl. unfold row_done. simpl. rewrite H, Hl.
  destruct ou as [u|]; [|reflexivity].
  now destruct (WT_UPDATE_DELETED_ISSET u).
Qed.

(** An exact on-disk match, lines 158-165. *)
Lemma row_finish_match E key write pg wg base slot st page d upd ins :
  pages st !! pg = Some page ->
  page_u page = row_leaf d upd ins ->
  match upd with
  | Some us => is_Some (us !! Z.to_nat slot)
  | None => True
  end ->
  row_finish E key write pg wg base (Some (pg, slot)) 0 st =
  row_done E write pg wg (Some (pg, slot)) 0
    (match upd with
     | Some us =>
         with_session
           (fun s => set_srch_vupdate (default None (us !! Z.to_nat slot))
                       (set_srch_upd (Some (UpdSlot slot)) s))
     | None => fun st => st
     end (with_session (set_srch_slot slot) st)).
Proof.
  intros Hp Hu Hupd. unfold row_finish. rewrite Hp, Hu. simpl.
  rewrite Nat.eqb_refl.
  destruct upd as [us|]; [|reflexivity].
  destruct Hupd as [u Hu']. now rewrite Hu'.
Qed.

(** A leaf miss, lines 167-226: the chain of the selected slot is
    scanned from the slot's own link. *)
Lemma row_finish_miss E key write pg wg base rip cmp st page d upd ins :
  pages st !! pg = Some page ->
  page_u page = row_leaf d upd ins ->
  cmp <> 0 ->
  0 <= base <= indx_count page -> indx_count page < 2 ^ 32 ->
  match ins with
  | Some a => length a = S (length d)
  | None => True
  end ->
  let slot := miss_slot (indx_count page) base in
  let chain := chain_at ins slot in
  let rip' := Some (pg, if base =? 0 then 0 else base - 1) in
  exists st1,
    finish_frame st st1 /\
    srch_slot (session st1) = slot /\
    ((exists k node,
         chain_match E key chain k node /\
         calls st1 = calls st ++ (EvCompareIns slot <$> seq 0 (S k)) /\
         srch_upd (session st1) = Some (UpdIns slot k) /\
         srch_vupdate (session st1) = ins_upd node /\
         srch_ins (session st1) = None /\
         load_upd st1 pg (UpdIns slot k) = Some (ins_upd node) /\
         row_finish E key write pg wg base rip cmp st
         = row_done E write pg wg rip' 0 st1) \/
     (exists k c,
         chain_miss E key chain k /\ c <> 0 /\
         calls st1
         = calls st ++
           (EvCompareIns slot <$> seq 0 (Nat.min (S k) (length chain))) /\
         srch_ins (session st1)
         = match ins with
           | Some _ => Some (chain_link slot k)
           | None => srch_ins (session st)
           end /\
         srch_upd (session st1) = srch_upd (session st) /\
         srch_vupdate (session st1) = srch_vupdate (session st) /\
         row_finish E key write pg wg base rip cmp st
         = if write then Ret tt (row_return pg wg rip' c st1)
           else goto_err pg (WT_NOTFOUND E) st1)).
Proof.
  intros Hp Hu Hcmp Hbase H32 Hins slot chain rip'.
  assert (Hchain : chain = chain_at ins slot) by reflexivity.
  clearbody chain.
  assert (Hn : indx_count page = Z.of_nat (length d)).
  { unfold indx_count, page_rows. now rewrite Hu. }
  (* the slot and the chain the code reads *)
  assert (Hslot_rng : 0 <= slot <= indx_count page).
  { unfold slot, miss_slot. destruct (base =? 0) eqn:Hb; [lia|].
    apply Z.eqb_neq in Hb. lia. }
  assert (Hread : WT_ROW_INSERT_SLOT ins slot = Some chain).
  { rewrite Hchain. unfold WT_ROW_INSERT_SLOT, chain_at.
    destruct ins as [a|]; [|reflexivity].
    destruct (lookup_lt_is_Some_2 a (Z.to_nat slot) ltac:(lia)) as [c Hc].
    now rewrite Hc. }
  set (st0 := match ins with
              | Some _ =>
                  with_session (set_srch_ins (Some (InsSlot slot)))
                    (with_session (set_srch_slot slot) st)
              | None => with_session (set_srch_slot slot) st
              end).
  assert (F0 : finish_frame st st0).
  { subst st0. destruct ins; unfold finish_frame; simpl; tauto. }
  assert (Hs0 : srch_slot (session st0) = slot).
  { subst st0. now destruct ins. }
  assert (Hi0 : srch_ins (session st0)
                = match ins with
                  | Some _ => Some (InsSlot slot)
                  | None => srch_ins (session st)
                  end).
  { subst st0. now destruct ins. }
  assert (Hu0 : srch_upd (session st0) = srch_upd (session st) /\
                srch_vupdate (session st0) = srch_vupdate (session st) /\
                calls st0 = calls st /\ pages st0 = pages st).
  { subst st0. now destruct ins. }
  assert (Hrun : row_finish E key write pg wg base rip cmp st =
                 match chain with
                 | [] =>
                     if negb write then goto_err pg (WT_NOTFOUND E) st0
                     else row_done E write pg wg rip' cmp st0
                 | _ :: _ =>
                     let '(c, st2) := __wt_ins_search E key slot 0 chain st0 in
                     if negb (c =? 0) && negb write
                     then goto_err pg (WT_NOTFOUND E) st2
                     else row_done E write pg wg rip' c st2
                 end).
  { unfold row_finish. rewrite Hp, Hu.
    apply Z.eqb_neq in Hcmp. rewrite Hcmp.
    unfold rip', slot, miss_slot in *.
    destruct (base =? 0) eqn:Hb; simpl.
    - rewrite Hread. subst st0. now destruct ins.
    - apply Z.eqb_neq in Hb. rewrite Nat.eqb_refl.
      rewrite u32_id by lia. rewrite Hread. subst st0. now destruct ins. }
  destruct chain as [|node rest].
  - exists st0. split; [exact F0|]. split; [exact Hs0|].
    right. exists 0%nat, cmp.
    split; [split; [intros; lia|reflexivity]|].
    split; [exact Hcmp|].
    destruct Hu0 as (Hu1 & Hv1 & Hc1 & _).
    split; [simpl; now rewrite app_nil_r|].
    split; [rewrite Hi0; now destruct ins|].
    split; [exact Hu1|]. split; [exact Hv1|].
    rewrite Hrun. now destruct write.
  - pose proof (ins_search_spec E key slot (node :: rest) 0%nat st0) as HS.
    destruct (__wt_ins_search E key slot 0 (node :: rest) st0)
      as [c st2] eqn:Hsearch.
    simpl in HS. destruct HS as (F & Hslot & Hcases).
    destruct Hu0 as (Hu1 & Hv1 & Hc1 & Hp1).
    exists st2. split; [eapply finish_frame_trans; eauto|].
    split; [congruence|].
    destruct Hcases as [(-> & k & nd & Hm & Hcl & Hu2 & Hv2 & Hi2)
                       |(-> & k & Hm & Hcl & Hi2 & Hu2 & Hv2)].
    + left. exists k, nd. split; [exact Hm|].
      split; [now rewrite Hcl, Hc1|]. split; [exact Hu2|].
      split; [exact Hv2|]. split; [exact Hi2|]. split.
      * unfold load_upd. destruct F as (_ & Hpg & _). rewrite Hpg, Hp1, Hp.
        simpl. rewrite Hu.
        destruct ins as [a|]; [|discriminate].
        destruct Hm as (Hk & _). simpl.
        unfold chain_at in Hchain.
        destruct (a !! Z.to_nat slot) as [ch|]; simpl in *;
          [subst ch; now rewrite Hk|discriminate].
      * rewrite Hrun. reflexivity.
    + right. exists k, 1. split; [exact Hm|]. split; [lia|].
      split; [now rewrite Hcl, Hc1|].
      split.
      { rewrite Hi2, Hi0.
        destruct ins as [a|]; [|discriminate].
        now destruct k. }
      split; [congruence|]. split; [congruence|].
      rewrite Hrun. now destruct write.
Qed.

Lemma page_out_session pg st :
  session (WT_PAGE_OUT pg st)
  = set_hazard (hazard (session (WT_PAGE_OUT pg st))) (session st) /\
  calls (WT_PAGE_OUT pg st) = calls st /\
  pages (WT_PAGE_OUT pg st) = pages st.
Proof.
  unfold WT_PAGE_OUT. destruct (negb (Nat.eqb pg (root_page st))); simpl.
  - auto.
  - now rewrite set_hazard_same.
Qed.

(** [done:] either returns 0 after the four assignments or goes to
    [notfound:], provided [*srch_upd] can be read. *)
Lemma row_done_exits E write pg wg rip cmp st :
  match srch_upd (session st) with
  | Some r => is_Some (load_upd st pg r)
  | None => True
  end ->
  row_done E write pg wg rip cmp st = Ret tt (row_return pg wg rip cmp st) \/
  (write = false /\
   row_done E write pg wg rip cmp st = goto_err pg (WT_NOTFOUND E) st).
Proof.
  intros H. destruct write; [left; reflexivity|].
  destruct (srch_upd (session st)) as [r|] eqn:Hr.
  - destruct H as [ou Hl].
    rewrite (row_done_read_some E pg wg rip cmp st r ou Hr Hl).
    destruct ou as [u|]; [|now left].
    destruct (WT_UPDATE_DELETED_ISSET u); [now right|now left].
  - left. now apply row_done_read_none.
Qed.

Lemma leaf_wf_spec page :
  leaf_wf page = true ->
  exists d upd ins,
    page_u page = row_leaf d upd ins /\
    match upd with Some us => length us = length d | None => True end /\
    match ins with Some a => length a = S (length d) | None => True end.
Proof.
  unfold leaf_wf. destruct (page_u page) as [|d upd ins]; [discriminate|].
  intros H. apply andb_true_iff in H as [H1 H2].
  exists d, upd, ins. split; [reflexivity|]. split.
  - destruct upd; [now apply Nat.eqb_eq|exact I].
  - destruct ins; [now apply Nat.eqb_eq|exact I].
Qed.





(* ================================================================== *)
(** ** Tombstones *)
(* ================================================================== *)

Lemma chain_match_unique E key chain k node k' node' :
  chain_match E key chain k node -> chain_match E key chain k' node' ->
  k = k' /\ node = node'.
Proof.
  intros (Hk & Hc & Hlo) (Hk' & Hc' & Hlo').
  assert (k = k').
  { destruct (lt_eq_lt_dec k k') as [[Hlt|]|Hgt]; [|assumption|].
    - specialize (Hlo' k node Hlt Hk). lia.
    - specialize (Hlo k' node' Hgt Hk'). lia. }
  subst k'. split; [reflexivity|]. congruence.
Qed.

Lemma chain_match_not_miss E key chain k node k' :
  chain_match E key chain k node -> chain_miss E key chain k' -> False.
Proof.
  intros (Hk & Hc & Hlo) (Hlo' & Hk').
  destruct (lt_eq_lt_dec k k') as [[Hlt|<-]|Hgt].
  - specialize (Hlo' k node Hlt Hk). lia.
  - rewrite Hk in Hk'. lia.
  - destruct (chain !! k') as [n'|] eqn:Hn'.
    + specialize (Hlo k' n' Hgt Hn'). lia.
    + apply lookup_lt_Some in Hk. lia.
Qed.

(** C4.  When the search has found a key whose resident update is a
    tombstone, it returns WT_NOTFOUND without write intent, and with
    write intent returns a match whose update reference and value expose
    the tombstone. *)
Theorem tombstone_visibility
    E depth key st pg wg base rip cmp st2 page r u :
  root_not_child st = true ->
  row_position E depth key st = Ret (pg, wg, base, rip, cmp) st2 ->
  pages st2 !! pg = Some page ->
  leaf_wf page = true ->
  indx_count page < 2 ^ 32 ->
  found_update E key pg page base rip cmp r u ->
  WT_UPDATE_DELETED_ISSET u = true ->
  (exists st',
      __wt_row_search E depth key false st = Err (WT_NOTFOUND E) st' /\
      srch_page (session st') = None) /\
  (exists st',
      __wt_row_search E depth key true st = Ret tt st' /\
      srch_match (session st') = 1 /\
      srch_page (session st') = Some pg /\
      srch_upd (session st') = Some r /\
      load_upd st' pg r = Some (Some u) /\
      srch_vupdate (session st') = Some u).
Proof.
  intros Hrnc Hpos Hp Hwf H32 Hfound Hdel.
  pose proof (row_position_exits E depth key st Hrnc) as HX.
  rewrite Hpos in HX. destruct HX as (Hs2 & _ & _ & Hpage).
  destruct (Hpage page Hp) as [_ Hrange]. specialize (Hrange H32).
  destruct (leaf_wf_spec page Hwf) as (d & upd & ins & Hu & _ & Hins).
  assert (Hsp : forall st1, finish_frame st2 st1 ->
                  srch_page (session (WT_PAGE_OUT pg st1)) = None).
  { intros st1 F. destruct (page_out_session pg st1) as (-> & _). simpl.
    destruct F as (_ & _ & _ & _ & _ & -> & _). now rewrite Hs2. }
  unfold found_update in Hfound. rewrite Hu in Hfound.
  unfold __wt_row_search, bind. rewrite Hpos.
  destruct Hfound as [(-> & slot & us & -> & -> & Hus & ->)
                     |(Hcmp & k & node & Hm & Hupd & ->)].
  - (* the key is on the page *)
    assert (Hfin := fun write =>
      row_finish_match E key write pg wg base slot st2 page d (Some us) ins
        Hp Hu (ex_intro _ _ Hus)).
    rewrite !Hfin. rewrite Hus. simpl.
    match goal with
    | |- context [row_done E false pg wg _ 0 ?s] => set (st1 := s)
    end.
    assert (Hl : load_upd st1 pg (UpdSlot slot) = Some (Some u)).
    { unfold load_upd. subst st1. simpl. rewrite Hp. simpl. rewrite Hu.
      simpl. exact Hus. }
    split.
    + rewrite (row_done_read_some E pg wg _ 0 st1 (UpdSlot slot) (Some u)
                 eq_refl Hl), Hdel.
      eexists. split; [reflexivity|]. apply Hsp.
      subst st1. unfold finish_frame. simpl. tauto.
    + rewrite row_done_write. eexists. split; [reflexivity|].
      repeat split; auto.
  - (* the key is in the insert chain *)
    assert (Hfin := fun write =>
      row_finish_miss E key write pg wg base rip cmp st2 page d upd ins
        Hp Hu Hcmp Hrange H32 Hins).
    split.
    + destruct (Hfin false) as (st1 & F & _ & Hcases).
      destruct Hcases as [(k' & node' & Hm' & _ & Hupd' & _ & _ & Hload & ->)
                         |(k' & c & Hm' & _)];
        [|destruct (chain_match_not_miss _ _ _ _ _ _ Hm Hm')].
      destruct (chain_match_unique _ _ _ _ _ _ _ Hm Hm') as [<- <-].
      rewrite Hupd in Hload.
      rewrite (row_done_read_some E pg wg _ 0 st1 _ (Some u) Hupd' Hload),
        Hdel.
      eexists. split; [reflexivity|]. now apply Hsp.
    + destruct (Hfin true) as (st1 & F & _ & Hcases).
      destruct Hcases as [(k' & node' & Hm' & _ & Hupd' & Hv & _ & Hload & ->)
                         |(k' & c & Hm' & _)];
        [|destruct (chain_match_not_miss _ _ _ _ _ _ Hm Hm')].
      destruct (chain_match_unique _ _ _ _ _ _ _ Hm Hm') as [<- <-].
      rewrite Hupd in Hload, Hv.
      rewrite row_done_write. eexists. split; [reflexivity|].
      repeat split; auto.
Qed.

Lemma tombstone_visibility_witness :
  (exists st',
      __wt_row_search sample_env 2 ["d"%byte] false sample_state
      = Err (WT_NOTFOUND sample_env) st' /\
      srch_page (session st') = None) /\
  (exists st',
      __wt_row_search sample_env 2 ["d"%byte] true sample_state
      = Ret tt st' /\
      srch_match (session st') = 1 /\
      srch_page (session st') = Some 2%nat /\
      srch_upd (session st') = Some (UpdSlot 0) /\
      load_upd st' 2 (UpdSlot 0) = Some (Some UpdDeleted) /\
      srch_vupdate (session st') = Some UpdDeleted).
Proof.
  eapply (tombstone_visibility sample_env 2 ["d"%byte] sample_state
            2 7 _ _ _ _ _ (UpdSlot 0) UpdDeleted);
    [reflexivity|vm_compute; reflexivity|reflexivity|reflexivity
    |reflexivity| |reflexivity].
  left. split; [reflexivity|].
  eexists 0, _. repeat split.
Defined.

(* ================================================================== *)
(** ** What a write-intent search records *)
(* ================================================================== *)

(** C5, as the code has it.  With write intent: when the leaf's binary
    search found an exact on-disk match, no insert chain is scanned and no
    insertion point is recorded, only the slot and its update reference
    ([srch_upd] is the slot's entry of the update array and [srch_vupdate]
    its content, both NULL when the page has no update array); when it
    missed, the chain of the selected slot is scanned, a chain miss
    records the insertion point (if the insert array is allocated) and a
    chain match resets the insertion point to NULL and records the node's
    update reference. *)
Theorem write_search_records
    E depth key st pg wg base rip cmp st2 page d upd ins :
  root_not_child st = true ->
  row_position E depth key st = Ret (pg, wg, base, rip, cmp) st2 ->
  pages st2 !! pg = Some page ->
  page_u page = row_leaf d upd ins ->
  leaf_wf page = true ->
  indx_count page < 2 ^ 32 ->
  (forall slot,
      cmp = 0 -> rip = Some (pg, slot) -> 0 <= slot < indx_count page ->
      exists st',
        __wt_row_search E depth key true st = Ret tt st' /\
        srch_match (session st') = 1 /\
        srch_slot (session st') = slot /\
        srch_ip (session st') = Some (pg, slot) /\
        srch_ins (session st') = None /\
        srch_upd (session st')
        = match upd with
          | Some _ => Some (UpdSlot slot)
          | None => None
          end /\
        srch_vupdate (session st')
        = match upd with
          | Some us => default None (us !! Z.to_nat slot)
          | None => None
          end /\
        match srch_upd (session st') with
        | Some r => load_upd st' pg r = Some (srch_vupdate (session st'))
        | None => True
        end /\
        calls st' = calls st2) /\
  (cmp <> 0 ->
   let slot := miss_slot (indx_count page) base in
   let chain := chain_at ins slot in
   exists st',
     __wt_row_search E depth key true st = Ret tt st' /\
     srch_slot (session st') = slot /\
     ((exists k node,
          chain_match E key chain k node /\
          srch_match (session st') = 1 /\
          srch_ins (session st') = None /\
          srch_upd (session st') = Some (UpdIns slot k)) \/
      (exists k,
          chain_miss E key chain k /\
          srch_match (session st') = 0 /\
          srch_ins (session st')
          = match ins with
            | Some _ => Some (chain_link slot k)
            | None => None
            end))).
Proof.
  intros Hrnc Hpos Hp Hu Hwf H32.
  pose proof (row_position_exits E depth key st Hrnc) as HX.
  rewrite Hpos in HX. destruct HX as (Hs2 & _ & _ & Hpage).
  destruct (Hpage page Hp) as [_ Hrange]. specialize (Hrange H32).
  destruct (leaf_wf_spec page Hwf) as (d' & upd' & ins' & Hu' & Hupd & Hins).
  rewrite Hu in Hu'. injection Hu' as <- <- <-.
  assert (Hn : indx_count page = Z.of_nat (length d)).
  { unfold indx_count, page_rows. now rewrite Hu. }
  assert (Hins2 : srch_ins (session st2) = None) by now rewrite Hs2.
  unfold __wt_row_search, bind. rewrite Hpos. split.
  - intros slot -> -> Hslot.
    rewrite (row_finish_match E key true pg wg base slot st2 page d upd ins
               Hp Hu).
    2:{ destruct upd as [us|]; [|exact I].
        apply lookup_lt_is_Some_2. lia. }
    rewrite row_done_write. eexists. split; [reflexivity|].
    assert (Hupd2 : srch_upd (session st2) = None) by now rewrite Hs2.
    assert (Hvup2 : srch_vupdate (session st2) = None) by now rewrite Hs2.
    destruct upd as [us|]; simpl.
    + assert (Hlt : (Z.to_nat slot < length us)%nat) by lia.
      destruct (lookup_lt_is_Some_2 us (Z.to_nat slot) Hlt) as [u Hus].
      split; [reflexivity|]. split; [reflexivity|]. split; [reflexivity|].
      split; [exact Hins2|]. split; [reflexivity|]. split; [reflexivity|].
      split; [|reflexivity].
      unfold load_upd. simpl. rewrite Hp. simpl. rewrite Hu. simpl.
      now rewrite Hus.
    + rewrite Hupd2. auto 10.
  - intros Hcmp.
    set (slot := miss_slot (indx_count page) base).
    set (chain := chain_at ins slot).
    destruct (row_finish_miss E key true pg wg base rip cmp st2 page d upd ins
                Hp Hu Hcmp Hrange H32 Hins)
      as (st1 & F & Hslot & Hcases).
    fold slot in Hslot, Hcases. fold chain in Hcases.
    destruct Hcases as [(k & node & Hm & _ & Hup & _ & Hi & _ & ->)
                       |(k & c & Hm & Hc & _ & Hi & _ & _ & ->)].
    + rewrite row_done_write. eexists. split; [reflexivity|].
      split; [exact Hslot|]. left. exists k, node. auto.
    + eexists. split; [reflexivity|]. split; [exact Hslot|].
      right. exists k. split; [exact Hm|]. simpl.
      apply Z.eqb_neq in Hc. rewrite Hc. split; [reflexivity|].
      rewrite Hi, Hins2. reflexivity.
Qed.

Lemma write_search_records_witness :
  exists st',
    __wt_row_search sample_env 2 ["d"%byte] true sample_state = Ret tt st' /\
    srch_match (session st') = 1 /\
    srch_slot (session st') = 0 /\
    srch_ins (session st') = None /\
    srch_upd (session st') = Some (UpdSlot 0) /\
    srch_vupdate (session st') = Some UpdDeleted.
Proof.
  edestruct (write_search_records sample_env 2 ["d"%byte] sample_state)
    as [Hmatch _];
    [reflexivity|vm_compute; reflexivity|reflexivity|reflexivity
    |reflexivity|reflexivity|].
  destruct (Hmatch 0 eq_refl eq_refl ltac:(vm_compute; split; congruence))
    as (st' & Hrun & Hm & Hs & _ & Hi & Hu & Hv & _).
  exists st'. auto 10.
Defined.

(** C5 as stated fails: "d" is on the page and its chain holds two nodes,
    yet the write-intent search compares no chain node and records no
    insertion point. *)
Lemma write_search_skips_chain_on_match :
  exists st',
    __wt_row_search sample_env 2 ["d"%byte] true sample_state = Ret tt st' /\
    chain_at (Some [[mkINS ["d"; "a"]%byte (Some (UpdValue ["002"%byte]));
                     mkINS ["d"; "b"]%byte (Some UpdDeleted)];
                    []; []; []]) (srch_slot (session st'))
    <> [] /\
    srch_ins (session st') = None /\
    (forall slot pos, EvCompareIns slot pos ∉ calls st').
Proof.
  eexists. split; [vm_compute; reflexivity|].
  split; [discriminate|]. split; [reflexivity|].
  intros slot pos Hin. simpl in Hin.
  repeat (apply elem_of_cons in Hin as [Hin|Hin]; [discriminate|]).
  now apply not_elem_of_nil in Hin.
Qed.

(* ================================================================== *)
(** ** The leaf's pin at the exits *)
(* ================================================================== *)

Lemma row_done_any E write pg wg rip cmp st :
  match row_done E write pg wg rip cmp st with
  | Ret _ st' => st' = row_return pg wg rip cmp st
  | Err ret st' => ret = WT_NOTFOUND E /\ st' = WT_PAGE_OUT pg st
  | Undef => True
  | OutOfFuel => False
  end.
Proof.
  unfold row_done.
  destruct (negb write); [|reflexivity].
  destruct (srch_upd (session st)) as [r|]; [|reflexivity].
  destruct (load_upd st pg r) as [[u|]|]; try reflexivity; try exact I.
  destruct (WT_UPDATE_DELETED_ISSET u); [split|]; reflexivity.
Qed.

(** Every exit of the code after the leaf's binary search: return 0
    through the four assignments before it, or WT_NOTFOUND through
    [WT_PAGE_OUT]. *)
Lemma row_finish_exits E key write pg wg base rip cmp st :
  match row_finish E key write pg wg base rip cmp st with
  | Ret _ st' =>
      exists st1 rip' cmp',
        finish_frame st st1 /\ st' = row_return pg wg rip' cmp' st1
  | Err ret st' =>
      ret = WT_NOTFOUND E /\
      exists st1, finish_frame st st1 /\ st' = WT_PAGE_OUT pg st1
  | Undef => True
  | OutOfFuel => False
  end.
Proof.
  assert (Hdone : forall rip' cmp' st1,
             finish_frame st st1 ->
             match row_done E write pg wg rip' cmp' st1 with
             | Ret _ st' =>
                 exists st1 rip' cmp',
                   finish_frame st st1 /\ st' = row_return pg wg rip' cmp' st1
             | Err ret st' =>
                 ret = WT_NOTFOUND E /\
                 exists st1, finish_frame st st1 /\ st' = WT_PAGE_OUT pg st1
             | Undef => True
             | OutOfFuel => False
             end).
  { intros rip' cmp' st1 F.
    pose proof (row_done_any E write pg wg rip' cmp' st1) as H.
    destruct (row_done E write pg wg rip' cmp' st1) as [[] st'|ret st'| |];
      auto.
    - subst st'. eauto.
    - destruct H as [-> ->]. eauto. }
  unfold row_finish.
  destruct (pages st !! pg) as [page|]; [|exact I].
  destruct (page_u page) as [|d upd ins]; [exact I|].
  destruct (cmp =? 0).
  - destruct (WT_ROW_INDX_SLOT pg rip) as [slot|]; [|exact I].
    destruct upd as [us|].
    + destruct (us !! Z.to_nat slot); [|exact I].
      apply Hdone. unfold finish_frame. simpl. tauto.
    + apply Hdone. unfold finish_frame. simpl. tauto.
  - match goal with
    | |- context [match ?s with Some _ => _ | None => Undef end] =>
        destruct s as [slot|]; [|exact I]
    end.
    destruct (WT_ROW_INSERT_SLOT ins slot) as [chain|]; [|exact I].
    match goal with
    | |- context [goto_err pg (WT_NOTFOUND E) ?s] => set (st0 := s)
    end.
    assert (F0 : finish_frame st st0).
    { subst st0. destruct ins; unfold finish_frame; simpl; tauto. }
    destruct chain as [|node rest].
    + destruct (negb write); [|now apply Hdone].
      split; [reflexivity|]. eauto.
    + pose proof (ins_search_spec E key slot (node :: rest) 0%nat st0) as HS.
      destruct (__wt_ins_search E key slot 0 (node :: rest) st0) as [c st2].
      simpl in HS. destruct HS as (F & _).
      assert (F2 : finish_frame st st2) by (eapply finish_frame_trans; eauto).
      destruct (negb (c =? 0) && negb write); [|now apply Hdone].
      split; [reflexivity|]. eauto.
Qed.

(** C6, as the code has it.  A search that returns 0 leaves the leaf
    named in [srch_page] with its hazard reference still held, for the
    caller to release; a search that ends in WT_NOTFOUND has itself
    released the leaf's hazard reference and leaves [srch_page] NULL. *)
Theorem leaf_pin_on_exit E depth key write st :
  root_not_child st = true ->
  (forall st',
      __wt_row_search E depth key write st = Ret tt st' ->
      exists leaf,
        srch_page (session st') = Some leaf /\ is_leaf st' leaf /\
        hazard (session st')
        = pins (root_page st) leaf (hazard (session st))) /\
  (forall pos st2 ret st',
      row_position E depth key st = Ret pos st2 ->
      __wt_row_search E depth key write st = Err ret st' ->
      ret = WT_NOTFOUND E /\
      hazard (session st2)
      = pins (root_page st) (fst (fst (fst (fst pos)))) (hazard (session st)) /\
      srch_page (session st') = None /\
      hazard (session st') = hazard (session st)).
Proof.
  intros Hrnc.
  pose proof (row_position_exits E depth key st Hrnc) as HX.
  unfold __wt_row_search, bind.
  destruct (row_position E depth key st)
    as [[[[[pg wg] base] rip] cmp] st2|ret2 st2| |];
    (split; [intros st' Hrun|intros pos st3 ret st' Hpos Hrun]);
    try discriminate.
  destruct HX as (Hs2 & Hr2 & Hleaf & _).
  - pose proof (row_finish_exits E key write pg wg base rip cmp st2) as HF.
    rewrite Hrun in HF. destruct HF as (st1 & rip' & cmp' & F & ->).
    exists pg. split; [reflexivity|].
    destruct F as (_ & Hpg & _ & _ & Hhz & _). split.
    + destruct Hleaf as (p & d & upd & ins & Hp & Hu).
      exists p, d, upd, ins. simpl. now rewrite Hpg.
    + simpl. now rewrite Hhz, Hs2.
  - injection Hpos as <- <-.
    destruct HX as (Hs2 & Hr2 & Hleaf & _).
    pose proof (row_finish_exits E key write pg wg base rip cmp st2) as HF.
    rewrite Hrun in HF. destruct HF as (-> & st1 & F & ->).
    split; [reflexivity|]. split; [now rewrite Hs2|].
    destruct F as (Hroot & _ & _ & _ & Hhz & Hsp & _).
    destruct (page_out_pins pg (hazard (session st)) st1) as [Hs' _].
    { now rewrite Hhz, Hroot, Hr2, Hs2. }
    rewrite Hs'. simpl. now rewrite Hsp, Hs2.
Qed.

Lemma leaf_pin_on_exit_witness :
  exists st',
    __wt_row_search sample_env 2 ["d"%byte] true sample_state = Ret tt st' /\
    srch_page (session st') = Some 2%nat /\
    hazard (session st') = [2%nat].
Proof.
  destruct (leaf_pin_on_exit sample_env 2 ["d"%byte] true sample_state
              eq_refl) as [Hret _].
  edestruct Hret as (leaf & Hpage & _ & Hhz); [vm_compute; reflexivity|].
  eexists. split; [vm_compute; reflexivity|].
  injection Hpage as <-. split; [reflexivity|exact Hhz].
Defined.

(** C6 as stated fails: the search for the absent key "e" pins leaf 2 on
    the way down and returns WT_NOTFOUND with no hazard reference left
    and no page in the result. *)
Lemma notfound_releases_leaf_pin :
  exists pos st2 st',
    row_position sample_env 2 ["e"%byte] sample_state = Ret pos st2 /\
    hazard (session st2) = [2%nat] /\
    __wt_row_search sample_env 2 ["e"%byte] false sample_state
    = Err (WT_NOTFOUND sample_env) st' /\
    hazard (session st') = [] /\
    srch_page (session st') = None.
Proof.
  do 3 eexists. split; [vm_compute; reflexivity|].
  split; [reflexivity|]. split; [vm_compute; reflexivity|].
  split; reflexivity.
Qed.


(* ================================================================== *)
(** ** Errors from the collaborators *)
(* ================================================================== *)

(** The only other non-zero return of the search is WT_NOTFOUND. *)
Lemma search_error_origin E depth key write st ret st' :
  __wt_row_search E depth key write st = Err ret st' ->
  row_position E depth key st = Err ret st' \/ ret = WT_NOTFOUND E.
Proof.
  unfold __wt_row_search, bind.
  destruct (row_position E depth key st)
    as [[[[[pg wg] base] rip] cmp] st2|ret2 st2| |]; try discriminate.
  - intros Hrun. right.
    pose proof (row_finish_exits E key write pg wg base rip cmp st2) as HF.
    rewrite Hrun in HF. tauto.
  - intros [= -> ->]. now left.
Qed.

(* ================================================================== *)
(** ** The publish of a materialized key *)
(* ================================================================== *)

Lemma ptr_eqb_eq p q : ptr_eqb p q = true <-> p = q.
Proof.
  destruct p, q; simpl; split; intros H; try discriminate; try reflexivity.
  - apply Z.eqb_eq in H. now subst.
  - injection H as ->. apply Z.eqb_refl.
  - apply Nat.eqb_eq in H. now subst.
  - injection H as ->. apply Nat.eqb_refl.
Qed.

Lemma serial_func_result pg indx tmp st k :
  load_row st pg indx = Some k ->
  __wt_key_build_serial_func pg indx tmp st
  = Ret tt (store_row pg indx (publish_row tmp) st) /\
  load_row (store_row pg indx (publish_row tmp) st) pg indx
  = Some (publish_row tmp k).
Proof.
  intros Hk. unfold __wt_key_build_serial_func. rewrite Hk.
  split; [reflexivity|]. now apply load_store_row_eq.
Qed.

(** Materializing one slot keeps every slot of the cache pending or
    resident. *)
Lemma key_materialize_slot_ok E pg indx st st' :
  heap_wf st = true ->
  key_materialize E pg indx st = Ret tt st' ->
  forall pg' q q' i r r',
    pages st !! pg' = Some q -> page_rows q !! i = Some r ->
    slot_ok st q r ->
    pages st' !! pg' = Some q' -> page_rows q' !! i = Some r' ->
    slot_ok st' q' r'.
Proof.
  intros Hwf Hrun pg' q q' i r r' Hq Hr Hok Hq' Hr'.
  apply Is_true_true in Hwf.
  pose proof (key_materialize_cases E pg indx st) as C. rewrite Hrun in C.
  destruct C as [->|(p & off & b & Hp & Hrow & Hcell & ->)].
  { rewrite Hq in Hq'. injection Hq' as <-.
    rewrite Hr in Hr'. now injection Hr' as <-. }
  pose proof (frame_publish E (fun _ => True) pg indx st p off b
                (fun _ _ => I) Hp Hrow Hcell) as F.
  set (st1 := store_row pg indx
                (publish_row (mkBUF (length (bufs st))
                                    (POffPage (length (bufs st)))
                                    (Z.of_nat (length b))))
                (alloc b (log (EvCellProcess pg off) st))) in *.
  assert (Hrow0 : page_rows p !! Z.to_nat indx = Some (mkROW (POnPage off) 0)).
  { unfold load_row in Hrow. rewrite Hp in Hrow. exact Hrow. }
  destruct (decide (pg' = pg /\ i = Z.to_nat indx)) as [[-> ->]|Hne].
  - (* the slot that was published *)
    rewrite Hp in Hq. injection Hq as <-.
    rewrite Hrow0 in Hr. injection Hr as <-.
    destruct (fr_keys _ _ _ _ F Hwf pg p (Z.to_nat indx) _ b Hp Hrow0)
      as (p2 & r2 & Hp2 & Hr2 & Hk2).
    { unfold slot_key. simpl. now rewrite Hcell. }
    rewrite Hq' in Hp2. injection Hp2 as <-.
    rewrite Hr' in Hr2. injection Hr2 as <-.
    destruct (Z.eq_dec (row_size r') 0) as [Hz|Hz]; [now left|right].
    assert (Hsz : row_size r' = Z.of_nat (length b)).
    { revert Hq' Hr'. subst st1. simpl. rewrite list_lookup_alter_eq, Hp.
      simpl. intros [= <-].
      rewrite page_rows_store, list_lookup_alter_eq, Hrow0. simpl.
      intros [= <-].
      unfold publish_row, key_build_serial_ops, __wt_key_process. simpl.
      reflexivity. }
    split; [lia|].
    unfold slot_key, __wt_key_process in Hk2.
    apply Z.eqb_neq in Hz. rewrite Hz in Hk2. eauto.
  - (* every other slot is the row it was *)
    assert (Hsame : r' = r /\ dsk q' = dsk q).
    { revert Hq' Hr'. subst st1. simpl.
      destruct (decide (pg' = pg)) as [->|Hpg].
      - rewrite list_lookup_alter_eq, Hq. simpl. intros [= <-].
        rewrite page_rows_store, list_lookup_alter_ne
          by (intros Heq; apply Hne; split; congruence).
        rewrite Hr. intros [= <-]. auto.
      - rewrite list_lookup_alter_ne by congruence. rewrite Hq.
        intros [= <-]. rewrite Hr. intros [= <-]. auto. }
    destruct Hsame as [-> Hd].
    destruct Hok as [Hz|[Hpos [x Hx]]]; [now left|right].
    split; [exact Hpos|]. exists x.
    now apply (item_bytes_ext st st1 q q' r x [b]).
Qed.

(* ================================================================== *)
(** ** Materialization is idempotent *)
(* ================================================================== *)

Lemma key_materialize_resident E pg indx st k :
  load_row st pg indx = Some k -> row_size k <> 0 ->
  key_materialize E pg indx st = Ret tt st.
Proof.
  intros Hk Hsz. unfold key_materialize, __wt_key_process. rewrite Hk.
  apply Z.eqb_neq in Hsz. now rewrite Hsz.
Qed.

Lemma key_build_off_page E pg indx st p k :
  pages st !! pg = Some p -> load_row st pg indx = Some k ->
  (forall off, row_key k <> POnPage off) ->
  __wt_key_build E pg indx st = Ret tt st.
Proof.
  intros Hp Hk Hoff. unfold __wt_key_build, bind, key_build_instantiate.
  rewrite Hp, Hk. destruct (row_key k) as [|off|a]; simpl; try reflexivity.
  now destruct (Hoff off).
Qed.

Lemma key_materialize_again E pg indx st st1 :
  key_materialize E pg indx st = Ret tt st1 ->
  key_materialize E pg indx st1 = Ret tt st1.
Proof.
  intros H. pose proof (key_materialize_cases E pg indx st) as C.
  rewrite H in C.
  destruct C as [->|(p & off & b & Hp & Hrow & Hcell & ->)]; [exact H|].
  set (tmp := mkBUF (length (bufs st)) (POffPage (length (bufs st)))
                    (Z.of_nat (length b))).
  set (st0 := alloc b (log (EvCellProcess pg off) st)).
  assert (Hrow1 : load_row (store_row pg indx (publish_row tmp) st0) pg indx
                  = Some (mkROW (POffPage (length (bufs st)))
                                (Z.of_nat (length b)))).
  { erewrite load_store_row_eq by exact Hrow. reflexivity. }
  unfold key_materialize. rewrite Hrow1. unfold __wt_key_process. simpl.
  destruct (Z.of_nat (length b) =? 0); [|reflexivity].
  eapply key_build_off_page; [|exact Hrow1|discriminate].
  simpl. rewrite list_lookup_alter_eq. subst st0. simpl. now rewrite Hp.
Qed.

Lemma materialize_n_fixed E pg indx s n :
  key_materialize E pg indx s = Ret tt s ->
  materialize_n E pg indx n s = Ret tt s.
Proof.
  intros H. induction n as [|n IH]; [reflexivity|].
  simpl. now rewrite H.
Qed.

Lemma materialize_n_once E pg indx st st1 n :
  key_materialize E pg indx st = Ret tt st1 ->
  materialize_n E pg indx (S n) st = Ret tt st1.
Proof.
  intros H. simpl. rewrite H.
  apply materialize_n_fixed. eapply key_materialize_again; eauto.
Qed.

Lemma key_build_publish_result pg indx tmp st k :
  load_row st pg indx = Some k ->
  let st1 := store_row pg indx (publish_row tmp) st in
  load_row st1 pg indx = Some (publish_row tmp k) /\
  key_build_publish pg indx tmp st
  = Ret tt (if ptr_eqb (row_key (publish_row tmp k)) (item_data tmp)
            then st1 else __wt_free (buf_mem tmp) st1).
Proof.
  intros Hk st1. subst st1.
  destruct (serial_func_result pg indx tmp st k Hk) as [Hrun Hl].
  split; [exact Hl|].
  unfold key_build_publish, bind. rewrite Hrun, Hl.
  now destruct (ptr_eqb (row_key (publish_row tmp k)) (item_data tmp)).
Qed.

(** X10.  Two threads that both decoded a pending key before either
    published.  When the key has at least one byte the first publish
    wins: the second finds the slot resident, leaves it alone and frees
    its own buffer.  When the cell decodes to a key of length 0 the first
    publish leaves the size 0, so the second publish stores its own
    pointer over the first and neither buffer is freed.  Either way the
    slot ends up reading as the decoded key. *)
Lemma key_build_race E pg indx st p off b :
  heap_wf st = true ->
  pages st !! pg = Some p ->
  load_row st pg indx = Some (mkROW (POnPage off) 0) ->
  cell_process E (dsk p) off = (0, b) ->
  exists tmp1 tmp2 st1 st2 st3 st4 p4 k4,
    key_build_instantiate E pg indx st = Ret (Some tmp1) st1 /\
    key_build_instantiate E pg indx st1 = Ret (Some tmp2) st2 /\
    key_build_publish pg indx tmp1 st2 = Ret tt st3 /\
    key_build_publish pg indx tmp2 st3 = Ret tt st4 /\
    buf_mem tmp1 <> buf_mem tmp2 /\
    load_row st4 pg indx = Some k4 /\
    pages st4 !! pg = Some p4 /\
    item_bytes st4 p4 k4 = Some b /\
    (b <> [] ->
     k4 = mkROW (item_data tmp1) (Z.of_nat (length b)) /\
     freed st4 = buf_mem tmp2 :: freed st) /\
    (b = [] ->
     k4 = mkROW (item_data tmp2) 0 /\ freed st4 = freed st).
Proof.
  intros Hwf Hp Hrow Hcell. apply Is_true_true in Hwf.
  set (a1 := length (bufs st)).
  set (tmp1 := mkBUF a1 (POffPage a1) (Z.of_nat (length b))).
  set (tmp2 := mkBUF (S a1) (POffPage (S a1)) (Z.of_nat (length b))).
  set (st1 := alloc b (log (EvCellProcess pg off) st)).
  set (st2 := alloc b (log (EvCellProcess pg off) st1)).
  assert (Hi1 : key_build_instantiate E pg indx st = Ret (Some tmp1) st1).
  { unfold key_build_instantiate. rewrite Hp, Hrow. simpl.
    now rewrite Hcell. }
  assert (Hi2 : key_build_instantiate E pg indx st1 = Ret (Some tmp2) st2).
  { unfold key_build_instantiate.
    change (pages st1) with (pages st).
    change (load_row st1 pg indx) with (load_row st pg indx).
    rewrite Hp, Hrow. simpl. rewrite Hcell. simpl.
    subst tmp2 st2 a1. rewrite length_app. simpl.
    replace (length (bufs st) + 1)%nat with (S (length (bufs st))) by lia.
    reflexivity. }
  assert (Hrow2 : load_row st2 pg indx = Some (mkROW (POnPage off) 0))
    by exact Hrow.
  destruct (key_build_publish_result pg indx tmp1 st2 _ Hrow2) as [Hl3 Hp3].
  set (st3 := store_row pg indx (publish_row tmp1) st2) in *.
  assert (Hk3 : publish_row tmp1 (mkROW (POnPage off) 0)
                = mkROW (POffPage a1) (Z.of_nat (length b))) by reflexivity.
  rewrite Hk3 in Hl3, Hp3. simpl in Hp3. rewrite Nat.eqb_refl in Hp3.
  destruct (key_build_publish_result pg indx tmp2 st3 _ Hl3) as [Hl4 Hp4].
  set (st4 := store_row pg indx (publish_row tmp2) st3) in *.
  assert (Hne : Nat.eqb a1 (S a1) = false) by (apply Nat.eqb_neq; lia).
  assert (Hmem : buf_mem tmp1 <> buf_mem tmp2) by (simpl; lia).
  destruct (pages st4 !! pg) as [p4|] eqn:Hp4'.
  2:{ unfold load_row in Hl4. rewrite Hp4' in Hl4. discriminate. }
  destruct (Z.of_nat (length b) =? 0) eqn:Hlen.
  - (* a key of length 0: the second publish overwrites the first *)
    assert (Hb : b = []).
    { apply Z.eqb_eq in Hlen. destruct b; [reflexivity|simpl in Hlen; lia]. }
    assert (Hk4 : publish_row tmp2 (mkROW (POffPage a1) (Z.of_nat (length b)))
                  = mkROW (POffPage (S a1)) 0).
    { subst b. reflexivity. }
    rewrite Hk4 in Hl4, Hp4. simpl in Hp4. rewrite Nat.eqb_refl in Hp4.
    exists tmp1, tmp2, st1, st2, st3, st4, p4, (mkROW (POffPage (S a1)) 0).
    split; [exact Hi1|]. split; [exact Hi2|]. split; [exact Hp3|].
    split; [exact Hp4|]. split; [exact Hmem|]. split; [exact Hl4|].
    split; [exact Hp4'|]. split; [now subst b|].
    split; [intros Hnb; contradiction|]. intros _. split; reflexivity.
  - (* at least one byte: the first publish wins *)
    assert (Hb : b <> []).
    { apply Z.eqb_neq in Hlen. intros ->. now apply Hlen. }
    assert (Hk4 : publish_row tmp2 (mkROW (POffPage a1) (Z.of_nat (length b)))
                  = mkROW (POffPage a1) (Z.of_nat (length b))).
    { unfold publish_row, key_build_serial_ops, __wt_key_process. simpl.
      now rewrite Hlen. }
    rewrite Hk4 in Hl4, Hp4. simpl in Hp4. rewrite Hne in Hp4.
    exists tmp1, tmp2, st1, st2, st3, (__wt_free (S a1) st4), p4,
      (mkROW (POffPage a1) (Z.of_nat (length b))).
    split; [exact Hi1|]. split; [exact Hi2|]. split; [exact Hp3|].
    split; [exact Hp4|]. split; [exact Hmem|]. split; [exact Hl4|].
    split; [exact Hp4'|]. split.
    + unfold item_bytes. simpl. rewrite Hlen.
      rewrite bool_decide_eq_false_2.
      2:{ intros Hin. apply elem_of_cons in Hin as [Hin|Hin]; [lia|].
          pose proof (proj1 (heap_wf_spec st) Hwf _ Hin). lia. }
      replace ((bufs st ++ [b]) ++ [b]) with (bufs st ++ [b; b])
        by now rewrite <- app_assoc.
      rewrite (list_lookup_middle (bufs st) [b] b a1 eq_refl). simpl.
      rewrite Z.leb_refl, Nat2Z.id. now rewrite firstn_all.
    + split; [intros _; split; reflexivity|]. intros Hnb. contradiction.
Qed.

(** C8.  A slot whose key is resident is left exactly as it is, with no
    decode and no allocation, and so is a slot another thread has already
    pointed off-page; materializing a slot once more, any number of
    times, ends in the state the first materialization left, with the
    slot holding the decoded key; and a publish after which the slot does
    not point at the thread's own buffer frees that buffer. *)
Theorem key_materialize_idempotent E pg indx st :
  (forall k,
      load_row st pg indx = Some k -> row_size k <> 0 ->
      key_materialize E pg indx st = Ret tt st) /\
  (forall p k,
      pages st !! pg = Some p -> load_row st pg indx = Some k ->
      (forall off, row_key k <> POnPage off) ->
      __wt_key_build E pg indx st = Ret tt st) /\
  (forall st1 n,
      key_materialize E pg indx st = Ret tt st1 ->
      materialize_n E pg indx (S n) st = Ret tt st1) /\
  (forall p r k n,
      heap_wf st = true -> pages st !! pg = Some p ->
      page_rows p !! Z.to_nat indx = Some r ->
      slot_key E st p r = Some k ->
      exists st1 p1 r1,
        materialize_n E pg indx (S n) st = Ret tt st1 /\
        pages st1 !! pg = Some p1 /\
        page_rows p1 !! Z.to_nat indx = Some r1 /\
        item_bytes st1 p1 r1 = Some k) /\
  (forall tmp st' k',
      key_build_publish pg indx tmp st = Ret tt st' ->
      load_row st' pg indx = Some k' ->
      (row_key k' <> item_data tmp ->
       freed st' = buf_mem tmp :: freed st) /\
      (row_key k' = item_data tmp -> freed st' = freed st)).
Proof.
  split; [intros k; apply key_materialize_resident|].
  split; [intros p k; apply key_build_off_page|].
  split; [intros st1 n; apply materialize_n_once|].
  split.
  - intros p r k n Hwf Hp Hr Hk. apply Is_true_true in Hwf.
    destruct (key_materialize_ok E (fun _ => True) pg indx st p r k
                (fun _ _ => I) Hwf Hp Hr Hk)
      as (st1 & p1 & r1 & Hm & _ & Hp1 & Hr1 & Hb).
    exists st1, p1, r1. split; [now apply materialize_n_once|auto].
  - intros tmp st' k' Hrun Hk'.
    destruct (load_row st pg indx) as [k|] eqn:Hk.
    2:{ unfold key_build_publish, bind, __wt_key_build_serial_func in Hrun.
        rewrite Hk in Hrun. discriminate. }
    destruct (key_build_publish_result pg indx tmp st k Hk) as [Hl Hres].
    rewrite Hres in Hrun. injection Hrun as <-.
    destruct (ptr_eqb (row_key (publish_row tmp k)) (item_data tmp)) eqn:Heq.
    + rewrite Hl in Hk'. injection Hk' as <-.
      apply ptr_eqb_eq in Heq. split; [intros Hne; now destruct Hne|].
      reflexivity.
    + assert (Hk2 : k' = publish_row tmp k).
      { unfold load_row in *. simpl in *. congruence. }
      subst k'. split; [reflexivity|].
      intros Heq'. apply ptr_eqb_eq in Heq'. congruence.
Qed.

Lemma key_materialize_idempotent_witness :
  (exists st1,
      materialize_n sample_env 0 0 3 pending_state = Ret tt st1 /\
      key_materialize sample_env 0 0 pending_state = Ret tt st1 /\
      load_row st1 0 0 = Some (mkROW (POffPage 0) 1) /\
      bufs st1 = [["f"%byte]]) /\
  (exists st',
      key_build_publish 0 0 (mkBUF 1 (POffPage 1) 1) raced_state = Ret tt st' /\
      load_row st' 0 0 = Some (mkROW (POffPage 0) 1) /\
      freed st' = [1%nat]).
Proof.
  destruct (key_materialize_idempotent sample_env 0 0 pending_state)
    as (_ & _ & Honce & _ & _).
  destruct (key_materialize_idempotent sample_env 0 0 raced_state)
    as (_ & _ & _ & _ & Hfree).
  split.
  - eexists. split; [apply Honce; vm_compute; reflexivity|].
    split; [vm_compute; reflexivity|]. split; reflexivity.
  - edestruct (Hfree (mkBUF 1 (POffPage 1) 1)) as [Hlose _];
      [vm_compute; reflexivity|vm_compute; reflexivity|].
    eexists. split; [vm_compute; reflexivity|].
    split; [reflexivity|]. apply Hlose. discriminate.
Defined.

(* ================================================================== *)
(** ** The leaf's binary search on an empty page *)
(* ================================================================== *)

(** C1, at the input where the code departs from it.  The root is a leaf
    with no slots: the loop of lines 133-152 does not run, [cmp] still
    holds the 0 of line 39, and line 158 takes the exact-match branch
    with [rip] NULL, where the linear scan reports a miss at index 0.
    ([leaf_search_linear_scan] is the agreement on every other sorted
    page.) *)
Theorem empty_leaf_reported_as_match E key :
  row_position E 0 key empty_state
  = Ret (0%nat, 0, 0, None, 0) (with_session srch_clear empty_state) /\
  linear_scan E key [] 0 = (false, 0) /\
  leaf_outcome 0 (0, None, 0) <> Some (linear_scan E key [] 0) /\
  __wt_row_search E 0 key true empty_state = Undef /\
  __wt_row_search E 0 key false empty_state = Undef.
Proof.
  repeat split; try reflexivity. discriminate.
Qed.

(* ================================================================== *)
(** ** The store across a whole search *)
(* ================================================================== *)

Lemma frame_store_frame E P st st' : frame E P st st' -> store_frame E st st'.
Proof. intros F. destruct F. constructor; assumption. Qed.

Lemma store_frame_refl E st : store_frame E st st.
Proof. apply (frame_store_frame E (fun _ => True)), frame_refl. Qed.

Lemma store_frame_heap_wf E st st' :
  store_frame E st st' -> heap_wf st -> heap_wf st'.
Proof.
  intros [_ Hf [l Hb] _ _]. rewrite !heap_wf_spec, Hf, Hb.
  intros H a Ha. specialize (H a Ha). rewrite length_app. lia.
Qed.

Lemma store_frame_trans E st1 st2 st3 :
  store_frame E st1 st2 -> store_frame E st2 st3 -> store_frame E st1 st3.
Proof.
  intros F1 F2. pose proof (store_frame_heap_wf _ _ _ F1) as Hwf.
  destruct F1 as [Hr1 Hf1 [l1 Hb1] Hp1 Hk1].
  destruct F2 as [Hr2 Hf2 [l2 Hb2] Hp2 Hk2].
  constructor; try congruence.
  - exists (l1 ++ l2). rewrite Hb2, Hb1. now rewrite app_assoc.
  - eapply Forall2_trans; [|exact Hp1|exact Hp2].
    intros ? ? ?. apply page_frame_trans.
  - intros H pg p i r k Hp Hr Hk.
    destruct (Hk1 H pg p i r k Hp Hr Hk) as (p' & r' & Hp' & Hr' & Hk').
    exact (Hk2 (Hwf H) pg p' i r' k Hp' Hr' Hk').
Qed.

Lemma slot_key_same E st st' p r :
  bufs st' = bufs st -> freed st' = freed st ->
  slot_key E st' p r = slot_key E st p r.
Proof.
  intros Hb Hf. unfold slot_key, item_bytes. now rewrite Hb, Hf.
Qed.

(** A state that agrees with [st1] on the store is in the same frame. *)
Lemma store_frame_same_r E st st1 st2 :
  root_page st2 = root_page st1 -> pages st2 = pages st1 ->
  bufs st2 = bufs st1 -> freed st2 = freed st1 ->
  store_frame E st st1 -> store_frame E st st2.
Proof.
  intros Hr Hp Hb Hf [Hr1 Hf1 Hb1 Hp1 Hk1].
  constructor; [congruence|congruence|now rewrite Hb|now rewrite Hp|].
  intros H pg p i r k Hpg Hrow Hk.
  destruct (Hk1 H pg p i r k Hpg Hrow Hk) as (p' & r' & Hp' & Hr' & Hk').
  exists p', r'. rewrite Hp. split; [exact Hp'|]. split; [exact Hr'|].
  now rewrite (slot_key_same E st1 st2 p' r' Hb Hf).
Qed.

Lemma same_srch_refl s : same_srch s s.
Proof. unfold same_srch. now rewrite set_hazard_same. Qed.

Lemma same_srch_trans s1 s2 s3 :
  same_srch s1 s2 -> same_srch s2 s3 -> same_srch s1 s3.
Proof. unfold same_srch. intros H1 H2. rewrite H2, H1. reflexivity. Qed.

Lemma same_srch_set_hazard s h : same_srch s (set_hazard h s).
Proof. reflexivity. Qed.

Lemma hazard_step_page_out pg st : hazard_step st (WT_PAGE_OUT pg st).
Proof.
  unfold hazard_step, WT_PAGE_OUT.
  destruct (negb (Nat.eqb pg (root_page st))); simpl.
  - repeat (split; [reflexivity|]). apply same_srch_set_hazard.
  - repeat (split; [reflexivity|]). apply same_srch_refl.
Qed.

Lemma store_frame_hazard_step E st st1 st2 :
  store_frame E st st1 -> hazard_step st1 st2 -> store_frame E st st2.
Proof.
  intros F (Hr & Hp & Hb & Hf & _ & _).
  now apply (store_frame_same_r E st st1 st2).
Qed.

Lemma is_leaf_store E st st' pg :
  store_frame E st st' -> is_leaf st pg -> is_leaf st' pg.
Proof.
  intros F (p & d & upd & ins & Hp & Hu).
  destruct (Forall2_lookup_l _ _ _ _ _ (sf_pages _ _ _ F) Hp)
    as (p' & Hp' & Hpp).
  apply page_frame_refs in Hpp. rewrite Hu in Hpp.
  destruct (page_u p') as [|d' upd' ins'] eqn:Hu'; [tauto|].
  exists p', d', upd', ins'. auto.
Qed.

(** The descent changes the store by key materialization only, and the
    session in its hazard references only. *)
Lemma tree_descend_store E key depth :
  forall pg rref cmp st,
    match tree_descend E depth key pg rref cmp st with
    | Ret (leaf, _) st' =>
        store_frame E st st' /\ same_srch (session st) (session st') /\
        is_leaf st' leaf
    | Err ret st' =>
        collab_error E ret /\ store_frame E st st' /\
        same_srch (session st) (session st')
    | Undef | OutOfFuel => True
    end.
Proof.
  induction depth as [|depth IH]; intros pg rref cmp st.
  - simpl. destruct (pages st !! pg) as [p|] eqn:Hp; [|exact I].
    destruct (page_u p) eqn:Hu; [exact I|].
    split; [apply store_frame_refl|]. split; [apply same_srch_refl|].
    exists p. eauto.
  - simpl. destruct (pages st !! pg) as [p|] eqn:Hp; [|exact I].
    destruct (page_u p) as [t|d upd ins] eqn:Hu.
    2:{ split; [apply store_frame_refl|]. split; [apply same_srch_refl|].
        exists p. eauto. }
    pose proof (int_select_exits E key pg (indx_count p) rref cmp st) as HS.
    destruct (int_select E key pg (indx_count p) rref cmp st)
      as [[[[rp ri]|] cmp'] st1|ret st1| |]; auto.
    + pose proof (frame_store_frame _ _ _ _ HS) as F1.
      assert (S1 : same_srch (session st) (session st1)).
      { rewrite (fr_session _ _ _ _ HS). apply same_srch_refl. }
      destruct (load_ref st1 rp ri) as [child|] eqn:Hchild; [|exact I].
      unfold WT_ERR, __wt_page_in.
      destruct (page_in E child =? 0) eqn:Hpin; simpl.
      * match goal with
        | |- match tree_descend _ _ _ _ _ _ ?s with _ => _ end =>
            set (st3 := s)
        end.
        assert (H3 : hazard_step st1 st3).
        { subst st3. unfold hazard_step.
          destruct (negb (Nat.eqb pg (root_page st1))); simpl;
            repeat (split; [reflexivity|]); reflexivity. }
        pose proof (store_frame_hazard_step _ _ _ _ F1 H3) as F3.
        assert (S3 : same_srch (session st) (session st3)).
        { eapply same_srch_trans; [exact S1|apply H3]. }
        specialize (IH child (Some (rp, ri)) cmp' st3).
        destruct (tree_descend E depth key child (Some (rp, ri)) cmp' st3)
          as [[leaf c'] st'|ret st'| |]; auto.
        -- destruct IH as (F & S & L). split; [|split; [|exact L]].
           ++ eapply store_frame_trans; eauto.
           ++ eapply same_srch_trans; eauto.
        -- destruct IH as (C & F & S). split; [exact C|]. split.
           ++ eapply store_frame_trans; eauto.
           ++ eapply same_srch_trans; eauto.
      * apply Z.eqb_neq in Hpin. unfold goto_err.
        pose proof (hazard_step_page_out pg st1) as H3.
        split; [split; [exact Hpin|left; eauto]|]. split.
        -- eapply store_frame_hazard_step; eauto.
        -- eapply same_srch_trans; [exact S1|apply H3].
    + destruct HS as (Hce & st2 & F & ->).
      pose proof (hazard_step_page_out pg st2) as H3.
      split; [exact Hce|]. split.
      * eapply store_frame_hazard_step; [|exact H3].
        eapply frame_store_frame; eauto.
      * eapply same_srch_trans; [|apply H3].
        rewrite (fr_session _ _ _ _ F). apply same_srch_refl.
Qed.

Lemma row_position_store E depth key st :
  match row_position E depth key st with
  | Ret (pg, wg, _, _, _) st' =>
      store_frame E st st' /\
      same_srch (srch_clear (session st)) (session st') /\
      is_leaf st' pg /\
      (forall page, pages st' !! pg = Some page -> wg = write_gen page)
  | Err ret st' =>
      collab_error E ret /\ store_frame E st st' /\
      same_srch (srch_clear (session st)) (session st')
  | Undef | OutOfFuel => True
  end.
Proof.
  unfold row_position. set (st0 := with_session srch_clear st).
  assert (F0 : store_frame E st st0).
  { apply (store_frame_same_r E st st st0); try reflexivity.
    apply store_frame_refl. }
  pose proof (tree_descend_store E key depth (root_page st0) None 0 st0) as HD.
  destruct (tree_descend E depth key (root_page st0) None 0 st0)
    as [[pg cmp] st1|ret st1| |]; auto.
  - destruct HD as (F1 & S1 & L1).
    destruct (pages st1 !! pg) as [page|] eqn:Hp; [|exact I].
    pose proof (leaf_search_exits E key pg (search_fuel (indx_count page)) 0
                  (indx_count page) None cmp st1) as HL.
    destruct (leaf_search E (search_fuel (indx_count page)) key pg 0
                (indx_count page) None cmp st1)
      as [[[base rip] cmp'] st2|ret st2| |]; auto.
    + destruct HL as [F _].
      split; [|split; [|split]].
      * eapply store_frame_trans; [exact F0|].
        eapply store_frame_trans; [exact F1|].
        eapply frame_store_frame; eauto.
      * rewrite (fr_session _ _ _ _ F). exact S1.
      * eapply is_leaf_frame; eauto.
      * intros page2 Hp2.
        destruct (indx_count_frame _ _ _ _ _ _ _ F Hp Hp2) as [_ Hwg].
        congruence.
    + destruct HL as (Hce & st2' & F & ->).
      pose proof (hazard_step_page_out pg st2') as H3.
      split; [exact Hce|]. split.
      * eapply store_frame_trans; [exact F0|].
        eapply store_frame_trans; [exact F1|].
        eapply store_frame_hazard_step; [|exact H3].
        eapply frame_store_frame; eauto.
      * eapply same_srch_trans; [exact S1|].
        eapply same_srch_trans; [|apply H3].
        rewrite (fr_session _ _ _ _ F). apply same_srch_refl.
  - destruct HD as (C & F1 & S1). split; [exact C|]. split; [|exact S1].
    eapply store_frame_trans; eauto.
Qed.

Lemma finish_frame_store E st st1 : finish_frame st st1 -> store_frame E st st1.
Proof.
  intros (Hr & Hp & Hb & Hf & _).
  apply (store_frame_same_r E st st st1); auto. apply store_frame_refl.
Qed.

Lemma row_search_store E depth key write st st' :
  final_state (__wt_row_search E depth key write st) = Some st' ->
  store_frame E st st'.
Proof.
  unfold __wt_row_search, bind.
  pose proof (row_position_store E depth key st) as HP.
  destruct (row_position E depth key st)
    as [[[[[pg wg] base] rip] cmp] st2|ret2 st2| |]; try discriminate.
  - destruct HP as (F2 & _).
    pose proof (row_finish_exits E key write pg wg base rip cmp st2) as HF.
    destruct (row_finish E key write pg wg base rip cmp st2)
      as [[] st3|ret3 st3| |]; try discriminate.
    + intros [= <-]. destruct HF as (st1 & rip' & cmp' & FF & ->).
      eapply store_frame_trans; [exact F2|].
      eapply (store_frame_same_r E st2 st1); try reflexivity.
      now apply finish_frame_store.
    + intros [= <-]. destruct HF as (_ & st1 & FF & ->).
      eapply store_frame_trans; [exact F2|].
      eapply store_frame_hazard_step; [|apply hazard_step_page_out].
      now apply finish_frame_store.
  - intros [= <-]. apply HP.
Qed.

Lemma keys_of_store E st st' pg ks :
  store_frame E st st' -> heap_wf st -> keys_of E st pg ks ->
  keys_of E st' pg ks.
Proof.
  intros F Hwf (p & Hp & Hks).
  destruct (Forall2_lookup_l _ _ _ _ _ (sf_pages _ _ _ F) Hp)
    as (p' & Hp' & Hpp).
  exists p'. split; [exact Hp'|].
  apply Forall2_same_length_lookup. split.
  - rewrite (page_frame_rows_length _ _ Hpp). eapply Forall2_length; eauto.
  - intros i r' k Hr' Hk.
    destruct (Forall2_lookup_r _ _ _ _ _ Hks Hk) as (r & Hr & Hrk).
    destruct (sf_keys _ _ _ F Hwf pg p i r k Hp Hr Hrk)
      as (p2 & r2 & Hp2 & Hr2 & Hk2).
    rewrite Hp' in Hp2. injection Hp2 as <-.
    rewrite Hr' in Hr2. injection Hr2 as <-. exact Hk2.
Qed.

Lemma keys_of_page_keys E st pg ks :
  keys_of E st pg ks -> page_keys E st pg = Some ks.
Proof.
  intros (p & Hp & Hks). unfold page_keys. rewrite Hp. simpl.
  now apply mapM_Some.
Qed.

(** X1.  Whatever it returns, a search leaves every page's image,
    write generation, slot count, child references and update and insert
    arrays as they were, frees no buffer and only adds buffers to the
    heap: the key slots it materializes are all it writes on a page. *)
Theorem search_leaves_pages_alone E depth key write st st' :
  final_state (__wt_row_search E depth key write st) = Some st' ->
  root_page st' = root_page st /\ freed st' = freed st /\
  (exists l, bufs st' = bufs st ++ l) /\
  length (pages st') = length (pages st) /\
  forall pg p,
    pages st !! pg = Some p ->
    exists p',
      pages st' !! pg = Some p' /\ page_frame p p' /\
      indx_count p' = indx_count p.
Proof.
  intros Hrun. apply row_search_store in Hrun.
  destruct Hrun as [Hr Hf Hb Hp _].
  split; [exact Hr|]. split; [exact Hf|]. split; [exact Hb|].
  split; [symmetry; eapply Forall2_length; eauto|].
  intros pg p Hpg.
  destruct (Forall2_lookup_l _ _ _ _ _ Hp Hpg) as (p' & Hp' & Hpp).
  exists p'. split; [exact Hp'|]. split; [exact Hpp|].
  unfold indx_count. now rewrite (page_frame_rows_length _ _ Hpp).
Qed.

Lemma search_leaves_pages_alone_witness :
  exists st',
    __wt_row_search sample_env 2 ["f"%byte] false sample_state = Ret tt st' /\
    freed st' = [] /\ bufs st' = [["f"%byte]] /\
    exists p', pages st' !! 2%nat = Some p' /\ page_frame sample_leaf2 p'.
Proof.
  edestruct (search_leaves_pages_alone sample_env 2 ["f"%byte] false
               sample_state) as (_ & Hf & _ & _ & Hpg);
    [vm_compute; reflexivity|].
  destruct (Hpg 2%nat sample_leaf2 eq_refl) as (p' & Hp' & Hpp & _).
  eexists. split; [vm_compute; reflexivity|].
  split; [exact Hf|]. split; [reflexivity|].
  exists p'. split; [exact Hp'|exact Hpp].
Defined.

(** X2.  Whatever it returns, a search keeps the heap well formed
    and leaves the keys of every page, as the comparator reads them, the
    same: materializing a key changes where its bytes live, not the
    bytes. *)
Theorem search_preserves_keys E depth key write st st' :
  heap_wf st = true ->
  final_state (__wt_row_search E depth key write st) = Some st' ->
  heap_wf st' = true /\
  forall pg ks, page_keys E st pg = Some ks -> page_keys E st' pg = Some ks.
Proof.
  intros Hwf Hrun. apply Is_true_true in Hwf.
  apply row_search_store in Hrun. split.
  - apply Is_true_true. eapply store_frame_heap_wf; eauto.
  - intros pg ks Hks. apply keys_of_page_keys.
    eapply keys_of_store; eauto. now apply page_keys_of.
Qed.

Lemma search_preserves_keys_witness :
  exists st',
    __wt_row_search sample_env 2 ["f"%byte] false sample_state = Ret tt st' /\
    load_row sample_state 2 1 = Some (mkROW (POnPage 3) 0) /\
    load_row st' 2 1 = Some (mkROW (POffPage 0) 1) /\
    page_keys sample_env st' 2 = Some [["d"]; ["f"]; ["g"]]%byte.
Proof.
  edestruct (search_preserves_keys sample_env 2 ["f"%byte] false
               sample_state) as (_ & Hks);
    [reflexivity|vm_compute; reflexivity|].
  eexists. split; [vm_compute; reflexivity|].
  split; [reflexivity|]. split; [reflexivity|].
  apply Hks. reflexivity.
Defined.

(* ================================================================== *)
(** ** What the search reports *)
(* ================================================================== *)

Lemma row_finish_ret E key write pg wg base rip cmp st st' :
  srch_upd (session st) = None -> srch_vupdate (session st) = None ->
  row_finish E key write pg wg base rip cmp st = Ret tt st' ->
  srch_page (session st') = Some pg /\
  srch_write_gen (session st') = wg /\
  pages st' = pages st /\
  (srch_match (session st') = 1 \/
   (write = true /\ srch_match (session st') = 0 /\
    srch_upd (session st') = None)) /\
  match srch_upd (session st') with
  | Some r =>
      load_upd st' pg r = Some (srch_vupdate (session st')) /\
      (write = false ->
       forall u, srch_vupdate (session st') = Some u ->
                 WT_UPDATE_DELETED_ISSET u = false)
  | None => srch_vupdate (session st') = None
  end.
Proof.
  intros Hu0 Hv0. unfold row_finish.
  destruct (pages st !! pg) as [page|] eqn:Hp; [|discriminate].
  destruct (page_u page) as [|d upd ins] eqn:Hu; [discriminate|].
  destruct (cmp =? 0) eqn:Hc.
  - destruct (WT_ROW_INDX_SLOT pg rip) as [slot|]; [|discriminate].
    destruct upd as [us|].
    + destruct (us !! Z.to_nat slot) as [u|] eqn:Hus; [|discriminate].
      unfold row_done. simpl.
      assert (Hl : forall s c, load_upd (mkSTATE s (root_page st) (pages st)
                                   (bufs st) (freed st) c) pg (UpdSlot slot)
                         = Some u).
      { intros s c. unfold load_upd. simpl. rewrite Hp. simpl. rewrite Hu.
        simpl. exact Hus. }
      destruct write; simpl.
      * intros [= <-]. simpl. rewrite Hc.
        split; [reflexivity|]. split; [reflexivity|]. split; [reflexivity|].
        split; [now left|]. split; [apply Hl|discriminate].
      * unfold with_session at 1. simpl. rewrite Hl.
        destruct u as [u|].
        -- destruct (WT_UPDATE_DELETED_ISSET u) eqn:Hdel; [discriminate|].
           intros [= <-]. simpl. rewrite Hc.
           split; [reflexivity|]. split; [reflexivity|].
           split; [reflexivity|]. split; [now left|].
           split; [apply Hl|]. intros _ u' [= <-]. exact Hdel.
        -- intros [= <-]. simpl. rewrite Hc.
           split; [reflexivity|]. split; [reflexivity|].
           split; [reflexivity|]. split; [now left|].
           split; [apply Hl|discriminate].
    + unfold row_done. simpl. rewrite Hu0.
      destruct write; simpl; intros [= <-]; simpl; rewrite Hc, Hu0;
        (split; [reflexivity|]); (split; [reflexivity|]);
        (split; [reflexivity|]); (split; [now left|]); exact Hv0.
  - set (rip' := if negb (base =? 0) then Some (pg, u32 (base - 1))
                 else Some (pg, 0)).
    destruct (if base =? 0 then Some (indx_count page)
              else WT_ROW_INDX_SLOT pg rip') as [slot|]; [|discriminate].
    destruct (WT_ROW_INSERT_SLOT ins slot) as [chain|] eqn:Hchain;
      [|discriminate].
    set (st1 := match ins with
                | Some _ =>
                    with_session (set_srch_ins (Some (InsSlot slot)))
                      (with_session (set_srch_slot slot) st)
                | None => with_session (set_srch_slot slot) st
                end).
    assert (H1 : srch_upd (session st1) = None /\
                 srch_vupdate (session st1) = None /\
                 pages st1 = pages st).
    { subst st1. destruct ins; simpl; auto. }
    destruct H1 as (Hu1 & Hv1 & Hp1).
    destruct chain as [|node chain].
    + destruct write; simpl; [|discriminate].
      rewrite row_done_write. intros [= <-]. simpl. rewrite Hc, Hu1.
      split; [reflexivity|]. split; [reflexivity|]. split; [exact Hp1|].
      split; [right; auto|exact Hv1].
    + pose proof (ins_search_spec E key slot (node :: chain) 0%nat st1) as HI.
      destruct (__wt_ins_search E key slot 0 (node :: chain) st1)
        as [c st2] eqn:Hrun.
      simpl in HI. destruct HI as (FF & _ & HI).
      destruct FF as (_ & Hp2 & _).
      destruct HI as [(-> & k & nd & (Hk & _) & _ & Hu2 & Hv2 & _)
                     |(-> & k & _ & _ & _ & Hu2 & Hv2)].
      * simpl.
        assert (Hl : load_upd st2 pg (UpdIns slot k) = Some (ins_upd nd)).
        { unfold load_upd. rewrite Hp2, Hp1, Hp. simpl. rewrite Hu.
          destruct ins as [a|]; [|discriminate]. simpl in *.
          rewrite Hchain. simpl. now rewrite Hk. }
        unfold row_done. rewrite Hu2, Hl.
        destruct write; simpl.
        -- intros [= <-]. simpl. rewrite Hu2, Hv2, Hp2, Hp1.
           split; [reflexivity|]. split; [reflexivity|].
           split; [reflexivity|]. split; [now left|].
           split; [|discriminate]. unfold load_upd in *. exact Hl.
        -- destruct (ins_upd nd) as [u|] eqn:Hnd.
           ++ destruct (WT_UPDATE_DELETED_ISSET u) eqn:Hdel; [discriminate|].
              intros [= <-]. simpl. rewrite Hu2, Hv2, Hp2, Hp1.
              split; [reflexivity|]. split; [reflexivity|].
              split; [reflexivity|]. split; [now left|].
              split; [exact Hl|]. intros _ u' [= <-]. exact Hdel.
           ++ intros [= <-]. simpl. rewrite Hu2, Hv2, Hp2, Hp1.
              split; [reflexivity|]. split; [reflexivity|].
              split; [reflexivity|]. split; [now left|].
              split; [exact Hl|discriminate].
      * destruct write; simpl; [|discriminate].
        rewrite row_done_write. intros [= <-]. simpl.
        rewrite Hu2, Hu1, Hv2, Hv1, Hp2, Hp1.
        split; [reflexivity|]. split; [reflexivity|].
        split; [reflexivity|]. split; [right; auto|reflexivity].
Qed.

Lemma same_srch_fields s s' :
  same_srch s s' ->
  srch_page s' = srch_page s /\ srch_write_gen s' = srch_write_gen s /\
  srch_match s' = srch_match s /\ srch_ip s' = srch_ip s /\
  srch_vupdate s' = srch_vupdate s /\ srch_ins s' = srch_ins s /\
  srch_upd s' = srch_upd s /\ srch_slot s' = srch_slot s /\
  srch_exp s' = srch_exp s.
Proof. unfold same_srch. intros ->. simpl. tauto. Qed.

Lemma row_finish_write E key pg wg base rip cmp st ret st' :
  row_finish E key true pg wg base rip cmp st = Err ret st' -> False.
Proof.
  unfold row_finish.
  destruct (pages st !! pg) as [page|]; [|discriminate].
  destruct (page_u page) as [|d upd ins]; [discriminate|].
  destruct (cmp =? 0).
  - destruct (WT_ROW_INDX_SLOT pg rip) as [slot|]; [|discriminate].
    destruct upd as [us|]; [|now rewrite row_done_write].
    destruct (us !! Z.to_nat slot); [|discriminate].
    now rewrite row_done_write.
  - match goal with
    | |- match ?s with _ => _ end = _ -> _ =>
        destruct s as [slot|]; [|discriminate]
    end.
    destruct (WT_ROW_INSERT_SLOT ins slot) as [chain|]; [|discriminate].
    destruct chain as [|node chain]; simpl; [now rewrite row_done_write|].
    match goal with
    | |- (let '(_, _) := ?r in _) = _ -> _ => destruct r as [c st2]
    end.
    rewrite andb_false_r. now rewrite row_done_write.
Qed.

(** X6.  A search without write intent returns 0 only on a match: the
    match flag is set, and the update the result refers to, if there is
    one, is not a tombstone. *)
Theorem lookup_returns_live_match E depth key st st' :
  __wt_row_search E depth key false st = Ret tt st' ->
  srch_match (session st') = 1 /\
  forall u, reported_update st' = Some (Some u) ->
            WT_UPDATE_DELETED_ISSET u = false.
Proof.
  unfold __wt_row_search, bind.
  pose proof (row_position_store E depth key st) as HP.
  destruct (row_position E depth key st)
    as [[[[[pg wg] base] rip] cmp] st2|ret2 st2| |]; try discriminate.
  destruct HP as (_ & S2 & _).
  apply same_srch_fields in S2. simpl in S2.
  destruct S2 as (_ & _ & _ & _ & Hv & _ & Hu & _).
  intros Hrun.
  destruct (row_finish_ret _ _ _ _ _ _ _ _ _ _ Hu Hv Hrun)
    as (Hpg & _ & _ & Hm & Hupd).
  split.
  - destruct Hm as [Hm|(Hw & _)]; [exact Hm|discriminate].
  - intros u. unfold reported_update. rewrite Hpg.
    destruct (srch_upd (session st')) as [r|]; [|discriminate].
    destruct Hupd as (Hl & Hlive). rewrite Hl. intros [= Hvu].
    now apply Hlive.
Qed.

Lemma lookup_returns_live_match_witness :
  exists st',
    __wt_row_search sample_env 2 ["g"%byte] false sample_state = Ret tt st' /\
    srch_match (session st') = 1 /\
    reported_update st' = Some (Some (UpdValue ["001"%byte])).
Proof.
  edestruct (lookup_returns_live_match sample_env 2 ["g"%byte]
               sample_state) as (Hm & _);
    [vm_compute; reflexivity|].
  eexists. split; [vm_compute; reflexivity|].
  split; [exact Hm|reflexivity].
Defined.

(** X7.  With write intent the search has no not-found exit: any non-zero
    return is a collaborator's return code, raised before the leaf's
    binary search ended. *)
Theorem write_search_never_notfound E depth key st ret st' :
  __wt_row_search E depth key true st = Err ret st' ->
  row_position E depth key st = Err ret st' /\ collab_error E ret.
Proof.
  unfold __wt_row_search, bind.
  pose proof (row_position_store E depth key st) as HP.
  destruct (row_position E depth key st)
    as [[[[[pg wg] base] rip] cmp] st2|ret2 st2| |]; try discriminate.
  - intros Hrun. now apply row_finish_write in Hrun.
  - intros [= -> ->]. split; [reflexivity|apply HP].
Qed.

Lemma write_search_never_notfound_witness :
  exists st',
    __wt_row_search failing_env 2 ["k"%byte] true sample_state = Err 5 st' /\
    row_position failing_env 2 ["k"%byte] sample_state = Err 5 st' /\
    5 <> WT_NOTFOUND failing_env.
Proof.
  edestruct (write_search_never_notfound failing_env 2 ["k"%byte]
               sample_state) as (Hp & _);
    [vm_compute; reflexivity|].
  eexists. split; [vm_compute; reflexivity|].
  split; [exact Hp|discriminate].
Defined.

(** X8.  On return 0 the result is consistent: [srch_page] is a leaf,
    [srch_write_gen] is that leaf's write generation, the match flag is 1
    (or 0, with write intent, and then no update is referenced), and
    [srch_vupdate] is the update [srch_upd] points to. *)
Theorem search_result_consistent E depth key write st st' :
  __wt_row_search E depth key write st = Ret tt st' ->
  exists leaf page,
    srch_page (session st') = Some leaf /\ is_leaf st' leaf /\
    pages st' !! leaf = Some page /\
    srch_write_gen (session st') = write_gen page /\
    (srch_match (session st') = 1 \/
     (write = true /\ srch_match (session st') = 0 /\
      srch_upd (session st') = None)) /\
    match srch_upd (session st') with
    | Some _ => reported_update st' = Some (srch_vupdate (session st'))
    | None => srch_vupdate (session st') = None
    end.
Proof.
  unfold __wt_row_search, bind.
  pose proof (row_position_store E depth key st) as HP.
  destruct (row_position E depth key st)
    as [[[[[pg wg] base] rip] cmp] st2|ret2 st2| |]; try discriminate.
  destruct HP as (_ & S2 & L2 & Hwg).
  apply same_srch_fields in S2. simpl in S2.
  destruct S2 as (_ & _ & _ & _ & Hv & _ & Hu & _).
  intros Hrun.
  destruct (row_finish_ret _ _ _ _ _ _ _ _ _ _ Hu Hv Hrun)
    as (Hpg & Hg & Hps & Hm & Hupd).
  destruct L2 as (page & d & upd & ins & Hp & Hpu).
  exists pg, page.
  split; [exact Hpg|]. split; [exists page, d, upd, ins; now rewrite Hps|].
  split; [now rewrite Hps|]. split; [rewrite Hg; now apply Hwg|].
  split; [exact Hm|].
  unfold reported_update. rewrite Hpg.
  destruct (srch_upd (session st')) as [r|]; [apply Hupd|exact Hupd].
Qed.

Lemma search_result_consistent_witness :
  exists st',
    __wt_row_search sample_env 2 ["d"; "a"]%byte false sample_state
    = Ret tt st' /\
    srch_page (session st') = Some 2%nat /\
    srch_write_gen (session st') = 7 /\
    srch_upd (session st') = Some (UpdIns 0 0) /\
    reported_update st' = Some (srch_vupdate (session st')).
Proof.
  edestruct (search_result_consistent sample_env 2 ["d"; "a"]%byte false
               sample_state)
    as (leaf & page & Hpg & _ & Hp & Hg & _ & Hu);
    [vm_compute; reflexivity|].
  eexists. split; [vm_compute; reflexivity|].
  split; [reflexivity|]. split; [reflexivity|]. split; [reflexivity|].
  exact Hu.
Defined.

(** X9.  A search that returns non-zero reports no position: the page,
    write generation, match flag and slot pointer are as the search first
    cleared them, and the return code is a collaborator's or
    WT_NOTFOUND. *)
Theorem failed_search_reports_no_position E depth key write st ret st' :
  __wt_row_search E depth key write st = Err ret st' ->
  srch_page (session st') = None /\ srch_write_gen (session st') = 0 /\
  srch_match (session st') = 0 /\ srch_ip (session st') = None /\
  srch_exp (session st') = None /\
  (collab_error E ret \/ ret = WT_NOTFOUND E).
Proof.
  unfold __wt_row_search, bind.
  pose proof (row_position_store E depth key st) as HP.
  destruct (row_position E depth key st)
    as [[[[[pg wg] base] rip] cmp] st2|ret2 st2| |]; try discriminate.
  - destruct HP as (_ & S2 & _).
    apply same_srch_fields in S2. simpl in S2.
    destruct S2 as (H1 & H2 & H3 & H4 & _ & _ & _ & _ & H5).
    intros Hrun.
    pose proof (row_finish_exits E key write pg wg base rip cmp st2) as HF.
    rewrite Hrun in HF. destruct HF as (-> & st1 & FF & ->).
    destruct FF as (_ & _ & _ & _ & _ & G1 & G2 & G3 & G4 & G5).
    destruct (page_out_session pg st1) as (Hs & _). rewrite Hs. simpl.
    rewrite G1, G2, G3, G4, G5. auto 10.
  - intros [= -> ->]. destruct HP as (C & _ & S2).
    apply same_srch_fields in S2. simpl in S2.
    destruct S2 as (H1 & H2 & H3 & H4 & _ & _ & _ & _ & H5). auto 10.
Qed.

Lemma failed_search_reports_no_position_witness :
  exists st',
    __wt_row_search sample_env 2 ["e"%byte] false sample_state
    = Err (WT_NOTFOUND sample_env) st' /\
    srch_page (session st') = None /\ srch_ip (session st') = None /\
    srch_slot (session st') = 0.
Proof.
  edestruct (failed_search_reports_no_position sample_env 2 ["e"%byte] false
               sample_state) as (Hpg & _ & _ & Hip & _);
    [vm_compute; reflexivity|].
  eexists. split; [vm_compute; reflexivity|].
  split; [exact Hpg|]. split; [exact Hip|reflexivity].
Defined.

(* ================================================================== *)
(** ** The probes of a binary search *)
(* ================================================================== *)

Lemma compare_count_app l1 l2 :
  compare_count (l1 ++ l2) = (compare_count l1 + compare_count l2)%nat.
Proof.
  induction l1 as [|e l1 IH]; [reflexivity|].
  simpl. destruct e; simpl; rewrite IH; reflexivity.
Qed.

Lemma probe_in_weaken pg lo hi lo' hi' e :
  lo' <= lo -> hi <= hi' -> probe_in pg lo hi e -> probe_in pg lo' hi' e.
Proof. destruct e; simpl; intros; [split; [tauto|lia]|tauto|tauto]. Qed.

Lemma probes_refl pg lo hi k st : probes pg lo hi k st st.
Proof.
  exists []. rewrite app_nil_r. split; [reflexivity|].
  split; [constructor|simpl; lia].
Qed.

Lemma probes_trans pg lo hi k1 k2 st1 st2 st3 :
  probes pg lo hi k1 st1 st2 -> probes pg lo hi k2 st2 st3 ->
  probes pg lo hi (k1 + k2) st1 st3.
Proof.
  intros (e1 & H1 & F1 & C1) (e2 & H2 & F2 & C2). exists (e1 ++ e2).
  rewrite H2, H1, app_assoc, compare_count_app.
  split; [reflexivity|]. split; [now apply Forall_app|lia].
Qed.

Lemma probes_weaken pg lo hi k lo' hi' k' st st' :
  lo' <= lo -> hi <= hi' -> (k <= k')%nat ->
  probes pg lo hi k st st' -> probes pg lo' hi' k' st st'.
Proof.
  intros Hlo Hhi Hk (evs & H & F & C). exists evs.
  split; [exact H|]. split; [|lia].
  eapply Forall_impl; [exact F|]. intros e. now apply probe_in_weaken.
Qed.

Lemma probes_page_out pg lo hi k pg' st st' :
  probes pg lo hi k st st' -> probes pg lo hi k st (WT_PAGE_OUT pg' st').
Proof.
  intros (evs & H & F & C). exists evs.
  destruct (page_out_session pg' st') as (_ & Hc & _). now rewrite Hc.
Qed.

(** Materializing a key makes no comparison and decodes at most one cell
    of the page. *)
Lemma materialize_probes E pg indx st st' lo hi :
  final_state (WT_ERR pg (key_materialize E pg indx) st) = Some st' ->
  probes pg lo hi 0 st st'.
Proof.
  unfold WT_ERR.
  pose proof (key_materialize_cases E pg indx st) as C.
  destruct (key_materialize E pg indx st) as [[] st1|ret st1| |];
    try discriminate.
  - intros [= <-].
    destruct C as [->|(p & off & b & _ & _ & _ & ->)];
      [apply probes_refl|].
    exists [EvCellProcess pg off]. split; [reflexivity|].
    split; [constructor; [reflexivity|constructor]|simpl; lia].
  - intros [= <-]. destruct C as (_ & p & off & _ & _ & ->).
    apply probes_page_out.
    exists [EvCellProcess pg off]. split; [reflexivity|].
    split; [constructor; [reflexivity|constructor]|simpl; lia].
Qed.

Lemma compare_probes pg indx st lo hi :
  lo <= indx < hi -> probes pg lo hi 1 st (log (EvCompare pg indx) st).
Proof.
  intros H. exists [EvCompare pg indx]. split; [reflexivity|].
  split; [constructor; [split; [reflexivity|exact H]|constructor]|simpl; lia].
Qed.

Lemma halving_bound limit k :
  0 < limit < 2 ^ Z.of_nat (S k) ->
  limit / 2 < 2 ^ Z.of_nat k /\ (limit - 1) / 2 < 2 ^ Z.of_nat k.
Proof.
  intros H. rewrite Nat2Z.inj_succ, Z.pow_succ_r in H by lia.
  split; apply Z.div_lt_upper_bound; lia.
Qed.

Lemma leaf_search_probes_gen E key pg fuel :
  forall (k : nat) base limit rip cmp st n st',
    0 <= base -> 0 <= limit < 2 ^ Z.of_nat k -> base + limit <= n ->
    n < 2 ^ 32 ->
    final_state (leaf_search E fuel key pg base limit rip cmp st) = Some st' ->
    probes pg base (base + limit) k st st'.
Proof.
  induction fuel as [|fuel IH];
    intros k base limit rip cmp st n st' Hb Hl Hn H32.
  - simpl. destruct (limit =? 0); [|discriminate].
    intros [= <-]. apply probes_refl.
  - rewrite leaf_search_unfold.
    destruct (limit =? 0) eqn:Hz.
    { intros [= <-]. apply probes_refl. }
    apply Z.eqb_neq in Hz.
    destruct k as [|k]; [simpl in Hl; lia|].
    destruct (halving_bound limit k ltac:(lia)) as [Hk1 Hk2].
    destruct (search_step_arith base limit n Hb ltac:(lia) Hn H32)
      as (Hi & Hr & Hnx & Hh & Hhl & Hh' & Hhr & He).
    simpl. set (indx := u32 (base + Z.shiftr limit 1)) in *.
    pose proof (materialize_probes E pg indx st) as HM.
    destruct (WT_ERR pg (key_materialize E pg indx) st)
      as [[] st1|ret st1| |]; try discriminate.
    2:{ intros [= <-].
        eapply probes_weaken; [| | |apply (HM st1 base (base + limit) eq_refl)];
          lia. }
    specialize (HM st1 base (base + limit) eq_refl).
    pose proof (compare_exits E key pg indx st1) as HC.
    destruct (call_compare E key pg indx st1) as [c st2|ret st2| |];
      try discriminate; [|contradiction].
    subst st2.
    assert (P2 : probes pg base (base + limit) 1 st
                   (log (EvCompare pg indx) st1)).
    { apply (probes_trans _ _ _ 0 1 _ st1); [exact HM|].
      now apply compare_probes. }
    destruct (c =? 0).
    { intros [= <-]. eapply probes_weaken; [| | |exact P2]; lia. }
    rewrite Hh, Hnx, Hh'.
    destruct (c <? 0); intros Hrun.
    + apply (probes_trans _ _ _ 1 k _ _ _ P2).
      pose proof (IH k base (limit / 2) (Some (pg, indx)) c
                    (log (EvCompare pg indx) st1) n st' Hb) as HI.
      specialize (HI ltac:(lia) ltac:(lia) H32 Hrun).
      eapply probes_weaken; [| | |exact HI]; lia.
    + apply (probes_trans _ _ _ 1 k _ _ _ P2).
      pose proof (IH k (indx + 1) ((limit - 1) / 2) (Some (pg, indx)) c
                    (log (EvCompare pg indx) st1) n st') as HI.
      specialize (HI ltac:(lia) ltac:(lia) ltac:(lia) H32 Hrun).
      eapply probes_weaken; [| | |exact HI]; lia.
Qed.

Lemma log2_up_bound n : 0 <= n -> n < 2 ^ Z.of_nat (Z.to_nat (Z.log2_up (n + 1))).
Proof.
  intros H. rewrite Z2Nat.id by apply Z.log2_up_nonneg.
  pose proof (Z.log2_log2_up_spec (n + 1) ltac:(lia)). lia.
Qed.

(** X4.  The binary search of a leaf of [n] slots calls the comparator at
    most [log2_up (n + 1)] times, each time on a slot of that leaf between
    0 and [n - 1], and decodes cells of that leaf only. *)
Theorem leaf_search_probes E key pg page rip cmp st st' :
  pages st !! pg = Some page ->
  indx_count page < 2 ^ 32 ->
  final_state (leaf_search E (search_fuel (indx_count page)) key pg 0
                 (indx_count page) rip cmp st) = Some st' ->
  exists evs,
    calls st' = calls st ++ evs /\
    Forall (probe_in pg 0 (indx_count page)) evs /\
    Z.of_nat (compare_count evs) <= Z.log2_up (indx_count page + 1).
Proof.
  intros _ H32 Hrun.
  assert (H0 : 0 <= indx_count page) by (unfold indx_count; lia).
  destruct (leaf_search_probes_gen E key pg (search_fuel (indx_count page))
              (Z.to_nat (Z.log2_up (indx_count page + 1))) 0
              (indx_count page) rip cmp st (indx_count page) st')
    as (evs & Hc & HF & Hn); try lia; [|exact Hrun|].
  { split; [exact H0|]. now apply log2_up_bound. }
  exists evs. split; [exact Hc|]. split; [exact HF|].
  pose proof (Z.log2_up_nonneg (indx_count page + 1)). lia.
Qed.

Lemma leaf_search_probes_witness :
  exists st',
    leaf_search sample_env (search_fuel 3) ["g"%byte] 2 0 3 None 0
                sample_state = Ret (2, Some (2%nat, 2), 0) st' /\
    calls st' = [EvCellProcess 2 3; EvCompare 2 1; EvCompare 2 2] /\
    Z.log2_up (3 + 1) = 2.
Proof.
  edestruct (leaf_search_probes sample_env ["g"%byte] 2 sample_leaf2 None 0
               sample_state) as (evs & Hc & _ & _);
    [reflexivity|vm_compute; reflexivity|vm_compute; reflexivity|].
  eexists. split; [vm_compute; reflexivity|].
  split; [reflexivity|reflexivity].
Defined.

Lemma int_search_probes_gen E key pg fuel :
  forall (k : nat) base limit rref cmp st n st',
    0 <= base -> 0 <= limit < 2 ^ Z.of_nat k -> base + limit <= n ->
    n < 2 ^ 32 ->
    final_state (int_search E fuel key pg base limit rref cmp st) = Some st' ->
    probes pg (Z.max 1 base) (base + limit) k st st'.
Proof.
  induction fuel as [|fuel IH];
    intros k base limit rref cmp st n st' Hb Hl Hn H32.
  - simpl. destruct (limit =? 0); [|discriminate].
    intros [= <-]. apply probes_refl.
  - rewrite int_search_unfold.
    destruct (limit =? 0) eqn:Hz.
    { intros [= <-]. apply probes_refl. }
    apply Z.eqb_neq in Hz.
    destruct k as [|k]; [simpl in Hl; lia|].
    destruct (halving_bound limit k ltac:(lia)) as [Hk1 Hk2].
    destruct (search_step_arith base limit n Hb ltac:(lia) Hn H32)
      as (Hi & Hr & Hnx & Hh & Hhl & Hh' & Hhr & He).
    simpl. set (indx := u32 (base + Z.shiftr limit 1)) in *.
    pose proof (materialize_probes E pg indx st) as HM.
    destruct (WT_ERR pg (key_materialize E pg indx) st)
      as [[] st1|ret st1| |]; try discriminate.
    2:{ intros [= <-].
        eapply probes_weaken;
          [| | |apply (HM st1 (Z.max 1 base) (base + limit) eq_refl)];
          lia. }
    specialize (HM st1 (Z.max 1 base) (base + limit) eq_refl).
    rewrite Hh, Hnx, Hh'.
    assert (Hright : forall c st2,
               probes pg (Z.max 1 base) (base + limit) 1 st st2 ->
               final_state
                 (int_search E fuel key pg (indx + 1) ((limit - 1) / 2)
                             (Some (pg, indx)) c st2) = Some st' ->
               probes pg (Z.max 1 base) (base + limit) (S k) st st').
    { intros c st2 P2 Hrun.
      apply (probes_trans _ _ _ 1 k _ _ _ P2).
      pose proof (IH k (indx + 1) ((limit - 1) / 2) (Some (pg, indx)) c
                    st2 n st') as HI.
      specialize (HI ltac:(lia) ltac:(lia) ltac:(lia) H32 Hrun).
      eapply probes_weaken; [| | |exact HI]; lia. }
    destruct (negb (indx =? 0)) eqn:Hi0.
    2:{ apply Hright. eapply probes_weaken; [| | |exact HM]; lia. }
    apply negb_true_iff, Z.eqb_neq in Hi0.
    pose proof (compare_exits E key pg indx st1) as HC.
    destruct (call_compare E key pg indx st1) as [c st2|ret st2| |];
      try discriminate; [|contradiction].
    subst st2.
    assert (P2 : probes pg (Z.max 1 base) (base + limit) 1 st
                   (log (EvCompare pg indx) st1)).
    { apply (probes_trans _ _ _ 0 1 _ st1); [exact HM|].
      apply compare_probes. lia. }
    destruct (c =? 0).
    { intros [= <-]. eapply probes_weaken; [| | |exact P2]; lia. }
    destruct (c <? 0); [|now apply Hright].
    intros Hrun. apply (probes_trans _ _ _ 1 k _ _ _ P2).
    pose proof (IH k base (limit / 2) (Some (pg, indx)) c
                  (log (EvCompare pg indx) st1) n st' Hb) as HI.
    specialize (HI ltac:(lia) ltac:(lia) H32 Hrun).
    eapply probes_weaken; [| | |exact HI]; lia.
Qed.

(** X5.  The binary search of an internal page of [n] slots calls the
    comparator at most [log2_up (n + 1)] times, each time on a slot of
    that page between 1 and [n - 1], and decodes cells of that page
    only. *)
Theorem int_search_probes E key pg page rref cmp st st' :
  pages st !! pg = Some page ->
  indx_count page < 2 ^ 32 ->
  final_state (int_select E key pg (indx_count page) rref cmp st)
  = Some st' ->
  exists evs,
    calls st' = calls st ++ evs /\
    Forall (probe_in pg 1 (indx_count page)) evs /\
    Z.of_nat (compare_count evs) <= Z.log2_up (indx_count page + 1).
Proof.
  intros _ H32 Hrun.
  assert (H0 : 0 <= indx_count page) by (unfold indx_count; lia).
  assert (Hrun' : final_state
                    (int_search E (search_fuel (indx_count page)) key pg 0
                                (indx_count page) rref cmp st) = Some st').
  { unfold int_select in Hrun.
    destruct (int_search E (search_fuel (indx_count page)) key pg 0
                (indx_count page) rref cmp st) as [[[b r] c] s|ret s| |];
      exact Hrun. }
  destruct (int_search_probes_gen E key pg (search_fuel (indx_count page))
              (Z.to_nat (Z.log2_up (indx_count page + 1))) 0
              (indx_count page) rref cmp st (indx_count page) st')
    as (evs & Hc & HF & Hn); try lia; [|exact Hrun'|].
  { split; [exact H0|]. now apply log2_up_bound. }
  exists evs. split; [exact Hc|]. split; [exact HF|].
  pose proof (Z.log2_up_nonneg (indx_count page + 1)). lia.
Qed.

Lemma int_search_probes_witness :
  exists st',
    int_select sample_env ["e"%byte] 0 3 None 0 sample_state
    = Ret (Some (0%nat, 1), -1) st' /\
    calls st' = [EvCompare 0 1; EvCompare 0 2].
Proof.
  edestruct (int_search_probes sample_env ["e"%byte] 0 sample_root None 0
               sample_state) as (evs & Hc & _ & _);
    [reflexivity|vm_compute; reflexivity|vm_compute; reflexivity|].
  eexists. split; [vm_compute; reflexivity|reflexivity].
Defined.

(* ================================================================== *)
(** ** The insert chain scan, on any chain *)
(* ================================================================== *)

(** X11.  [__wt_ins_search] returns 0 or 1; it returns 0 exactly when the
    chain holds a key-equal node with only smaller nodes before it,
    whether or not the chain is sorted.  It compares the nodes in chain
    order, each at most once, and touches nothing but [srch_ins],
    [srch_upd] and [srch_vupdate]; on return 1 the last two are as they
    were. *)
Theorem ins_search_scan E key slot chain st :
  let r := __wt_ins_search E key slot 0 chain st in
  (fst r = 0 \/ fst r = 1) /\
  (fst r = 0 <-> exists k node, chain_match E key chain k node) /\
  finish_frame st (snd r) /\
  srch_slot (session (snd r)) = srch_slot (session st) /\
  (exists n, (n <= length chain)%nat /\
             calls (snd r) = calls st ++ (EvCompareIns slot <$> seq 0 n)) /\
  (fst r = 1 ->
   srch_upd (session (snd r)) = srch_upd (session st) /\
   srch_vupdate (session (snd r)) = srch_vupdate (session st)).
Proof.
  intros r. subst r.
  destruct (ins_search_spec E key slot chain 0%nat st) as (FF & Hs & HI).
  destruct HI as [(H0 & k & node & Hm & Hc & _)
                 |(H1 & k & Hmiss & Hc & _ & Hu & Hv)].
  - split; [now left|]. split; [split; eauto|].
    split; [exact FF|]. split; [exact Hs|]. split.
    + exists (S k). split; [|exact Hc].
      destruct Hm as (Hk & _). apply lookup_lt_Some in Hk. lia.
    + rewrite H0. discriminate.
  - split; [now right|]. split.
    + split; [rewrite H1; discriminate|].
      intros (k' & node & Hm). exfalso.
      eapply chain_match_not_miss; eauto.
    + split; [exact FF|]. split; [exact Hs|]. split; [|auto].
      exists (Nat.min (S k) (length chain)). split; [lia|exact Hc].
Qed.

(* ================================================================== *)
(** ** Lookup in a tree of one page *)
(* ================================================================== *)

Lemma linear_scan_range E key ks :
  forall off m i,
    linear_scan E key ks off = (m, i) ->
    off <= i <= off + Z.of_nat (length ks) /\
    (m = true -> i < off + Z.of_nat (length ks)).
Proof.
  induction ks as [|k ks IH]; intros off m i.
  - simpl. intros [= <- <-]. split; [lia|discriminate].
  - cbn [linear_scan]. rewrite length_cons, Nat2Z.inj_succ.
    destruct (btree_compare E key k =? 0).
    { intros [= <- <-]. split; [lia|intros _; lia]. }
    destruct (btree_compare E key k <? 0).
    + intros [= <- <-]. split; [lia|discriminate].
    + intros H. apply IH in H. destruct H as [H1 H2].
      split; [lia|]. intros Hm. specialize (H2 Hm). lia.
Qed.

Lemma tree_descend_leaf E depth key pg rref cmp st page d upd ins :
  pages st !! pg = Some page -> page_u page = row_leaf d upd ins ->
  tree_descend E depth key pg rref cmp st = Ret (pg, cmp) st.
Proof. intros Hp Hu. destruct depth; simpl; now rewrite Hp, Hu. Qed.

(** X12.  In a tree whose root is a non-empty sorted leaf with no insert
    lists, a search without write intent returns 0, at the slot the
    linear scan finds, exactly when the key is on the page and its update
    is not a tombstone; otherwise it returns WT_NOTFOUND. *)
Theorem root_leaf_lookup E depth key st page d upd ks :
  total_order (btree_compare E) ->
  heap_wf st = true ->
  pages st !! root_page st = Some page ->
  page_u page = row_leaf d upd None ->
  leaf_wf page = true ->
  0 < indx_count page < 2 ^ 32 ->
  page_keys E st (root_page st) = Some ks ->
  sortedb E ks = true ->
  let '(found, i) := linear_scan E key ks 0 in
  if found && negb (slot_deleted upd i) then
    exists st',
      __wt_row_search E depth key false st = Ret tt st' /\
      srch_page (session st') = Some (root_page st) /\
      srch_match (session st') = 1 /\
      srch_ip (session st') = Some (root_page st, i) /\
      srch_slot (session st') = i
  else
    exists st',
      __wt_row_search E depth key false st = Err (WT_NOTFOUND E) st'.
Proof.
  intros TO Hwf Hp Hu Hlwf Hn Hks Hsorted.
  set (root := root_page st) in *.
  set (st0 := with_session srch_clear st).
  assert (Hd : tree_descend E depth key (root_page st0) None 0 st0
               = Ret (root, 0) st0).
  { eapply tree_descend_leaf; [exact Hp|exact Hu]. }
  assert (H32 : indx_count page < 2 ^ 32) by lia.
  assert (Hpos0 : 0 < indx_count page \/ 0 <> 0) by (left; lia).
  destruct (leaf_search_linear_scan E key root page ks None 0 st0 TO Hwf Hp
              Hks Hsorted H32 Hpos0)
    as (base & rip' & cmp' & st2 & Hrun & Hout & Hrange & F).
  assert (Hpos : row_position E depth key st
                 = Ret (root, write_gen page, base, rip', cmp') st2).
  { unfold row_position. fold st0. rewrite Hd.
    change (pages st0 !! root) with (pages st !! root). rewrite Hp.
    now rewrite Hrun. }
  destruct (Forall2_lookup_l _ _ _ _ _ (fr_pages _ _ _ _ F) Hp)
    as (page2 & Hp2 & Hpp).
  pose proof (page_frame_rows_length _ _ Hpp) as Hlen2.
  assert (Hn2 : indx_count page2 = indx_count page).
  { unfold indx_count. now rewrite Hlen2. }
  apply page_frame_refs in Hpp. rewrite Hu in Hpp.
  destruct (page_u page2) as [|d2 upd2 ins2] eqn:Hu2; [tauto|].
  destruct Hpp as [-> ->].
  assert (Hd2 : length d2 = length d).
  { unfold page_rows in Hlen2. now rewrite Hu, Hu2 in Hlen2. }
  assert (Hcount : indx_count page = Z.of_nat (length d)).
  { unfold indx_count, page_rows. now rewrite Hu. }
  assert (Hkn : indx_count page = Z.of_nat (length ks)).
  { eapply keys_of_length; [apply page_keys_of; exact Hks|exact Hp]. }
  unfold __wt_row_search, bind. rewrite Hpos.
  destruct (linear_scan E key ks 0) as [found i] eqn:Hscan.
  pose proof (linear_scan_range _ _ _ _ _ _ Hscan) as [Hi Hfi].
  unfold leaf_outcome in Hout.
  destruct (cmp' =? 0) eqn:Hc.
  - apply Z.eqb_eq in Hc. subst cmp'.
    destruct rip' as [[rp ri]|]; [|discriminate]. simpl in Hout.
    destruct (Nat.eqb rp root) eqn:Hrp; [|discriminate].
    apply Nat.eqb_eq in Hrp. subst rp.
    injection Hout as <- <-. specialize (Hfi eq_refl). simpl.
    assert (Hslot : match upd with
                    | Some us => is_Some (us !! Z.to_nat ri)
                    | None => True
                    end).
    { destruct upd as [us|]; [|exact I].
      apply leaf_wf_spec in Hlwf.
      destruct Hlwf as (d' & upd' & ins' & Hu' & Hlu & _).
      rewrite Hu in Hu'. injection Hu' as <- <- <-.
      apply lookup_lt_is_Some. lia. }
    rewrite (row_finish_match E key false root (write_gen page) base ri st2
               page2 d2 upd None Hp2 Hu2 Hslot).
    destruct upd as [us|].
    + destruct Hslot as [u Hus]. unfold slot_deleted. rewrite Hus. simpl.
      erewrite (row_done_read_some E root _ _ _ _ (UpdSlot ri) u);
        [|reflexivity
         |unfold load_upd; simpl; rewrite Hp2; simpl; rewrite Hu2; simpl;
          exact Hus].
      destruct u as [u|]; simpl.
      * destruct (WT_UPDATE_DELETED_ISSET u); simpl.
        -- eexists. reflexivity.
        -- eexists. split; [reflexivity|]. simpl. auto.
      * eexists. split; [reflexivity|]. simpl. auto.
    + simpl. rewrite row_done_read_none.
      * eexists. split; [reflexivity|]. simpl. auto.
      * simpl. now rewrite (fr_session _ _ _ _ F).
  - apply Z.eqb_neq in Hc. injection Hout as <- <-. simpl.
    destruct (row_finish_miss E key false root (write_gen page) base rip'
                cmp' st2 page2 d2 upd None Hp2 Hu2 Hc)
      as (st1 & _ & _ & [(k & node & (Hk & _) & _)
                        |(k & c & _ & _ & _ & _ & _ & _ & Hfin)]).
    + rewrite Hn2. now apply Hrange.
    + rewrite Hn2. lia.
    + exact I.
    + simpl in Hk. now rewrite lookup_nil in Hk.
    + rewrite Hfin. eexists. reflexivity.
Qed.

Lemma root_leaf_lookup_witness :
  exists st',
    __wt_row_search sample_env 0 ["f"%byte] false pending_state = Ret tt st' /\
    srch_page (session st') = Some 0%nat /\
    srch_match (session st') = 1 /\
    srch_ip (session st') = Some (0%nat, 0) /\
    srch_slot (session st') = 0.
Proof.
  exact (root_leaf_lookup sample_env 0 ["f"%byte] pending_state
           (publish_page (mkROW (POnPage 3) 0)) _ None [["f"%byte]]
           lex_compare_total_order eq_refl eq_refl eq_refl eq_refl
           ltac:(vm_compute; split; reflexivity) eq_refl eq_refl).
Defined.

(* ================================================================== *)
(** ** The leaf's binary search finds a key exactly when it is there *)
(* ================================================================== *)

Lemma linear_scan_true E key ks :
  forall off i,
    linear_scan E key ks off = (true, i) ->
    exists k, k ∈ ks /\ btree_compare E key k = 0.
Proof.
  induction ks as [|k0 ks IH]; intros off i; simpl; [discriminate|].
  destruct (btree_compare E key k0 =? 0) eqn:Hc.
  - intros _. apply Z.eqb_eq in Hc. exists k0. split; [left|exact Hc].
  - destruct (btree_compare E key k0 <? 0); [discriminate|].
    intros H. destruct (IH _ _ H) as (k & Hin & Hk).
    exists k. split; [now right|exact Hk].
Qed.

Lemma linear_scan_false E key ks :
  total_order (btree_compare E) -> sortedb E ks = true ->
  forall off i,
    linear_scan E key ks off = (false, i) ->
    forall k, k ∈ ks -> btree_compare E key k <> 0.
Proof.
  intros TO. induction ks as [|k0 ks IH]; intros Hs off i Hscan k Hin.
  - now apply elem_of_nil in Hin.
  - simpl in Hs. apply andb_true_iff in Hs. destruct Hs as [Hall Hs].
    rewrite forallb_forall in Hall. simpl in Hscan.
    destruct (btree_compare E key k0 =? 0) eqn:Hc; [discriminate|].
    apply Z.eqb_neq in Hc.
    apply elem_of_cons in Hin. destruct Hin as [->|Hin]; [exact Hc|].
    destruct (btree_compare E key k0 <? 0) eqn:Hlt.
    + apply Z.ltb_lt in Hlt.
      assert (btree_compare E k0 k < 0).
      { apply Z.ltb_lt, Hall. now apply list_elem_of_In. }
      pose proof (cmp_le_lt _ TO key k0 k ltac:(lia) H). lia.
    + eapply IH; eauto.
Qed.

(** X3.  On a non-empty sorted leaf the binary search returns, reports
    what a linear scan of the keys reports, and ends with [cmp] zero
    exactly when some key of the page equals the target. *)
Theorem leaf_search_finds_iff_present E key pg page ks rip cmp st :
  total_order (btree_compare E) ->
  heap_wf st = true ->
  pages st !! pg = Some page ->
  page_keys E st pg = Some ks ->
  sortedb E ks = true ->
  0 < indx_count page < 2 ^ 32 ->
  exists base rip' cmp' st',
    leaf_search E (search_fuel (indx_count page)) key pg 0 (indx_count page)
                rip cmp st = Ret (base, rip', cmp') st' /\
    leaf_outcome pg (base, rip', cmp') = Some (linear_scan E key ks 0) /\
    (cmp' = 0 <-> exists k, k ∈ ks /\ btree_compare E key k = 0).
Proof.
  intros TO Hwf Hp Hks Hs Hn.
  assert (H32 : indx_count page < 2 ^ 32) by lia.
  assert (Hpos : 0 < indx_count page \/ cmp <> 0) by (left; lia).
  destruct (leaf_search_linear_scan E key pg page ks rip cmp st TO Hwf Hp Hks
              Hs H32 Hpos)
    as (base & rip' & cmp' & st' & Hrun & Hout & _).
  exists base, rip', cmp', st'. split; [exact Hrun|]. split; [exact Hout|].
  unfold leaf_outcome in Hout.
  destruct (cmp' =? 0) eqn:Hc.
  - apply Z.eqb_eq in Hc. split; [|intros _; exact Hc]. intros _.
    destruct (WT_ROW_INDX_SLOT pg rip') as [slot|]; [|discriminate].
    simpl in Hout. injection Hout as Hout. symmetry in Hout.
    eapply linear_scan_true; eauto.
  - apply Z.eqb_neq in Hc. split; [intros H; contradiction|].
    intros (k & Hin & Hk). injection Hout as Hout. symmetry in Hout.
    exfalso. eapply linear_scan_false; eauto.
Qed.

Lemma leaf_search_finds_iff_present_witness :
  exists base rip' cmp' st',
    leaf_search sample_env (search_fuel 3) ["g"%byte] 2 0 3 None 0
                sample_state = Ret (base, rip', cmp') st' /\
    leaf_outcome 2 (base, rip', cmp') = Some (true, 2) /\ cmp' = 0.
Proof.
  destruct (leaf_search_finds_iff_present sample_env ["g"%byte] 2
              sample_leaf2 [["d"]; ["f"]; ["g"]]%byte None 0 sample_state
              lex_compare_total_order eq_refl eq_refl eq_refl eq_refl)
    as (base & rip' & cmp' & st' & Hrun & Hout & Hiff);
    [vm_compute; split; reflexivity|].
  exists base, rip', cmp', st'. split; [exact Hrun|]. split; [exact Hout|].
  apply Hiff. exists ["g"%byte]. split; [|reflexivity].
  right. right. left.
Defined.

(* ================================================================== *)
(** ** A sample run of a publish race *)
(* ================================================================== *)

Lemma key_build_race_witness :
  (exists st4,
      load_row st4 0 0 = Some (mkROW (POffPage 0) 1) /\
      freed st4 = [1%nat] /\
      bufs st4 = [["f"%byte]; ["f"%byte]]) /\
  (exists st4,
      load_row st4 0 0 = Some (mkROW (POffPage 1) 0) /\
      freed st4 = [] /\ bufs st4 = [[]; []]).
Proof.
  split.
  - destruct (key_build_race sample_env 0 0 pending_state
                (publish_page (mkROW (POnPage 3) 0)) 3 ["f"%byte]
                eq_refl eq_refl eq_refl eq_refl)
      as (tmp1 & tmp2 & st1 & st2 & st3 & st4 & p4 & k4
          & H1 & H2 & H3 & H4 & _ & Hrow & _ & _ & Hwin & _).
    destruct (Hwin ltac:(discriminate)) as [-> Hfreed].
    injection H1 as <- <-. injection H2 as <- <-.
    injection H3 as <-. injection H4 as <-.
    eexists. split; [exact Hrow|]. split; [exact Hfreed|reflexivity].
  - destruct (key_build_race sample_env 0 0
                (mkSTATE sample_session 0%nat
                   [mkPAGE ["000"%byte] 0
                      (row_leaf [mkROW (POnPage 0) 0] None None)] [] [] [])
                (mkPAGE ["000"%byte] 0
                   (row_leaf [mkROW (POnPage 0) 0] None None)) 0 []
                eq_refl eq_refl eq_refl eq_refl)
      as (tmp1 & tmp2 & st1 & st2 & st3 & st4 & p4 & k4
          & H1 & H2 & H3 & H4 & _ & Hrow & _ & _ & _ & Hover).
    destruct (Hover eq_refl) as [-> Hfreed].
    injection H1 as <- <-. injection H2 as <- <-.
    injection H3 as <-. injection H4 as <-.
    eexists. split; [exact Hrow|]. split; [exact Hfreed|reflexivity].
Defined.

(* ================================================================== *)
(** ** The descent, level by level *)
(* ================================================================== *)

Lemma int_select_slot E key pg page ks rref cmp st :
  total_order (btree_compare E) ->
  heap_wf st ->
  pages st !! pg = Some page ->
  keys_of E st pg ks ->
  0 < indx_count page < 2 ^ 32 ->
  sortedb E (tail ks) = true ->
  exists cmp' st',
    int_select E key pg (indx_count page) rref cmp st
    = Ret (Some (pg, descent_slot E key ks), cmp') st' /\
    frame E not_index0 st st'.
Proof.
  intros TO Hwf Hp Hpk Hn Hs.
  pose proof (keys_of_length _ _ _ _ _ Hpk Hp) as Hlen. rewrite Hlen in *.
  destruct (int_search_correct E key pg ks TO Hs ltac:(lia)
              (search_fuel (Z.of_nat (length ks))) 0 (Z.of_nat (length ks))
              rref cmp st Hwf Hpk ltac:(lia) ltac:(lia) ltac:(lia)
              ltac:(unfold search_fuel; lia))
    as (b' & r' & c' & st' & Hrun & F & Hpost).
  { split; [intros; lia|]. intros i k Hi Hk.
    apply lookup_lt_Some in Hk. rewrite tail_length in Hk. lia. }
  exists c', st'. split; [|exact F].
  unfold int_select. rewrite Hrun.
  destruct Hpost as [(-> & i & k & -> & Hi & Hk & Hc)|(Hcmp & Hb & Hbr)].
  - simpl. now rewrite (descent_slot_match E key ks TO Hs i k Hi Hk Hc).
  - rewrite (descent_slot_bracket E key ks b' Hb Hbr).
    destruct (c' =? 0) eqn:Hc0; simpl.
    + apply Z.eqb_eq in Hc0.
      destruct Hcmp as [?|[->|(? & _)]]; [lia|reflexivity|lia].
    + rewrite u32_id by lia. reflexivity.
Qed.

Lemma load_ref_store E st st' pg ri :
  store_frame E st st' -> load_ref st' pg ri = load_ref st pg ri.
Proof.
  intros F. unfold load_ref.
  destruct (pages st !! pg) as [p|] eqn:Hp.
  - destruct (Forall2_lookup_l _ _ _ _ _ (sf_pages _ _ _ F) Hp)
      as (p' & -> & Hpp). simpl.
    apply page_frame_refs in Hpp.
    destruct (page_u p'), (page_u p); try tauto.
    rewrite <- !list_lookup_fmap. now rewrite Hpp.
  - apply lookup_ge_None in Hp.
    rewrite (Forall2_length _ _ _ (sf_pages _ _ _ F)) in Hp.
    apply lookup_ge_None in Hp. now rewrite Hp.
Qed.

Lemma tree_descend_path E key st leaf :
  total_order (btree_compare E) ->
  heap_wf st ->
  int_pages_sorted E st ->
  (forall child, page_in E child = 0) ->
  forall depth pg rref cmp st1,
    store_frame E st st1 ->
    descent_path E st depth key pg = Some leaf ->
    exists cmp' st',
      tree_descend E depth key pg rref cmp st1 = Ret (leaf, cmp') st' /\
      store_frame E st st' /\ is_leaf st' leaf.
Proof.
  intros TO Hwf Hint Hpin.
  assert (Hleaf : forall depth pg rref cmp st1 page d upd ins,
             store_frame E st st1 ->
             pages st !! pg = Some page -> page_u page = row_leaf d upd ins ->
             tree_descend E depth key pg rref cmp st1 = Ret (pg, cmp) st1 /\
             is_leaf st1 pg).
  { intros depth pg rref cmp st1 page d upd ins F Hp Hu.
    assert (L : is_leaf st1 pg).
    { eapply is_leaf_store; [exact F|]. exists page, d, upd, ins. auto. }
    split; [|exact L].
    destruct L as (p1 & d1 & u1 & i1 & Hp1 & Hu1).
    eapply tree_descend_leaf; eauto. }
  induction depth as [|depth IH]; intros pg rref cmp st1 F Hpath.
  - simpl in Hpath.
    destruct (pages st !! pg) as [page|] eqn:Hp; [|discriminate].
    simpl in Hpath.
    destruct (page_u page) as [t|d upd ins] eqn:Hu; [discriminate|].
    injection Hpath as <-.
    destruct (Hleaf 0%nat pg rref cmp st1 page d upd ins F Hp Hu) as [H L].
    eauto.
  - simpl in Hpath.
    destruct (pages st !! pg) as [page|] eqn:Hp; [|discriminate].
    simpl in Hpath.
    destruct (page_u page) as [t|d upd ins] eqn:Hu.
    2:{ injection Hpath as <-.
        destruct (Hleaf (S depth) pg rref cmp st1 page d upd ins F Hp Hu)
          as [H L].
        eauto. }
    destruct (Hint pg page t Hp Hu) as (Hn & ks & Hks & Hsorted).
    rewrite Hks in Hpath. simpl in Hpath.
    destruct (load_ref st pg (descent_slot E key ks)) as [child|] eqn:Hchild;
      [|discriminate].
    simpl in Hpath.
    destruct (Forall2_lookup_l _ _ _ _ _ (sf_pages _ _ _ F) Hp)
      as (page1 & Hp1 & Hpp).
    assert (Hn1 : indx_count page1 = indx_count page).
    { unfold indx_count. now rewrite (page_frame_rows_length _ _ Hpp). }
    assert (Hu1 : exists t1, page_u page1 = row_int t1).
    { apply page_frame_refs in Hpp. rewrite Hu in Hpp.
      destruct (page_u page1); [eauto|tauto]. }
    destruct Hu1 as (t1 & Hu1).
    pose proof (store_frame_heap_wf _ _ _ F Hwf) as Hwf1.
    pose proof (keys_of_store _ _ _ _ _ F Hwf (page_keys_of _ _ _ _ Hks))
      as Hks1.
    destruct (int_select_slot E key pg page1 ks rref cmp st1 TO Hwf1 Hp1 Hks1
                ltac:(lia) Hsorted)
      as (c' & st2 & Hsel & F2).
    apply frame_store_frame in F2.
    pose proof (store_frame_trans _ _ _ _ F F2) as F02.
    assert (Hchild2 : load_ref st2 pg (descent_slot E key ks) = Some child).
    { now rewrite (load_ref_store _ _ _ _ _ F02). }
    cbn [tree_descend]. rewrite Hp1, Hu1, Hsel, Hchild2.
    unfold WT_ERR, __wt_page_in. rewrite (Hpin child). simpl.
    apply IH; [|exact Hpath].
    eapply store_frame_same_r; [| | | |exact F02];
      destruct (negb (Nat.eqb pg (root_page st2))); reflexivity.
Qed.

(** X13.  In a tree whose internal pages are sorted from index 1 on, with
    every pin succeeding, the descent visits the pages the descent slots
    name, level by level, and ends on the leaf they lead to; a search
    that returns 0 reports that leaf. *)
Theorem descent_follows_slots E depth key st leaf :
  total_order (btree_compare E) ->
  heap_wf st = true ->
  int_pages_sorted E st ->
  (forall child, page_in E child = 0) ->
  descent_path E st depth key (root_page st) = Some leaf ->
  (exists cmp' st',
      tree_descend E depth key (root_page st) None 0
                   (with_session srch_clear st) = Ret (leaf, cmp') st' /\
      is_leaf st' leaf) /\
  forall write st',
    __wt_row_search E depth key write st = Ret tt st' ->
    srch_page (session st') = Some leaf.
Proof.
  intros TO Hwf Hint Hpin Hpath. apply Is_true_true in Hwf.
  set (st0 := with_session srch_clear st).
  assert (F0 : store_frame E st st0).
  { apply (store_frame_same_r E st st st0); try reflexivity.
    apply store_frame_refl. }
  destruct (tree_descend_path E key st leaf TO Hwf Hint Hpin depth
              (root_page st) None 0 st0 F0 Hpath)
    as (cmp' & st1 & Hd & _ & L).
  split; [eauto|].
  intros write st' Hrun.
  unfold __wt_row_search, bind, row_position in Hrun. fold st0 in Hrun.
  change (root_page st0) with (root_page st) in Hrun. rewrite Hd in Hrun.
  destruct (pages st1 !! leaf) as [page|]; [|discriminate].
  destruct (leaf_search E (search_fuel (indx_count page)) key leaf 0
              (indx_count page) None cmp' st1)
    as [[[base rip] c] st2|ret st2| |]; try discriminate.
  pose proof (row_finish_exits E key write leaf (write_gen page) base rip c
                st2) as HF.
  rewrite Hrun in HF. destruct HF as (s & rip' & c2 & _ & ->).
  reflexivity.
Qed.

Lemma descent_follows_slots_witness :
  descent_path sample_env sample_state 2 ["d"%byte] 0 = Some 2%nat /\
  exists st',
    __wt_row_search sample_env 2 ["d"%byte] true sample_state = Ret tt st' /\
    srch_page (session st') = Some 2%nat.
Proof.
  assert (Hint : int_pages_sorted sample_env sample_state).
  { intros pg page t Hp Hu.
    destruct pg as [|[|[|[|pg]]]]; simpl in Hp; try discriminate;
      injection Hp as <-; try discriminate.
    split; [vm_compute; split; reflexivity|].
    exists [["m"]; ["d"]; ["h"]]%byte. split; reflexivity. }
  destruct (descent_follows_slots sample_env 2 ["d"%byte] sample_state 2
              lex_compare_total_order eq_refl Hint (fun _ => eq_refl)
              eq_refl) as (_ & Hres).
  split; [reflexivity|].
  eexists. split; [vm_compute; reflexivity|].
  apply (Hres true). vm_compute. reflexivity.
Defined.

(* ================================================================== *)
(** ** A reported match is a match *)
(* ================================================================== *)

Lemma item_bytes_same st st' p r :
  bufs st' = bufs st -> freed st' = freed st ->
  item_bytes st' p r = item_bytes st p r.
Proof. intros Hb Hf. unfold item_bytes. now rewrite Hb, Hf. Qed.

(** When the leaf's binary search ends with [cmp] zero, either no
    iteration ran, or the comparator returned zero on the key of the slot
    [rip] points to. *)
Lemma leaf_search_match_sound E key pg fuel :
  forall base limit rip cmp st b' rip' st',
    leaf_search E fuel key pg base limit rip cmp st = Ret (b', rip', 0) st' ->
    (rip' = rip /\ cmp = 0) \/
    exists i page r k,
      rip' = Some (pg, i) /\ pages st' !! pg = Some page /\
      page_rows page !! Z.to_nat i = Some r /\
      item_bytes st' page r = Some k /\ btree_compare E key k = 0.
Proof.
  induction fuel as [|fuel IH]; intros base limit rip cmp st b' rip' st'.
  - simpl. destruct (limit =? 0); [|discriminate].
    intros [= <- <- <- <-]. now left.
  - rewrite leaf_search_unfold.
    destruct (limit =? 0); [intros [= <- <- <- <-]; now left|].
    simpl. set (indx := u32 (base + Z.shiftr limit 1)).
    destruct (WT_ERR pg (key_materialize E pg indx) st)
      as [[] st1|ret st1| |]; try discriminate.
    unfold call_compare.
    destruct (pages st1 !! pg) as [page|] eqn:Hp; [|discriminate].
    unfold load_row. rewrite Hp. simpl.
    destruct (page_rows page !! Z.to_nat indx) as [r|] eqn:Hr;
      [|discriminate].
    destruct (item_bytes st1 page r) as [k|] eqn:Hk; [|discriminate].
    destruct (btree_compare E key k =? 0) eqn:Hc.
    + intros Heq. injection Heq as <- <- _ <-. right. apply Z.eqb_eq in Hc.
      exists indx, page, r, k.
      split; [reflexivity|]. split; [exact Hp|]. split; [exact Hr|].
      split; [exact Hk|exact Hc].
    + apply Z.eqb_neq in Hc.
      destruct (btree_compare E key k <? 0); intros Hrun;
        apply IH in Hrun; destruct Hrun as [[_ H0]|H]; auto; contradiction.
Qed.

Lemma row_finish_sound E key write pg wg base rip cmp st st' :
  srch_upd (session st) = None ->
  row_finish E key write pg wg base rip cmp st = Ret tt st' ->
  srch_match (session st') = 1 ->
  pages st' = pages st /\ bufs st' = bufs st /\ freed st' = freed st /\
  srch_page (session st') = Some pg /\
  ((cmp = 0 /\
    (forall slot pos, srch_upd (session st') <> Some (UpdIns slot pos)) /\
    exists i, rip = Some (pg, i) /\ srch_ip (session st') = Some (pg, i)) \/
   (exists page d upd a slot pos chain node,
       pages st !! pg = Some page /\
       page_u page = row_leaf d upd (Some a) /\
       a !! Z.to_nat slot = Some chain /\ chain !! pos = Some node /\
       btree_compare E key (ins_key node) = 0 /\
       srch_upd (session st') = Some (UpdIns slot pos))).
Proof.
  intros Hu0. unfold row_finish.
  destruct (pages st !! pg) as [page|] eqn:Hp; [|discriminate].
  destruct (page_u page) as [|d upd ins] eqn:Hu; [discriminate|].
  destruct (cmp =? 0) eqn:Hc.
  - apply Z.eqb_eq in Hc.
    destruct rip as [[rp ri]|]; [|discriminate]. simpl.
    destruct (Nat.eqb rp pg) eqn:Hrp; [|discriminate].
    apply Nat.eqb_eq in Hrp. subst rp.
    assert (Hdone : forall s,
               pages s = pages st -> bufs s = bufs st -> freed s = freed st ->
               (forall slot pos, srch_upd (session s) <> Some (UpdIns slot pos)) ->
               row_done E write pg wg (Some (pg, ri)) cmp s = Ret tt st' ->
               pages st' = pages st /\ bufs st' = bufs st /\
               freed st' = freed st /\ srch_page (session st') = Some pg /\
               (forall slot pos,
                   srch_upd (session st') <> Some (UpdIns slot pos)) /\
               srch_ip (session st') = Some (pg, ri)).
    { intros s Hps Hbs Hfs Hus Hrun.
      pose proof (row_done_any E write pg wg (Some (pg, ri)) cmp s) as HD.
      rewrite Hrun in HD. subst st'. simpl.
      split; [exact Hps|]. split; [exact Hbs|]. split; [exact Hfs|].
      split; [reflexivity|]. split; [exact Hus|reflexivity]. }
    assert (Hleft : forall s,
               pages s = pages st -> bufs s = bufs st -> freed s = freed st ->
               (forall slot pos, srch_upd (session s) <> Some (UpdIns slot pos)) ->
               row_done E write pg wg (Some (pg, ri)) cmp s = Ret tt st' ->
               pages st' = pages st /\ bufs st' = bufs st /\
               freed st' = freed st /\ srch_page (session st') = Some pg /\
               (cmp = 0 /\
                (forall slot pos,
                    srch_upd (session st') <> Some (UpdIns slot pos)) /\
                exists i, Some (pg, ri) = Some (pg, i) /\
                          srch_ip (session st') = Some (pg, i))).
    { intros s Hps Hbs Hfs Hus Hrun.
      destruct (Hdone s Hps Hbs Hfs Hus Hrun) as (? & ? & ? & ? & ? & ?).
      eauto 10. }
    destruct upd as [us|].
    + destruct (us !! Z.to_nat ri) as [u|]; [|discriminate].
      intros Hrun _.
      apply Hleft in Hrun; try reflexivity;
        [|intros ? ?; simpl; discriminate].
      destruct Hrun as (? & ? & ? & ? & ?). auto 10.
    + intros Hrun _.
      apply Hleft in Hrun; try reflexivity;
        [|intros ? ?; simpl; rewrite Hu0; discriminate].
      destruct Hrun as (? & ? & ? & ? & ?). auto 10.
  - set (rip' := if negb (base =? 0) then Some (pg, u32 (base - 1))
                 else Some (pg, 0)).
    destruct (if base =? 0 then Some (indx_count page)
              else WT_ROW_INDX_SLOT pg rip') as [slot|]; [|discriminate].
    destruct (WT_ROW_INSERT_SLOT ins slot) as [chain|] eqn:Hchain;
      [|discriminate].
    set (st1 := match ins with
                | Some _ =>
                    with_session (set_srch_ins (Some (InsSlot slot)))
                      (with_session (set_srch_slot slot) st)
                | None => with_session (set_srch_slot slot) st
                end).
    assert (H1 : pages st1 = pages st /\ bufs st1 = bufs st /\
                 freed st1 = freed st).
    { subst st1. destruct ins; simpl; auto. }
    destruct H1 as (Hp1 & Hb1 & Hf1).
    destruct chain as [|node chain].
    + destruct (negb write); [discriminate|].
      intros Hrun Hm.
      pose proof (row_done_any E write pg wg rip' cmp st1) as HD.
      rewrite Hrun in HD. subst st'. simpl in Hm. rewrite Hc in Hm.
      discriminate.
    + pose proof (ins_search_spec E key slot (node :: chain) 0%nat st1) as HI.
      destruct (__wt_ins_search E key slot 0 (node :: chain) st1)
        as [c st2] eqn:Hrun.
      simpl in HI. destruct HI as (FF & _ & HI).
      destruct FF as (_ & Hp2 & Hb2 & Hf2 & _).
      destruct (negb (c =? 0) && negb write); [discriminate|].
      intros Hdone Hm.
      pose proof (row_done_any E write pg wg rip' c st2) as HD.
      rewrite Hdone in HD. subst st'. simpl in Hm |- *.
      destruct HI as [(-> & k & nd & (Hk & Heq & _) & _ & Hu2 & _)
                     |(-> & _)]; [|discriminate].
      split; [congruence|]. split; [congruence|]. split; [congruence|].
      split; [reflexivity|]. right.
      destruct ins as [a|]; [|discriminate]. simpl in Hchain.
      exists page, d, upd, a, slot, k, (node :: chain), nd. auto 10.
Qed.

(** X14.  A reported match with a slot pointer is a match: when the
    search returns 0 with the match flag set and [srch_ip] not NULL, the
    key its result refers to, on the page or in an insert chain, is one
    the comparator calls equal to the target.  (The one return 0 with
    [srch_ip] NULL is the empty leaf reached with [cmp] zero, where the
    code reports a match without any comparison: see
    [empty_leaf_reported_as_match].) *)
Theorem reported_match_is_equal E depth key write st st' :
  __wt_row_search E depth key write st = Ret tt st' ->
  srch_match (session st') = 1 ->
  srch_ip (session st') <> None ->
  exists k, reported_key st' = Some k /\ btree_compare E key k = 0.
Proof.
  unfold __wt_row_search, bind.
  pose proof (row_position_store E depth key st) as HP.
  destruct (row_position E depth key st)
    as [[[[[pg wg] base] rip] cmp] st2|ret2 st2| |] eqn:Hpos;
    try discriminate.
  destruct HP as (_ & S2 & _).
  apply same_srch_fields in S2. simpl in S2.
  destruct S2 as (_ & _ & _ & _ & _ & _ & Hu & _).
  intros Hrun Hm _.
  destruct (row_finish_sound _ _ _ _ _ _ _ _ _ _ Hu Hrun Hm)
    as (Hps & Hbs & Hfs & Hpg & Hcase).
  unfold reported_key. rewrite Hpg. simpl.
  destruct Hcase as [(-> & Hnot & i & -> & Hip)
                    |(page & d & upd & a & slot & pos & chain & node
                      & Hp & Hpu & Ha & Hn & Heq & Hupd)].
  - unfold row_position in Hpos.
    destruct (tree_descend E depth key
                (root_page (with_session srch_clear st)) None 0
                (with_session srch_clear st))
      as [[pg' c] s1|r s1| |]; try discriminate.
    destruct (pages s1 !! pg') as [page1|]; [|discriminate].
    destruct (leaf_search E (search_fuel (indx_count page1)) key pg' 0
                (indx_count page1) None c s1)
      as [[[b' r'] c'] s2|r s2| |] eqn:Hls; try discriminate.
    injection Hpos as -> _ -> -> -> ->.
    apply leaf_search_match_sound in Hls.
    destruct Hls as [[? _]|(i' & page & r & k & Hi & Hp & Hr & Hk & Heq)];
      [discriminate|].
    injection Hi as <-.
    rewrite Hps, Hp. simpl. exists k. split; [|exact Heq].
    rewrite Hip. simpl. rewrite Nat.eqb_refl, Hr. simpl.
    rewrite (item_bytes_same st2 st' page r Hbs Hfs).
    destruct (srch_upd (session st')) as [[s|s p]|]; try exact Hk.
    now destruct (Hnot s p).
  - rewrite Hps, Hp, Hupd. simpl. rewrite Hpu. simpl. rewrite Ha. simpl.
    rewrite Hn. simpl. eauto.
Qed.

Lemma reported_match_is_equal_witness :
  exists st',
    __wt_row_search sample_env 2 ["d"; "a"]%byte false sample_state
    = Ret tt st' /\
    reported_key st' = Some ["d"; "a"]%byte.
Proof.
  edestruct (reported_match_is_equal sample_env 2 ["d"; "a"]%byte false
               sample_state) as (k & Hk & _);
    [vm_compute; reflexivity|reflexivity|discriminate|].
  eexists. split; [vm_compute; reflexivity|reflexivity].
Defined.

(* ================================================================== *)
(** ** Defined behaviour on a well-formed tree *)
(* ================================================================== *)

Lemma slot_ok_item st p r : slot_ok st p r -> is_Some (item_bytes st p r).
Proof.
  intros [H|[_ H]]; [|exact H].
  unfold item_bytes. rewrite H. simpl. eauto.
Qed.

Lemma key_materialize_defined E pg indx st k :
  load_row st pg indx = Some k -> key_materialize E pg indx st <> Undef.
Proof.
  intros Hl. pose proof Hl as Hl'. unfold load_row in Hl'.
  destruct (pages st !! pg) as [p|] eqn:Hp; [|discriminate].
  destruct (row_size k =? 0) eqn:Hz.
  - apply Z.eqb_eq in Hz. destruct k as [key size]. simpl in Hz. subst size.
    destruct key as [|off|a].
    + unfold key_materialize. rewrite Hl. simpl.
      rewrite (key_build_off_page E pg indx st p _ Hp Hl); [discriminate|].
      discriminate.
    + destruct (cell_process E (dsk p) off) as [ret b] eqn:Hcell.
      destruct (ret =? 0) eqn:Hret.
      * apply Z.eqb_eq in Hret. subst ret.
        rewrite (key_materialize_decoded E pg indx st p off b Hp Hl Hcell).
        discriminate.
      * unfold key_materialize. rewrite Hl. simpl.
        unfold __wt_key_build, bind, key_build_instantiate.
        rewrite Hp, Hl. simpl. rewrite Hcell, Hret. simpl. discriminate.
    + unfold key_materialize. rewrite Hl. simpl.
      rewrite (key_build_off_page E pg indx st p _ Hp Hl); [discriminate|].
      discriminate.
  - apply Z.eqb_neq in Hz.
    rewrite (key_materialize_resident E pg indx st k Hl Hz). discriminate.
Qed.

Lemma leaf_wf_frame p p' : page_frame p p' -> leaf_wf p' = leaf_wf p.
Proof.
  intros (_ & _ & H). unfold leaf_wf.
  destruct (page_u p), (page_u p'); try tauto.
  destruct H as (-> & -> & ->). reflexivity.
Qed.

(** A well-formed tree stays well formed when the store changes by one
    key materialization at most. *)
Lemma tree_wf_step E (P : event -> Prop) st st' :
  frame E P st st' ->
  (forall pg' q q' i r r',
      pages st !! pg' = Some q -> page_rows q !! i = Some r ->
      slot_ok st q r ->
      pages st' !! pg' = Some q' -> page_rows q' !! i = Some r' ->
      slot_ok st' q' r') ->
  tree_wf st -> tree_wf st'.
Proof.
  intros F Hslots (Hwf & Hroot & Hkeys & Hshape).
  pose proof (Forall2_length _ _ _ (fr_pages _ _ _ _ F)) as Hlen.
  split; [|split; [|split]].
  - apply Is_true_true. eapply frame_heap_wf; [exact F|].
    now apply Is_true_true.
  - rewrite (fr_root _ _ _ _ F), <- Hlen. exact Hroot.
  - intros pg' q' i r' Hq' Hr'.
    destruct (Forall2_lookup_r _ _ _ _ _ (fr_pages _ _ _ _ F) Hq')
      as (q & Hq & Hqq).
    destruct (lookup_lt_is_Some_2 (page_rows q) i) as [r Hr].
    { rewrite <- (page_frame_rows_length _ _ Hqq).
      eapply lookup_lt_Some; eauto. }
    eapply Hslots; eauto.
  - intros pg' q' Hq'.
    destruct (Forall2_lookup_r _ _ _ _ _ (fr_pages _ _ _ _ F) Hq')
      as (q & Hq & Hqq).
    destruct (Hshape pg' q Hq) as [Hn Hu].
    split.
    + unfold indx_count in *. now rewrite (page_frame_rows_length _ _ Hqq).
    + pose proof (leaf_wf_frame _ _ Hqq) as Hlw.
      apply page_frame_refs in Hqq.
      destruct (page_u q'), (page_u q); try tauto.
      * rewrite Hqq, <- Hlen. exact Hu.
      * congruence.
Qed.

Lemma tree_wf_same st st' :
  root_page st' = root_page st -> pages st' = pages st ->
  bufs st' = bufs st -> freed st' = freed st ->
  tree_wf st -> tree_wf st'.
Proof.
  intros Hr Hp Hb Hf (Hwf & Hroot & Hkeys & Hshape).
  split; [|split; [|split]].
  - unfold heap_wf in *. now rewrite Hb, Hf.
  - now rewrite Hr, Hp.
  - intros pg p i r Hpg Hrow. rewrite Hp in Hpg.
    specialize (Hkeys pg p i r Hpg Hrow). unfold slot_ok in *.
    now rewrite (item_bytes_same st st' p r Hb Hf).
  - intros pg p Hpg. rewrite Hp in *. exact (Hshape pg p Hpg).
Qed.

Lemma tree_wf_materialize E pg indx st st' :
  key_materialize E pg indx st = Ret tt st' -> tree_wf st -> tree_wf st'.
Proof.
  intros Hrun Hwf.
  apply (tree_wf_step E (fun _ => True) st st'); [| |exact Hwf].
  - eapply key_materialize_frame; [|exact Hrun]. auto.
  - eapply key_materialize_slot_ok; [apply Hwf|exact Hrun].
Qed.

(** One probe of a binary search on a well-formed tree: the key is
    materialized, or its cell fails to decode; then the comparator
    reads it. *)
Lemma probe_defined E key pg indx st page :
  tree_wf st -> pages st !! pg = Some page ->
  0 <= indx < indx_count page ->
  match WT_ERR pg (key_materialize E pg indx) st with
  | Ret _ st1 =>
      tree_wf st1 /\ frame E (fun _ => True) st st1 /\
      exists c, call_compare E key pg indx st1
                = Ret c (log (EvCompare pg indx) st1)
  | Err _ st1 => tree_wf st1
  | Undef | OutOfFuel => False
  end.
Proof.
  intros Hwf Hp Hi.
  destruct (lookup_lt_is_Some_2 (page_rows page) (Z.to_nat indx)) as [r Hr].
  { unfold indx_count in Hi. lia. }
  assert (Hl : load_row st pg indx = Some r).
  { unfold load_row. rewrite Hp. exact Hr. }
  pose proof (key_materialize_defined E pg indx st r Hl) as Hdef.
  pose proof (key_materialize_cases E pg indx st) as HC.
  unfold WT_ERR.
  destruct (key_materialize E pg indx st) as [[] st1|ret st1| |] eqn:Hrun;
    [| |contradiction|contradiction].
  2:{ destruct HC as (_ & p & off & _ & _ & ->). unfold goto_err.
      eapply tree_wf_same; [..|exact Hwf];
        unfold WT_PAGE_OUT;
        destruct (negb (Nat.eqb pg (root_page (log (EvCellProcess pg off) st))));
        reflexivity. }
  pose proof (tree_wf_materialize _ _ _ _ _ Hrun Hwf) as Hwf1.
  assert (F : frame E (fun _ => True) st st1).
  { eapply key_materialize_frame; [|exact Hrun]. auto. }
  split; [exact Hwf1|]. split; [exact F|].
  destruct (Forall2_lookup_l _ _ _ _ _ (fr_pages _ _ _ _ F) Hp)
    as (page1 & Hp1 & Hpp).
  destruct (lookup_lt_is_Some_2 (page_rows page1) (Z.to_nat indx))
    as [r1 Hr1].
  { rewrite (page_frame_rows_length _ _ Hpp). eapply lookup_lt_Some; eauto. }
  destruct Hwf1 as (_ & _ & Hkeys1 & _).
  destruct (slot_ok_item _ _ _ (Hkeys1 pg page1 _ r1 Hp1 Hr1)) as [b Hb].
  exists (btree_compare E key b). unfold call_compare, load_row.
  rewrite Hp1. simpl. rewrite Hr1, Hb. reflexivity.
Qed.

Lemma tree_wf_log e st : tree_wf st -> tree_wf (log e st).
Proof. now apply tree_wf_same. Qed.

Lemma tree_wf_page_out pg st : tree_wf st -> tree_wf (WT_PAGE_OUT pg st).
Proof.
  apply tree_wf_same; unfold WT_PAGE_OUT;
    destruct (negb (Nat.eqb pg (root_page st))); reflexivity.
Qed.

Lemma leaf_search_defined E key pg fuel :
  forall base limit rip cmp st page,
    tree_wf st -> pages st !! pg = Some page ->
    0 <= base -> 0 <= limit -> base + limit <= indx_count page ->
    match leaf_search E fuel key pg base limit rip cmp st with
    | Ret (b', rip', _) st' =>
        tree_wf st' /\ frame E (fun _ => True) st st' /\
        0 <= b' <= indx_count page /\
        (0 < limit \/
         (exists i, rip = Some (pg, i) /\ 0 <= i < indx_count page) ->
         exists i, rip' = Some (pg, i) /\ 0 <= i < indx_count page)
    | Err _ st' => tree_wf st'
    | OutOfFuel => True
    | Undef => False
    end.
Proof.
  induction fuel as [|fuel IH];
    intros base limit rip cmp st page Hwf Hp Hb Hl Hle.
  - simpl. destruct (limit =? 0) eqn:Hz; [|exact I].
    apply Z.eqb_eq in Hz.
    split; [exact Hwf|]. split; [apply frame_refl|]. split; [lia|].
    intros [?|H]; [lia|exact H].
  - rewrite leaf_search_unfold.
    destruct (limit =? 0) eqn:Hz.
    { apply Z.eqb_eq in Hz.
      split; [exact Hwf|]. split; [apply frame_refl|]. split; [lia|].
      intros [?|H]; [lia|exact H]. }
    apply Z.eqb_neq in Hz.
    assert (H32 : indx_count page < 2 ^ 32).
    { destruct Hwf as (_ & _ & _ & Hshape). apply (Hshape pg page Hp). }
    destruct (search_step_arith base limit (indx_count page) Hb ltac:(lia)
                Hle H32)
      as (Hi & Hr & Hnx & Hh & Hhl & Hh' & Hhr & He).
    simpl. set (indx := u32 (base + Z.shiftr limit 1)) in *.
    pose proof (probe_defined E key pg indx st page Hwf Hp ltac:(lia)) as HP.
    destruct (WT_ERR pg (key_materialize E pg indx) st)
      as [[] st1|ret st1| |]; [|exact HP|contradiction|contradiction].
    destruct HP as (Hwf1 & F1 & c & Hcmp). rewrite Hcmp.
    set (st2 := log (EvCompare pg indx) st1) in *.
    assert (Hwf2 : tree_wf st2) by now apply tree_wf_log.
    assert (F2 : frame E (fun _ => True) st st2).
    { eapply frame_trans; [exact F1|]. now apply frame_log. }
    destruct (Forall2_lookup_l _ _ _ _ _ (fr_pages _ _ _ _ F2) Hp)
      as (page2 & Hp2 & Hpp).
    assert (Hn2 : indx_count page2 = indx_count page).
    { unfold indx_count. now rewrite (page_frame_rows_length _ _ Hpp). }
    destruct (c =? 0).
    { split; [exact Hwf2|]. split; [exact F2|]. split; [lia|].
      intros _. exists indx. split; [reflexivity|lia]. }
    rewrite Hh, Hnx, Hh'.
    assert (Hrec : forall b l,
               0 <= b -> 0 <= l -> b + l <= indx_count page ->
               match leaf_search E fuel key pg b l (Some (pg, indx)) c st2 with
               | Ret (b', rip', _) st' =>
                   tree_wf st' /\ frame E (fun _ => True) st st' /\
                   0 <= b' <= indx_count page /\
                   (0 < limit \/
                    (exists i, rip = Some (pg, i) /\
                               0 <= i < indx_count page) ->
                    exists i, rip' = Some (pg, i) /\
                              0 <= i < indx_count page)
               | Err _ st' => tree_wf st'
               | OutOfFuel => True
               | Undef => False
               end).
    { intros b l Hb' Hl' Hle'.
      specialize (IH b l (Some (pg, indx)) c st2 page2 Hwf2 Hp2 Hb' Hl').
      rewrite Hn2 in IH. specialize (IH Hle').
      destruct (leaf_search E fuel key pg b l (Some (pg, indx)) c st2)
        as [[[b' rip'] c'] st'|ret st'| |]; auto.
      destruct IH as (Hwf' & F' & Hb2 & Hrip).
      split; [exact Hwf'|]. split; [eapply frame_trans; eauto|].
      split; [exact Hb2|]. intros _. apply Hrip. right.
      exists indx. split; [reflexivity|lia]. }
    destruct (c <? 0); apply Hrec; lia.
Qed.

Lemma int_search_defined E key pg fuel :
  forall base limit rref cmp st page,
    tree_wf st -> pages st !! pg = Some page ->
    0 <= base -> 0 <= limit -> base + limit <= indx_count page ->
    1 <= base \/ 1 <= limit ->
    match int_search E fuel key pg base limit rref cmp st with
    | Ret (b', rref', c') st' =>
        tree_wf st' /\ frame E (fun _ => True) st st' /\
        0 <= b' <= indx_count page /\ (c' = 0 \/ 1 <= b') /\
        (0 < limit \/
         (exists i, rref = Some (pg, i) /\ 0 <= i < indx_count page) ->
         exists i, rref' = Some (pg, i) /\ 0 <= i < indx_count page)
    | Err _ st' => tree_wf st'
    | OutOfFuel => True
    | Undef => False
    end.
Proof.
  induction fuel as [|fuel IH];
    intros base limit rref cmp st page Hwf Hp Hb Hl Hle Hinv.
  - simpl. destruct (limit =? 0) eqn:Hz; [|exact I].
    apply Z.eqb_eq in Hz.
    split; [exact Hwf|]. split; [apply frame_refl|]. split; [lia|].
    split; [right; lia|]. intros [?|H]; [lia|exact H].
  - rewrite int_search_unfold.
    destruct (limit =? 0) eqn:Hz.
    { apply Z.eqb_eq in Hz.
      split; [exact Hwf|]. split; [apply frame_refl|]. split; [lia|].
      split; [right; lia|]. intros [?|H]; [lia|exact H]. }
    apply Z.eqb_neq in Hz.
    assert (H32 : indx_count page < 2 ^ 32).
    { destruct Hwf as (_ & _ & _ & Hshape). apply (Hshape pg page Hp). }
    destruct (search_step_arith base limit (indx_count page) Hb ltac:(lia)
                Hle H32)
      as (Hi & Hr & Hnx & Hh & Hhl & Hh' & Hhr & He).
    simpl. set (indx := u32 (base + Z.shiftr limit 1)) in *.
    pose proof (probe_defined E key pg indx st page Hwf Hp ltac:(lia)) as HP.
    destruct (WT_ERR pg (key_materialize E pg indx) st)
      as [[] st1|ret st1| |]; [|exact HP|contradiction|contradiction].
    destruct HP as (Hwf1 & F1 & c & Hcmp).
    rewrite Hh, Hnx, Hh'.
    assert (Hrec : forall b l c0 s,
               tree_wf s -> frame E (fun _ => True) st s ->
               0 <= b -> 0 <= l -> b + l <= indx_count page ->
               1 <= b \/ 1 <= l ->
               match int_search E fuel key pg b l (Some (pg, indx)) c0 s with
               | Ret (b', rref', c') st' =>
                   tree_wf st' /\ frame E (fun _ => True) st st' /\
                   0 <= b' <= indx_count page /\ (c' = 0 \/ 1 <= b') /\
                   (0 < limit \/
                    (exists i, rref = Some (pg, i) /\
                               0 <= i < indx_count page) ->
                    exists i, rref' = Some (pg, i) /\
                              0 <= i < indx_count page)
               | Err _ st' => tree_wf st'
               | OutOfFuel => True
               | Undef => False
               end).
    { intros b l c0 s Hwfs Fs Hb' Hl' Hle' Hinv'.
      destruct (Forall2_lookup_l _ _ _ _ _ (fr_pages _ _ _ _ Fs) Hp)
        as (page2 & Hp2 & Hpp).
      assert (Hn2 : indx_count page2 = indx_count page).
      { unfold indx_count. now rewrite (page_frame_rows_length _ _ Hpp). }
      specialize (IH b l (Some (pg, indx)) c0 s page2 Hwfs Hp2 Hb' Hl').
      rewrite Hn2 in IH. specialize (IH Hle' Hinv').
      destruct (int_search E fuel key pg b l (Some (pg, indx)) c0 s)
        as [[[b' rref'] c'] st'|ret st'| |]; auto.
      destruct IH as (Hwf' & F' & Hb2 & Hc2 & Hrip).
      split; [exact Hwf'|]. split; [eapply frame_trans; eauto|].
      split; [exact Hb2|]. split; [exact Hc2|]. intros _. apply Hrip. right.
      exists indx. split; [reflexivity|lia]. }
    destruct (negb (indx =? 0)) eqn:Hi0.
    2:{ apply Hrec; auto; lia. }
    apply negb_true_iff, Z.eqb_neq in Hi0.
    rewrite Hcmp.
    set (st2 := log (EvCompare pg indx) st1) in *.
    assert (Hwf2 : tree_wf st2) by now apply tree_wf_log.
    assert (F2 : frame E (fun _ => True) st st2).
    { eapply frame_trans; [exact F1|]. now apply frame_log. }
    destruct (c =? 0) eqn:Hc0.
    { apply Z.eqb_eq in Hc0.
      split; [exact Hwf2|]. split; [exact F2|]. split; [lia|].
      split; [now left|]. intros _. exists indx. split; [reflexivity|lia]. }
    destruct (c <? 0); apply Hrec; auto; lia.
Qed.

Lemma int_select_defined E key pg rref cmp st page :
  tree_wf st -> pages st !! pg = Some page ->
  match int_select E key pg (indx_count page) rref cmp st with
  | Ret (r, _) st' =>
      tree_wf st' /\ frame E (fun _ => True) st st' /\
      exists i, r = Some (pg, i) /\ 0 <= i < indx_count page
  | Err _ st' => tree_wf st'
  | OutOfFuel => True
  | Undef => False
  end.
Proof.
  intros Hwf Hp.
  assert (Hn : 0 < indx_count page < 2 ^ 32).
  { destruct Hwf as (_ & _ & _ & Hshape). apply (Hshape pg page Hp). }
  unfold int_select.
  pose proof (int_search_defined E key pg (search_fuel (indx_count page)) 0
                (indx_count page) rref cmp st page Hwf Hp ltac:(lia)
                ltac:(lia) ltac:(lia) ltac:(lia)) as H.
  destruct (int_search E (search_fuel (indx_count page)) key pg 0
              (indx_count page) rref cmp st)
    as [[[b r] c] st'|ret st'| |]; auto.
  destruct H as (Hwf' & F & Hb & Hc & Hr).
  split; [exact Hwf'|]. split; [exact F|].
  destruct (c =? 0) eqn:Hc0; simpl.
  - apply Hr. left. lia.
  - apply Z.eqb_neq in Hc0. exists (b - 1).
    rewrite u32_id by lia. split; [reflexivity|lia].
Qed.

Lemma tree_descend_defined E key depth :
  forall pg rref cmp st,
    tree_wf st -> (pg < length (pages st))%nat ->
    match tree_descend E depth key pg rref cmp st with
    | Ret (leaf, _) st' => tree_wf st' /\ is_leaf st' leaf
    | Err _ st' => tree_wf st'
    | OutOfFuel => True
    | Undef => False
    end.
Proof.
  induction depth as [|depth IH]; intros pg rref cmp st Hwf Hpg.
  - simpl. destruct (lookup_lt_is_Some_2 _ _ Hpg) as [page Hp]. rewrite Hp.
    destruct (page_u page) eqn:Hu; [exact I|].
    split; [exact Hwf|]. exists page. eauto.
  - simpl. destruct (lookup_lt_is_Some_2 _ _ Hpg) as [page Hp]. rewrite Hp.
    destruct (page_u page) as [t|d upd ins] eqn:Hu.
    2:{ split; [exact Hwf|]. exists page. eauto. }
    pose proof (int_select_defined E key pg rref cmp st page Hwf Hp) as HS.
    destruct (int_select E key pg (indx_count page) rref cmp st)
      as [[r c] st1|ret st1| |]; auto.
    destruct HS as (Hwf1 & F1 & i & -> & Hi).
    destruct (Forall2_lookup_l _ _ _ _ _ (fr_pages _ _ _ _ F1) Hp)
      as (page1 & Hp1 & Hpp).
    pose proof (page_frame_rows_length _ _ Hpp) as Hlen1.
    assert (Hchild : exists child,
               load_ref st1 pg i = Some child /\
               (child < length (pages st1))%nat).
    { destruct Hwf1 as (_ & _ & _ & Hshape1).
      destruct (Hshape1 pg page1 Hp1) as [_ Hrefs].
      apply page_frame_refs in Hpp. rewrite Hu in Hpp.
      unfold load_ref. rewrite Hp1. simpl.
      unfold page_rows in Hlen1. rewrite Hu in Hlen1.
      destruct (page_u page1) as [t1|]; [|tauto].
      rewrite !length_fmap in Hlen1.
      destruct (lookup_lt_is_Some_2 t1 (Z.to_nat i)) as [rr Hrr].
      { unfold indx_count, page_rows in Hi. rewrite Hu, length_fmap in Hi.
        lia. }
      exists (rref_ref rr). rewrite Hrr. split; [reflexivity|].
      rewrite Forall_forall in Hrefs. apply Hrefs.
      apply list_elem_of_fmap. exists rr. split; [reflexivity|].
      eapply list_elem_of_lookup_2; eauto. }
    destruct Hchild as (child & Hload & Hlt). rewrite Hload.
    unfold WT_ERR, __wt_page_in.
    destruct (page_in E child =? 0); simpl.
    + apply IH.
      * eapply tree_wf_same; [..|exact Hwf1];
          destruct (negb (Nat.eqb pg (root_page st1))); reflexivity.
      * destruct (negb (Nat.eqb pg (root_page st1))); exact Hlt.
    + unfold goto_err. now apply tree_wf_page_out.
Qed.

Lemma row_position_defined E depth key st :
  tree_wf st ->
  match row_position E depth key st with
  | Ret (pg, _, base, rip, _) st' =>
      tree_wf st' /\
      exists page i,
        pages st' !! pg = Some page /\
        0 <= base <= indx_count page /\
        rip = Some (pg, i) /\ 0 <= i < indx_count page
  | Err _ st' => tree_wf st'
  | OutOfFuel => True
  | Undef => False
  end.
Proof.
  intros Hwf. unfold row_position.
  set (st0 := with_session srch_clear st).
  assert (Hwf0 : tree_wf st0) by now apply (tree_wf_same st st0).
  pose proof (tree_descend_defined E key depth (root_page st0) None 0 st0
                Hwf0 ltac:(apply Hwf0)) as HD.
  destruct (tree_descend E depth key (root_page st0) None 0 st0)
    as [[pg cmp] st1|ret st1| |]; auto.
  destruct HD as (Hwf1 & page & d & upd & ins & Hp & Hu). rewrite Hp.
  assert (Hn : 0 < indx_count page < 2 ^ 32).
  { destruct Hwf1 as (_ & _ & _ & Hshape). apply (Hshape pg page Hp). }
  pose proof (leaf_search_defined E key pg (search_fuel (indx_count page)) 0
                (indx_count page) None cmp st1 page Hwf1 Hp ltac:(lia)
                ltac:(lia) ltac:(lia)) as HL.
  destruct (leaf_search E (search_fuel (indx_count page)) key pg 0
              (indx_count page) None cmp st1)
    as [[[base rip] c] st2|ret st2| |]; auto.
  destruct HL as (Hwf2 & F & Hb & Hrip).
  split; [exact Hwf2|].
  destruct (Forall2_lookup_l _ _ _ _ _ (fr_pages _ _ _ _ F) Hp)
    as (page2 & Hp2 & Hpp).
  assert (Hn2 : indx_count page2 = indx_count page).
  { unfold indx_count. now rewrite (page_frame_rows_length _ _ Hpp). }
  destruct Hrip as (i & -> & Hi); [left; lia|].
  exists page2, i. rewrite Hn2. auto.
Qed.

Lemma row_finish_defined E key write pg wg base i cmp st page :
  tree_wf st -> pages st !! pg = Some page ->
  is_leaf st pg ->
  0 <= base <= indx_count page -> 0 <= i < indx_count page ->
  srch_upd (session st) = None ->
  row_finish E key write pg wg base (Some (pg, i)) cmp st <> Undef.
Proof.
  intros Hwf Hp (page' & d & upd & ins & Hp' & Hu) Hb Hi Hu0.
  rewrite Hp in Hp'. injection Hp' as <-.
  destruct Hwf as (_ & _ & _ & Hshape).
  destruct (Hshape pg page Hp) as [Hn Hlwf]. rewrite Hu in Hlwf.
  destruct (leaf_wf_spec page Hlwf) as (d' & upd' & ins' & Hu' & Hlu & Hli).
  rewrite Hu in Hu'. injection Hu' as <- <- <-.
  assert (Hcount : indx_count page = Z.of_nat (length d)).
  { unfold indx_count, page_rows. now rewrite Hu. }
  destruct (Z.eq_dec cmp 0) as [->|Hc].
  - assert (Hslot : match upd with
                    | Some us => is_Some (us !! Z.to_nat i)
                    | None => True
                    end).
    { destruct upd as [us|]; [|exact I]. apply lookup_lt_is_Some. lia. }
    rewrite (row_finish_match E key write pg wg base i st page d upd ins Hp Hu
               Hslot).
    match goal with
    | |- row_done _ _ _ _ _ _ ?s <> _ =>
        destruct (row_done_exits E write pg wg (Some (pg, i)) 0 s)
          as [H|[_ H]]; [|rewrite H; discriminate|rewrite H; discriminate]
    end.
    destruct upd as [us|]; simpl; [|now rewrite Hu0].
    destruct Hslot as [u Hus]. unfold load_upd. simpl. rewrite Hp. simpl.
    rewrite Hu. simpl. eauto.
  - destruct (row_finish_miss E key write pg wg base (Some (pg, i)) cmp st
                page d upd ins Hp Hu Hc Hb ltac:(lia) Hli)
      as (st1 & _ & _ & [(k & node & _ & _ & Hu1 & _ & _ & Hl1 & ->)
                        |(k & c & _ & _ & _ & _ & _ & _ & ->)]).
    + destruct (row_done_exits E write pg wg
                  (Some (pg, if base =? 0 then 0 else base - 1)) 0 st1)
        as [H|[_ H]]; [|rewrite H; discriminate|rewrite H; discriminate].
      rewrite Hu1, Hl1. eauto.
    + destruct write; discriminate.
Qed.

(** X16.  On a well-formed tree (every page non-empty, every key pending
    or readable, children in the cache, update and insert arrays of the
    right length) the search has defined behaviour: it reads no NULL
    pointer, no slot, update or insert entry outside its array, and no
    freed or missing buffer.  The tree is still well formed when the
    search returns, with either return code. *)
Theorem search_defined_on_wf_tree E depth key write st :
  tree_wf st ->
  __wt_row_search E depth key write st <> Undef /\
  forall st',
    final_state (__wt_row_search E depth key write st) = Some st' ->
    tree_wf st'.
Proof.
  intros Hwf. unfold __wt_row_search, bind.
  pose proof (row_position_defined E depth key st Hwf) as HP.
  pose proof (row_position_store E depth key st) as HS.
  destruct (row_position E depth key st)
    as [[[[[pg wg] base] rip] cmp] st2|ret2 st2| |];
    [| |contradiction|].
  - destruct HP as (Hwf2 & page & i & Hp & Hb & -> & Hi).
    destruct HS as (_ & S2 & L2 & _).
    apply same_srch_fields in S2. simpl in S2.
    destruct S2 as (_ & _ & _ & _ & _ & _ & Hu & _).
    split.
    + eapply row_finish_defined; eauto.
    + intros st'.
      pose proof (row_finish_exits E key write pg wg base (Some (pg, i)) cmp
                    st2) as HF.
      destruct (row_finish E key write pg wg base (Some (pg, i)) cmp st2)
        as [[] st3|ret3 st3| |]; try discriminate.
      * intros [= <-]. destruct HF as (s & rip' & c' & FF & ->).
        destruct FF as (Hr & Hps & Hbs & Hfs & _).
        now apply (tree_wf_same st2).
      * intros [= <-]. destruct HF as (_ & s & FF & ->).
        destruct FF as (Hr & Hps & Hbs & Hfs & _).
        apply tree_wf_page_out. now apply (tree_wf_same st2).
  - split; [discriminate|]. intros st' [= <-]. exact HP.
  - split; [discriminate|]. discriminate.
Qed.

Lemma search_defined_on_wf_tree_witness :
  tree_wf sample_state /\
  exists st',
    __wt_row_search sample_env 2 ["f"%byte] false sample_state = Ret tt st' /\
    tree_wf st'.
Proof.
  assert (Hwf : tree_wf sample_state).
  { split; [reflexivity|]. split; [simpl; lia|]. split.
    - intros pg p i r Hp Hr.
      destruct pg as [|[|[|[|pg]]]]; simpl in Hp; try discriminate;
        injection Hp as <-;
        (destruct i as [|[|[|i]]]; simpl in Hr; try discriminate;
         injection Hr as <-;
         ((left; reflexivity) ||
          (right; split; [reflexivity|vm_compute; eauto]))).
    - intros pg p Hp.
      destruct pg as [|[|[|[|pg]]]]; simpl in Hp; try discriminate;
        injection Hp as <-;
        (split; [vm_compute; split; reflexivity|]); try reflexivity.
      simpl. repeat (constructor; [simpl; lia|]). constructor. }
  destruct (search_defined_on_wf_tree sample_env 2 ["f"%byte] false
              sample_state Hwf) as [_ Hpres].
  split; [exact Hwf|].
  eexists. split; [vm_compute; reflexivity|].
  apply Hpres. vm_compute. reflexivity.
Defined.

(* ================================================================== *)
(** ** Termination *)
(* ================================================================== *)

(** X15.  The loops of the search terminate whatever the comparator
    returns: neither binary search exhausts the iterations its slot count
    allows, and the code after the leaf's binary search has no loop but
    the chain scan, which follows the chain once.  Only the descent can
    exceed a bound, the bound on the number of levels. *)
Theorem search_loops_terminate E depth key write st :
  (forall pg page slot cmp s,
      leaf_search E (search_fuel (indx_count page)) key pg 0
                  (indx_count page) slot cmp s <> OutOfFuel) /\
  (forall pg page slot cmp s,
      int_select E key pg (indx_count page) slot cmp s <> OutOfFuel) /\
  (__wt_row_search E depth key write st = OutOfFuel ->
   tree_descend E depth key (root_page st) None 0
                (with_session srch_clear st) = OutOfFuel).
Proof.
  assert (Hn : forall page, 0 <= indx_count page
                            <= Z.of_nat (search_fuel (indx_count page))).
  { intros page. unfold search_fuel, indx_count. lia. }
  assert (HL : forall pg page slot cmp s,
             leaf_search E (search_fuel (indx_count page)) key pg 0
                         (indx_count page) slot cmp s <> OutOfFuel).
  { intros. apply leaf_search_fuel. apply Hn. }
  split; [exact HL|]. split.
  - intros pg page slot cmp s. unfold int_select.
    pose proof (int_search_fuel E key pg (search_fuel (indx_count page)) 0
                  (indx_count page) slot cmp s (Hn page)) as H.
    destruct (int_search E (search_fuel (indx_count page)) key pg 0
                (indx_count page) slot cmp s) as [[[b r] c] s'|ret s'| |];
      congruence.
  - unfold __wt_row_search, bind, row_position.
    change (root_page (with_session srch_clear st)) with (root_page st).
    destruct (tree_descend E depth key (root_page st) None 0
                (with_session srch_clear st))
      as [[pg cmp] st1|ret st1| |]; try discriminate; [|reflexivity].
    destruct (pages st1 !! pg) as [page|]; [|discriminate].
    specialize (HL pg page None cmp st1).
    destruct (leaf_search E (search_fuel (indx_count page)) key pg 0
                (indx_count page) None cmp st1)
      as [[[base rip] c] st2|ret st2| |]; try discriminate; [|contradiction].
    intros Hrun.
    pose proof (row_finish_exits E key write pg (write_gen page) base rip c
                  st2) as HF.
    now rewrite Hrun in HF.
Qed.

(* ================================================================== *)
(** ** A failed decode, and results left by an earlier search *)
(* ================================================================== *)

(** X17.  On a slot whose cell pointer lies inside the page image,
    [__wt_key_build] fails only when the codec fails on that cell; it then
    returns the codec's return code before the serialized publish, so no
    page is written and nothing is freed: the slot is still pending. *)
Theorem key_build_failure_publishes_nothing E pg indx st ret st' :
  cell_in_image st pg indx ->
  __wt_key_build E pg indx st = Err ret st' ->
  ret <> 0 /\ pages st' = pages st /\ freed st' = freed st /\
  load_row st' pg indx = load_row st pg indx /\
  exists p k off,
    pages st !! pg = Some p /\ load_row st pg indx = Some k /\
    row_key k = POnPage off /\ 0 <= off < Z.of_nat (length (dsk p)) /\
    ret = fst (cell_process E (dsk p) off).
Proof.
  intros Himg.
  unfold __wt_key_build, bind, key_build_instantiate.
  destruct (pages st !! pg) as [p|] eqn:Hp; [|discriminate].
  destruct (load_row st pg indx) as [k|] eqn:Hl; [|discriminate].
  destruct (row_key k) as [|off|a] eqn:Hk; simpl; try discriminate.
  destruct (cell_process E (dsk p) off) as [r b] eqn:Hcell.
  destruct (r =? 0) eqn:Hr; simpl.
  - unfold key_build_publish, bind, __wt_key_build_serial_func.
    match goal with
    | |- match match ?l with _ => _ end with _ => _ end = _ -> _ =>
        destruct l; [|discriminate]
    end.
    match goal with
    | |- match ?l with _ => _ end = _ -> _ => destruct l; [|discriminate]
    end.
    match goal with
    | |- (if ?c then _ else _) = _ -> _ => destruct c; discriminate
    end.
  - intros [= <- <-]. apply Z.eqb_neq in Hr.
    split; [exact Hr|]. split; [reflexivity|]. split; [reflexivity|].
    split; [exact Hl|].
    exists p, k, off. rewrite Hcell.
    split; [reflexivity|]. split; [reflexivity|]. split; [exact Hk|].
    split; [|reflexivity]. exact (Himg p k off Hp Hl Hk).
Qed.

Lemma key_build_failure_publishes_nothing_witness :
  exists st',
    __wt_key_build strict_env 0 0 truncated_state = Err 22 st' /\
    load_row st' 0 0 = Some (mkROW (POnPage 2) 0) /\ bufs st' = [] /\
    0 <= 2 < Z.of_nat (length (dsk (publish_page (mkROW (POnPage 2) 0)))).
Proof.
  edestruct (key_build_failure_publishes_nothing strict_env 0 0
               truncated_state) as (_ & _ & _ & Hl & _);
    [|vm_compute; reflexivity|].
  - intros p k off [= <-] [= <-] [= <-]. vm_compute. split; congruence.
  - eexists. split; [vm_compute; reflexivity|].
    split; [exact Hl|]. split; [reflexivity|].
    vm_compute. split; congruence.
Defined.

(** X18.  The search starts by clearing its return values, so nothing an
    earlier search left in the session's [srch_*] fields reaches the
    result: two sessions that agree on their hazard references get the
    same outcome. *)
Theorem search_ignores_stale_results E depth key write st s :
  hazard s = hazard (session st) ->
  __wt_row_search E depth key write (with_session (fun _ => s) st)
  = __wt_row_search E depth key write st.
Proof.
  intros H. unfold __wt_row_search, bind, row_position. cbv beta zeta.
  assert (H0 : with_session srch_clear (with_session (fun _ => s) st)
               = with_session srch_clear st).
  { unfold with_session, srch_clear. simpl. now rewrite H. }
  rewrite H0. reflexivity.
Qed.

Lemma search_ignores_stale_results_witness :
  __wt_row_search sample_env 2 ["g"%byte] false
    (with_session
       (fun _ => mkSESSION (Some 1%nat) 4 1 (Some (1%nat, 0))
                           (Some UpdDeleted) (Some (InsSlot 0))
                           (Some (UpdSlot 0)) 0 None [])
       sample_state)
  = __wt_row_search sample_env 2 ["g"%byte] false sample_state.
Proof.
  apply (search_ignores_stale_results sample_env 2 ["g"%byte] false
           sample_state). reflexivity.
Defined.

(* ================================================================== *)
(** ** The window between the two stores of a publish *)
(* ================================================================== *)

(** The states a pending slot goes through during the publish, in program
    order: as it was, the new pointer with the old size 0 (before and
    after the flush), then the new pointer with the new size. *)
Lemma serial_states_pending key tmp :
  key_build_serial_states (mkROW key 0) tmp
  = [mkROW key 0; mkROW (item_data tmp) 0; mkROW (item_data tmp) 0;
     mkROW (item_data tmp) (item_size tmp)].
Proof. reflexivity. Qed.

(** A reader that finds a slot with an off-page pointer and size 0 does
    not decode anything: [__wt_key_build] returns at the off-page test,
    and the comparator reads a key of length 0. *)
Lemma window_slot_reads_empty E key pg indx st p a :
  pages st !! pg = Some p ->
  load_row st pg indx = Some (mkROW (POffPage a) 0) ->
  key_materialize E pg indx st = Ret tt st /\
  call_compare E key pg indx st
  = Ret (btree_compare E key []) (log (EvCompare pg indx) st).
Proof.
  intros Hp Hl. split.
  - unfold key_materialize. rewrite Hl. simpl.
    apply (key_build_off_page E pg indx st p _ Hp Hl). discriminate.
  - unfold call_compare. rewrite Hp, Hl. reflexivity.
Qed.

(** C7.  The publish stores the pointer, then flushes, then stores the
    size (lines 367-369), so between the two stores the slot holds the
    new pointer with the old size 0.  A reader that finds the slot in that
    state takes size 0 for a key that needs processing, returns from
    [__wt_key_build] at the off-page test without decoding, and compares
    the target with a key of length 0.  On the sample page the key "f" is
    found before the first store and after the last, and is reported
    WT_NOTFOUND in between, with one comparison and no decode by the
    reader.  The comment at lines 361-366 gives the order of the stores
    as the reason a reader sees either a size of 0, for a key that is
    then resolved in the serialized function, or a non-zero size with a
    valid pointer; the reader of the state in between gets neither. *)
Theorem publish_window_hides_key :
  key_build_instantiate sample_env 0 0 pending_state
  = Ret (Some publish_tmp) (publish_in_progress 0) /\
  key_build_serial_states (mkROW (POnPage 3) 0) publish_tmp
  = [mkROW (POnPage 3) 0; mkROW (POffPage 0) 0; mkROW (POffPage 0) 0;
     mkROW (POffPage 0) 1] /\
  (load_row (publish_in_progress 0) 0 0 = Some (mkROW (POnPage 3) 0) /\
   load_row (publish_in_progress 1) 0 0 = Some (mkROW (POffPage 0) 0) /\
   load_row (publish_in_progress 2) 0 0 = Some (mkROW (POffPage 0) 0) /\
   load_row (publish_in_progress 3) 0 0 = Some (mkROW (POffPage 0) 1)) /\
  __wt_key_build_serial_func 0 0 publish_tmp (publish_in_progress 0)
  = Ret tt (publish_in_progress 3) /\
  (exists st',
      __wt_row_search sample_env 0 ["f"%byte] false (publish_in_progress 0)
      = Ret tt st' /\ srch_match (session st') = 1) /\
  (exists st',
      __wt_row_search sample_env 0 ["f"%byte] false (publish_in_progress 1)
      = Err (WT_NOTFOUND sample_env) st' /\
      calls st' = calls (publish_in_progress 1) ++ [EvCompare 0 0] /\
      lex_compare ["f"%byte] [] <> 0) /\
  (exists st',
      __wt_row_search sample_env 0 ["f"%byte] false (publish_in_progress 2)
      = Err (WT_NOTFOUND sample_env) st' /\
      calls st' = calls (publish_in_progress 2) ++ [EvCompare 0 0]) /\
  (exists st',
      __wt_row_search sample_env 0 ["f"%byte] false (publish_in_progress 3)
      = Ret tt st' /\ srch_match (session st') = 1 /\
      calls st' = calls (publish_in_progress 3) ++ [EvCompare 0 0]) /\
  (forall E key pg indx st p a,
      pages st !! pg = Some p ->
      load_row st pg indx = Some (mkROW (POffPage a) 0) ->
      key_materialize E pg indx st = Ret tt st /\
      call_compare E key pg indx st
      = Ret (btree_compare E key []) (log (EvCompare pg indx) st)).
Proof.
  split; [reflexivity|]. split; [apply serial_states_pending|].
  split; [repeat split|]. split; [reflexivity|].
  split; [eexists; split; vm_compute; reflexivity|].
  split.
  { eexists. split; [vm_compute; reflexivity|].
    split; [reflexivity|discriminate]. }
  split; [eexists; split; [vm_compute; reflexivity|reflexivity]|].
  split.
  { eexists. split; [vm_compute; reflexivity|].
    split; reflexivity. }
  intros E key pg indx st p a. apply window_slot_reads_empty.
Qed.

(* ================================================================== *)
(** ** A failing collaborator aborts the search *)
(* ================================================================== *)

Lemma decode_ok_store E st s e :
  store_frame E st s -> decode_ok E s e -> decode_ok E st e.
Proof.
  intros F. destruct e as [| |pg off]; simpl; auto.
  intros H p Hp.
  destruct (Forall2_lookup_l _ _ _ _ _ (sf_pages _ _ _ F) Hp)
    as (p' & Hp' & Hpp).
  destruct Hpp as (Hd & _). rewrite <- Hd. now apply H.
Qed.

Lemma clean_run_refl E st : clean_run E st st.
Proof.
  split; [apply store_frame_refl|]. exists []. rewrite app_nil_r.
  split; [reflexivity|constructor].
Qed.

Lemma clean_run_trans E st1 st2 st3 :
  clean_run E st1 st2 -> clean_run E st2 st3 -> clean_run E st1 st3.
Proof.
  intros (F1 & e1 & H1 & O1) (F2 & e2 & H2 & O2).
  split; [eapply store_frame_trans; eauto|].
  exists (e1 ++ e2). rewrite H2, H1, app_assoc. split; [reflexivity|].
  apply Forall_app. split; [exact O1|].
  eapply Forall_impl; [exact O2|]. intros e. now apply decode_ok_store.
Qed.

(** A step that changes the session only. *)
Lemma clean_run_same E st s s' :
  root_page s' = root_page s -> pages s' = pages s -> bufs s' = bufs s ->
  freed s' = freed s -> calls s' = calls s ->
  clean_run E st s -> clean_run E st s'.
Proof.
  intros Hr Hp Hb Hf Hc (F & evs & H & O). split.
  - now apply (store_frame_same_r E st s s').
  - exists evs. now rewrite Hc.
Qed.

Lemma clean_run_log E st s e :
  decode_ok E st e -> clean_run E st s -> clean_run E st (log e s).
Proof.
  intros He (F & evs & H & O). split.
  - now apply (store_frame_same_r E st s (log e s)).
  - exists (evs ++ [e]). simpl. rewrite H, app_assoc.
    split; [reflexivity|]. apply Forall_app. split; [exact O|].
    constructor; [exact He|constructor].
Qed.

Lemma clean_run_page_out E st s pg :
  clean_run E st s -> clean_run E st (WT_PAGE_OUT pg s).
Proof.
  apply clean_run_same; unfold WT_PAGE_OUT;
    destruct (negb (Nat.eqb pg (root_page s))); reflexivity.
Qed.

Lemma failed_decode_trans E st1 st2 st3 ret :
  clean_run E st1 st2 -> failed_decode E st2 st3 ret ->
  failed_decode E st1 st3 ret.
Proof.
  intros C (s & pg & off & p & Cs & Hp & Hret & Hne & Hc).
  exists s, pg, off, p. split; [eapply clean_run_trans; eauto|]. auto.
Qed.

Lemma materialize_run E pg indx st :
  match WT_ERR pg (key_materialize E pg indx) st with
  | Ret _ st1 => clean_run E st st1
  | Err ret st1 => failed_decode E st st1 ret
  | Undef | OutOfFuel => True
  end.
Proof.
  unfold WT_ERR.
  pose proof (key_materialize_cases E pg indx st) as C.
  destruct (key_materialize E pg indx st) as [[] st1|ret st1| |] eqn:Hrun;
    auto.
  - destruct C as [->|(p & off & b & Hp & _ & Hcell & Hst)];
      [apply clean_run_refl|].
    split.
    + eapply frame_store_frame.
      eapply (key_materialize_frame E (fun _ => True)); [|exact Hrun]. auto.
    + exists [EvCellProcess pg off]. subst st1. split; [reflexivity|].
      constructor; [|constructor]. intros p' Hp'.
      rewrite Hp in Hp'. injection Hp' as <-. now rewrite Hcell.
  - destruct C as (Hne & p & off & Hp & -> & ->). unfold goto_err.
    exists st, pg, off, p. split; [apply clean_run_refl|].
    split; [exact Hp|]. split; [reflexivity|]. split; [exact Hne|].
    destruct (page_out_session pg (log (EvCellProcess pg off) st))
      as (_ & Hc & _).
    now rewrite Hc.
Qed.

Lemma leaf_search_run E key pg fuel :
  forall base limit rip cmp st,
    match leaf_search E fuel key pg base limit rip cmp st with
    | Ret _ st' => clean_run E st st'
    | Err ret st' => failed_decode E st st' ret
    | Undef | OutOfFuel => True
    end.
Proof.
  induction fuel as [|fuel IH]; intros base limit rip cmp st.
  - simpl. destruct (limit =? 0); [apply clean_run_refl|exact I].
  - rewrite leaf_search_unfold.
    destruct (limit =? 0); [apply clean_run_refl|]. simpl.
    set (indx := u32 (base + Z.shiftr limit 1)).
    pose proof (materialize_run E pg indx st) as HM.
    destruct (WT_ERR pg (key_materialize E pg indx) st)
      as [[] st1|ret st1| |]; auto.
    pose proof (compare_exits E key pg indx st1) as HC.
    destruct (call_compare E key pg indx st1) as [c st2|ret st2| |];
      auto; [|contradiction].
    subst st2.
    assert (C2 : clean_run E st (log (EvCompare pg indx) st1)).
    { apply clean_run_log; [exact I|exact HM]. }
    assert (Hrec : forall b l,
               match leaf_search E fuel key pg b l (Some (pg, indx)) c
                       (log (EvCompare pg indx) st1) with
               | Ret _ st' => clean_run E st st'
               | Err ret st' => failed_decode E st st' ret
               | Undef | OutOfFuel => True
               end).
    { intros b l.
      specialize (IH b l (Some (pg, indx)) c (log (EvCompare pg indx) st1)).
      destruct (leaf_search E fuel key pg b l (Some (pg, indx)) c
                  (log (EvCompare pg indx) st1)) as [r st'|ret st'| |]; auto.
      - eapply clean_run_trans; eauto.
      - eapply failed_decode_trans; eauto. }
    destruct (c =? 0); [exact C2|].
    destruct (c <? 0); apply Hrec.
Qed.

Lemma int_search_run E key pg fuel :
  forall base limit rref cmp st,
    match int_search E fuel key pg base limit rref cmp st with
    | Ret _ st' => clean_run E st st'
    | Err ret st' => failed_decode E st st' ret
    | Undef | OutOfFuel => True
    end.
Proof.
  induction fuel as [|fuel IH]; intros base limit rref cmp st.
  - simpl. destruct (limit =? 0); [apply clean_run_refl|exact I].
  - rewrite int_search_unfold.
    destruct (limit =? 0); [apply clean_run_refl|]. simpl.
    set (indx := u32 (base + Z.shiftr limit 1)).
    pose proof (materialize_run E pg indx st) as HM.
    destruct (WT_ERR pg (key_materialize E pg indx) st)
      as [[] st1|ret st1| |]; auto.
    assert (Hrec : forall b l c s,
               clean_run E st s ->
               match int_search E fuel key pg b l (Some (pg, indx)) c s with
               | Ret _ st' => clean_run E st st'
               | Err ret st' => failed_decode E st st' ret
               | Undef | OutOfFuel => True
               end).
    { intros b l c s Cs. specialize (IH b l (Some (pg, indx)) c s).
      destruct (int_search E fuel key pg b l (Some (pg, indx)) c s)
        as [r st'|ret st'| |]; auto.
      - eapply clean_run_trans; eauto.
      - eapply failed_decode_trans; eauto. }
    destruct (negb (indx =? 0)); [|now apply Hrec].
    pose proof (compare_exits E key pg indx st1) as HC.
    destruct (call_compare E key pg indx st1) as [c st2|ret st2| |];
      auto; [|contradiction].
    subst st2.
    assert (C2 : clean_run E st (log (EvCompare pg indx) st1)).
    { apply clean_run_log; [exact I|exact HM]. }
    destruct (c =? 0); [exact C2|].
    destruct (c <? 0); now apply Hrec.
Qed.

Lemma int_select_run E key pg n rref cmp st :
  match int_select E key pg n rref cmp st with
  | Ret _ st' => clean_run E st st'
  | Err ret st' => failed_decode E st st' ret
  | Undef | OutOfFuel => True
  end.
Proof.
  unfold int_select.
  pose proof (int_search_run E key pg (search_fuel n) 0 n rref cmp st) as H.
  destruct (int_search E (search_fuel n) key pg 0 n rref cmp st)
    as [[[b r] c] st'|ret st'| |]; auto.
Qed.

(** The descent ends on a leaf after successful decodes only, or with the
    code of a failed decode, its last call, or with the code of a failed
    pin. *)
Lemma tree_descend_run E key depth :
  forall pg rref cmp st,
    match tree_descend E depth key pg rref cmp st with
    | Ret _ st' => clean_run E st st'
    | Err ret st' =>
        failed_decode E st st' ret \/
        (clean_run E st st' /\ ret <> 0 /\ exists child, page_in E child = ret)
    | Undef | OutOfFuel => True
    end.
Proof.
  induction depth as [|depth IH]; intros pg rref cmp st.
  - simpl. destruct (pages st !! pg) as [p|]; [|exact I].
    destruct (page_u p); [exact I|apply clean_run_refl].
  - simpl. destruct (pages st !! pg) as [p|]; [|exact I].
    destruct (page_u p) as [t|d upd ins]; [|apply clean_run_refl].
    pose proof (int_select_run E key pg (indx_count p) rref cmp st) as HS.
    destruct (int_select E key pg (indx_count p) rref cmp st)
      as [[[[rp ri]|] cmp'] st1|ret st1| |]; auto.
    destruct (load_ref st1 rp ri) as [child|]; [|exact I].
    unfold WT_ERR, __wt_page_in.
    destruct (page_in E child =? 0) eqn:Hpin; simpl.
    + match goal with
      | |- match tree_descend _ _ _ _ _ _ ?s with _ => _ end =>
          set (st3 := s)
      end.
      assert (C3 : clean_run E st st3).
      { eapply clean_run_same; [..|exact HS];
          subst st3; destruct (negb (Nat.eqb pg (root_page st1)));
          reflexivity. }
      specialize (IH child (Some (rp, ri)) cmp' st3).
      destruct (tree_descend E depth key child (Some (rp, ri)) cmp' st3)
        as [r st'|ret st'| |]; auto.
      * eapply clean_run_trans; eauto.
      * destruct IH as [Hf|(Hc & Hne & Hch)].
        -- left. eapply failed_decode_trans; eauto.
        -- right. split; [eapply clean_run_trans; eauto|]. auto.
    + apply Z.eqb_neq in Hpin. right. unfold goto_err.
      split; [now apply clean_run_page_out|]. split; [exact Hpin|]. eauto.
Qed.

Lemma row_position_run E depth key st :
  match row_position E depth key st with
  | Ret _ st' => clean_run E st st'
  | Err ret st' =>
      failed_decode E st st' ret \/
      (clean_run E st st' /\ ret <> 0 /\ exists child, page_in E child = ret)
  | Undef | OutOfFuel => True
  end.
Proof.
  unfold row_position. set (st0 := with_session srch_clear st).
  assert (C0 : clean_run E st st0).
  { apply (clean_run_same E st st st0); try reflexivity.
    apply clean_run_refl. }
  pose proof (tree_descend_run E key depth (root_page st0) None 0 st0) as HD.
  destruct (tree_descend E depth key (root_page st0) None 0 st0)
    as [[pg cmp] st1|ret st1| |]; auto.
  - destruct (pages st1 !! pg) as [page|]; [|exact I].
    pose proof (leaf_search_run E key pg (search_fuel (indx_count page)) 0
                  (indx_count page) None cmp st1) as HL.
    pose proof (clean_run_trans _ _ _ _ C0 HD) as C1.
    destruct (leaf_search E (search_fuel (indx_count page)) key pg 0
                (indx_count page) None cmp st1)
      as [[[base rip] c] st2|ret st2| |]; auto.
    + eapply clean_run_trans; eauto.
    + left. eapply failed_decode_trans; eauto.
  - destruct HD as [Hf|(Hc & Hne & Hch)].
    + left. eapply failed_decode_trans; eauto.
    + right. split; [eapply clean_run_trans; eauto|]. auto.
Qed.

Lemma row_done_calls E write pg wg rip cmp s st' :
  final_state (row_done E write pg wg rip cmp s) = Some st' ->
  calls st' = calls s.
Proof.
  pose proof (row_done_any E write pg wg rip cmp s) as HD.
  destruct (row_done E write pg wg rip cmp s) as [[] s'|ret s'| |];
    try discriminate; intros [= <-].
  - now subst s'.
  - destruct HD as (_ & ->). apply page_out_session.
Qed.

Lemma row_finish_calls E key write pg wg base rip cmp st st' :
  final_state (row_finish E key write pg wg base rip cmp st) = Some st' ->
  exists evs, calls st' = calls st ++ evs /\ Forall (decode_ok E st) evs.
Proof.
  assert (Hnil : forall s, calls s = calls st ->
                           exists evs, calls s = calls st ++ evs /\
                                       Forall (decode_ok E st) evs).
  { intros s Hs. exists []. rewrite app_nil_r. split; [exact Hs|constructor]. }
  unfold row_finish.
  destruct (pages st !! pg) as [page|]; [|discriminate].
  destruct (page_u page) as [|d upd ins]; [discriminate|].
  destruct (cmp =? 0).
  - destruct (WT_ROW_INDX_SLOT pg rip) as [slot|]; [|discriminate].
    destruct upd as [us|].
    + destruct (us !! Z.to_nat slot) as [u|]; [|discriminate].
      intros H. apply row_done_calls in H. apply Hnil. now rewrite H.
    + intros H. apply row_done_calls in H. apply Hnil. now rewrite H.
  - match goal with
    | |- final_state (match ?s with _ => _ end) = _ -> _ =>
        destruct s as [slot|]; [|discriminate]
    end.
    destruct (WT_ROW_INSERT_SLOT ins slot) as [chain|]; [|discriminate].
    set (st1 := match ins with
                | Some _ =>
                    with_session (set_srch_ins (Some (InsSlot slot)))
                      (with_session (set_srch_slot slot) st)
                | None => with_session (set_srch_slot slot) st
                end).
    assert (H1 : calls st1 = calls st) by (subst st1; now destruct ins).
    destruct chain as [|node chain].
    + destruct (negb write).
      * unfold goto_err. intros [= <-]. apply Hnil.
        destruct (page_out_session pg st1) as (_ & Hc & _). congruence.
      * intros H. apply row_done_calls in H. apply Hnil. congruence.
    + pose proof (ins_search_spec E key slot (node :: chain) 0%nat st1) as HI.
      destruct (__wt_ins_search E key slot 0 (node :: chain) st1)
        as [c st2] eqn:Hrun.
      cbv zeta in HI. cbn [fst snd] in HI. destruct HI as (_ & _ & HI).
      assert (H2 : exists n, calls st2
                             = calls st ++ (EvCompareIns slot <$> seq 0 n)).
      { destruct HI as [(_ & k & nd & _ & Hc & _)|(_ & k & _ & Hc & _)];
          rewrite Hc, H1; eexists; reflexivity. }
      destruct H2 as (n & H2).
      assert (Hend : forall s, calls s = calls st2 ->
                               exists evs, calls s = calls st ++ evs /\
                                           Forall (decode_ok E st) evs).
      { intros s Hs. exists (EvCompareIns slot <$> seq 0 n).
        split; [congruence|]. apply Forall_fmap, Forall_true. intros; exact I. }
      destruct (negb (c =? 0) && negb write).
      * unfold goto_err. intros [= <-]. apply Hend. apply page_out_session.
      * intros H. apply row_done_calls in H. now apply Hend.
Qed.

Lemma row_finish_run E key write pg wg base rip cmp st st' :
  final_state (row_finish E key write pg wg base rip cmp st) = Some st' ->
  clean_run E st st'.
Proof.
  intros Hrun. split; [|eapply row_finish_calls; eauto].
  pose proof (row_finish_exits E key write pg wg base rip cmp st) as HF.
  destruct (row_finish E key write pg wg base rip cmp st)
    as [[] st3|ret3 st3| |]; try discriminate; injection Hrun as <-.
  - destruct HF as (s & rip' & c' & FF & ->).
    eapply (store_frame_same_r E st s); try reflexivity.
    now apply finish_frame_store.
  - destruct HF as (_ & s & FF & ->).
    eapply store_frame_hazard_step; [|apply hazard_step_page_out].
    now apply finish_frame_store.
Qed.

(** Every run of the search that returns: a run of successful decodes, or
    an abort on a failed decode before the leaf's binary search ended. *)
Lemma search_run E depth key write st :
  match __wt_row_search E depth key write st with
  | Ret _ st' => clean_run E st st'
  | Err ret st' =>
      (failed_decode E st st' ret /\
       row_position E depth key st = Err ret st') \/
      clean_run E st st'
  | Undef | OutOfFuel => True
  end.
Proof.
  unfold __wt_row_search, bind.
  pose proof (row_position_run E depth key st) as HP.
  destruct (row_position E depth key st)
    as [[[[[pg wg] base] rip] cmp] st2|ret2 st2| |]; auto.
  - pose proof (row_finish_run E key write pg wg base rip cmp st2) as HF.
    destruct (row_finish E key write pg wg base rip cmp st2)
      as [[] st3|ret3 st3| |]; auto.
    + eapply clean_run_trans; eauto.
    + right. eapply clean_run_trans; eauto.
  - destruct HP as [Hf|(Hc & _)]; [left; auto|right; exact Hc].
Qed.

Lemma tree_descend_pin_fails E key st r :
  total_order (btree_compare E) ->
  heap_wf st ->
  int_pages_sorted E st ->
  forall depth pg rref cmp st1,
    store_frame E st st1 ->
    descent_result E st depth key pg = Some (inl r) ->
    r <> 0 /\
    exists st', tree_descend E depth key pg rref cmp st1 = Err r st'.
Proof.
  intros TO Hwf Hint.
  induction depth as [|depth IH]; intros pg rref cmp st1 F Hres.
  - simpl in Hres.
    destruct (pages st !! pg) as [page|]; [|discriminate]. simpl in Hres.
    destruct (page_u page); discriminate.
  - simpl in Hres.
    destruct (pages st !! pg) as [page|] eqn:Hp; [|discriminate].
    simpl in Hres.
    destruct (page_u page) as [t|d upd ins] eqn:Hu; [|discriminate].
    destruct (Hint pg page t Hp Hu) as (Hn & ks & Hks & Hsorted).
    rewrite Hks in Hres. simpl in Hres.
    destruct (load_ref st pg (descent_slot E key ks)) as [child|] eqn:Hchild;
      [|discriminate].
    simpl in Hres.
    destruct (Forall2_lookup_l _ _ _ _ _ (sf_pages _ _ _ F) Hp)
      as (page1 & Hp1 & Hpp).
    assert (Hn1 : indx_count page1 = indx_count page).
    { unfold indx_count. now rewrite (page_frame_rows_length _ _ Hpp). }
    assert (Hu1 : exists t1, page_u page1 = row_int t1).
    { apply page_frame_refs in Hpp. rewrite Hu in Hpp.
      destruct (page_u page1); [eauto|tauto]. }
    destruct Hu1 as (t1 & Hu1).
    pose proof (store_frame_heap_wf _ _ _ F Hwf) as Hwf1.
    pose proof (keys_of_store _ _ _ _ _ F Hwf (page_keys_of _ _ _ _ Hks))
      as Hks1.
    assert (Hn1' : 0 < indx_count page1 < 2 ^ 32) by lia.
    destruct (int_select_slot E key pg page1 ks rref cmp st1 TO Hwf1 Hp1 Hks1
                Hn1' Hsorted)
      as (c' & st2 & Hsel & F2).
    apply frame_store_frame in F2.
    pose proof (store_frame_trans _ _ _ _ F F2) as F02.
    assert (Hchild2 : load_ref st2 pg (descent_slot E key ks) = Some child).
    { now rewrite (load_ref_store _ _ _ _ _ F02). }
    cbn [tree_descend]. rewrite Hp1, Hu1, Hsel, Hchild2.
    unfold WT_ERR, __wt_page_in.
    destruct (page_in E child =? 0) eqn:Hpin; simpl.
    + apply IH; [|exact Hres].
      eapply store_frame_same_r; [| | | |exact F02];
        destruct (negb (Nat.eqb pg (root_page st2))); reflexivity.
    + injection Hres as <-. apply Z.eqb_neq in Hpin.
      split; [exact Hpin|]. unfold goto_err. eauto.
Qed.

Lemma srch_clear_no_result s : no_result (srch_clear s).
Proof. unfold no_result, srch_clear. simpl. auto 10. Qed.

(** C9.  A failing collaborator aborts the search.  When the descent, by
    the descent slots of the internal pages, comes to a child whose pin
    fails, the search returns that pin's return code; when a decode the
    search makes returns non-zero, that decode is the last call the search
    makes and the search returns its return code.  In both cases, as for
    every abort before the leaf's binary search has ended, the code is
    the collaborator's, every return field is as the search first set it
    (no page, generation 0, no match, no slot pointer, no update, no
    insertion point, no update reference, slot 2^32 - 1) and the search
    holds no hazard reference it acquired. *)
Theorem search_error_no_result E depth key write st :
  root_not_child st = true ->
  (total_order (btree_compare E) -> heap_wf st = true ->
   int_pages_sorted E st ->
   forall r,
     descent_result E st depth key (root_page st) = Some (inl r) ->
     exists st',
       __wt_row_search E depth key write st = Err r st' /\ r <> 0 /\
       no_result (session st') /\
       hazard (session st') = hazard (session st)) /\
  (forall st' evs pg off p,
      final_state (__wt_row_search E depth key write st) = Some st' ->
      calls st' = calls st ++ evs ->
      EvCellProcess pg off ∈ evs ->
      pages st !! pg = Some p ->
      fst (cell_process E (dsk p) off) <> 0 ->
      __wt_row_search E depth key write st
      = Err (fst (cell_process E (dsk p) off)) st' /\
      last evs = Some (EvCellProcess pg off) /\
      no_result (session st') /\
      hazard (session st') = hazard (session st)) /\
  (forall ret st',
      row_position E depth key st = Err ret st' ->
      __wt_row_search E depth key write st = Err ret st' /\
      collab_error E ret /\
      no_result (session st') /\
      hazard (session st') = hazard (session st)).
Proof.
  intros Hrnc.
  assert (H3 : forall ret st',
             row_position E depth key st = Err ret st' ->
             __wt_row_search E depth key write st = Err ret st' /\
             collab_error E ret /\
             no_result (session st') /\
             hazard (session st') = hazard (session st)).
  { intros ret st' Hpos.
    pose proof (row_position_exits E depth key st Hrnc) as HX.
    rewrite Hpos in HX. destruct HX as (Hce & Hs & _).
    split; [unfold __wt_row_search, bind; now rewrite Hpos|].
    split; [exact Hce|]. rewrite Hs.
    split; [apply srch_clear_no_result|reflexivity]. }
  split; [|split; [|exact H3]].
  - intros TO Hwf Hint r Hres. apply Is_true_true in Hwf.
    set (st0 := with_session srch_clear st).
    assert (F0 : store_frame E st st0).
    { apply (store_frame_same_r E st st st0); try reflexivity.
      apply store_frame_refl. }
    destruct (tree_descend_pin_fails E key st r TO Hwf Hint depth
                (root_page st) None 0 st0 F0 Hres) as (Hne & st' & Hd).
    assert (Hpos : row_position E depth key st = Err r st').
    { unfold row_position. fold st0.
      change (root_page st0) with (root_page st). now rewrite Hd. }
    destruct (H3 r st' Hpos) as (Hrun & _ & Hno & Hhz).
    exists st'. auto.
  - intros st' evs pg off p Hfin Hcalls Hin Hp Hfail.
    pose proof (search_run E depth key write st) as HR.
    assert (Hclean : clean_run E st st' -> False).
    { intros (_ & evs' & Hc' & Hok).
      rewrite Hc' in Hcalls. apply app_inv_head in Hcalls. subst evs'.
      rewrite Forall_forall in Hok. apply Hfail, (Hok _ Hin p Hp). }
    destruct (__wt_row_search E depth key write st)
      as [[] s|ret s| |] eqn:Hrun; try discriminate;
      injection Hfin as ->.
    + now destruct (Hclean HR).
    + destruct HR as [(Hf & Hpos)|Hc]; [|now destruct (Hclean Hc)].
      destruct Hf as (s0 & pg' & off' & p' & (F & evs0 & Hc0 & Hok0)
                      & Hp' & Hret & Hne & Hlast).
      rewrite Hc0, <- app_assoc in Hlast. rewrite Hlast in Hcalls.
      apply app_inv_head in Hcalls. subst evs.
      assert (Hev : EvCellProcess pg off = EvCellProcess pg' off').
      { apply elem_of_app in Hin. destruct Hin as [Hin|Hin].
        - exfalso. rewrite Forall_forall in Hok0.
          apply Hfail, (Hok0 _ Hin p Hp).
        - apply list_elem_of_singleton in Hin. exact Hin. }
      injection Hev as <- <-.
      assert (Hd : dsk p' = dsk p).
      { destruct (Forall2_lookup_l _ _ _ _ _ (sf_pages _ _ _ F) Hp)
          as (q & Hq & Hpq).
        rewrite Hp' in Hq. injection Hq as <-. apply Hpq. }
      rewrite Hd in Hret. subst ret.
      destruct (H3 _ _ Hpos) as (_ & _ & Hno & Hhz).
      split; [reflexivity|]. split; [apply last_snoc|]. auto.
Qed.

Lemma search_error_no_result_witness :
  (exists st',
      __wt_row_search failing_env 2 ["k"%byte] true sample_state = Err 5 st' /\
      page_in failing_env 3 = 5 /\
      no_result (session st') /\ hazard (session st') = []) /\
  (exists st',
      __wt_row_search strict_env 0 ["f"%byte] false truncated_state
      = Err 22 st' /\
      strict_cell (dsk (publish_page (mkROW (POnPage 2) 0))) 2 = (22, []) /\
      calls st' = [EvCellProcess 0 2] /\
      no_result (session st') /\ hazard (session st') = []).
Proof.
  split.
  - destruct (search_error_no_result failing_env 2 ["k"%byte] true
                sample_state eq_refl) as (Hpin & _ & _).
    destruct (Hpin lex_compare_total_order eq_refl) with (r := 5)
      as (st' & Hrun & _ & Hno & Hhz).
    + intros pg page t Hp Hu.
      destruct pg as [|[|[|[|pg]]]]; simpl in Hp; try discriminate;
        injection Hp as <-; try discriminate.
      split; [vm_compute; split; reflexivity|].
      exists [["m"]; ["d"]; ["h"]]%byte. split; reflexivity.
    + reflexivity.
    + exists st'. auto.
  - destruct (search_error_no_result strict_env 0 ["f"%byte] false
                truncated_state eq_refl) as (_ & Hdec & _).
    edestruct Hdec with (evs := [EvCellProcess 0 2]) (pg := 0%nat)
                        (off := 2)
                        (p := publish_page (mkROW (POnPage 2) 0))
      as (Hrun & _ & Hno & Hhz);
      [vm_compute; reflexivity|reflexivity|left|reflexivity
      |vm_compute; discriminate|].
    eexists. split; [exact Hrun|]. split; [reflexivity|].
    split; [reflexivity|]. split; [exact Hno|exact Hhz].
Defined.
